(** * HSI-Classification: the array utilities of [src/tools.py]

    A shallow embedding of the NumPy code of [tools.py] and the proofs of
    the properties its specification states.

    Conventions of the embedding.
    - Cell values (class ids, cluster ids, predictions) are integers [Z].
      Where the code does arithmetic in an array ([preds_cpy += 1]), the
      array has one of NumPy's integer element types and the result wraps
      around in it. What is stored in a [float64] array is rounded to 53
      bits, and [count * train_split] is a [float64] product.
    - A 1-D array and a Python list are a [list]; a 2-D array is a record
      of its two dimensions and its cells in row-major order, which is what
      [flatten] returns.
    - Python exceptions are the [Raise] results of the [result] monad.
    - [np.empty] returns unspecified cells: they are a parameter
      ([uninit]) of the functions that allocate with it.
    - [argsort] of NumPy's default kind promises no order among equal
      keys: the sorting function is a parameter of the function that
      calls it.
    - [x in outlier_pos] depends on what [outlier_pos] is: a list of
      lists, a list of tuples or an [ndarray].
    - [display] and the [pandas] report tables are a side channel that no
      function returns; they are left out. *)

From Stdlib Require Import PrimFloat FloatOps SpecFloat Uint63.
From stdpp Require Import base decidable option list sorting gmap.
From Stdlib Require Import ZArith QArith Lia.

Local Open Scope Z_scope.

(** ** Exceptions and the [result] monad *)

Inductive exn := IndexError | ValueError | ZeroDivisionError | OverflowError.

Inductive result (A : Type) : Type :=
  | Ok (a : A)
  | Raise (e : exn).
Arguments Ok {A} a.
Arguments Raise {A} e.

#[global] Instance result_ret : MRet result := λ A a, Ok a.
#[global] Instance result_bind : MBind result := λ A B f m,
  match m with
  | Ok a => f a
  | Raise e => Raise e
  end.

Definition is_Ok {A} (r : result A) : Prop := ∃ a, r = Ok a.

(** [for x in xs: s = body(s, x)], stopping at the first exception. *)
Fixpoint for_each {S X : Type} (body : S → X → result S) (xs : list X) (s : S)
  : result S :=
  match xs with
  | [] => Ok s
  | x :: xs' => s' ← body s x; for_each body xs' s'
  end.

(** [range(n)] *)
Definition range (n : nat) : list nat := seq 0 n.

(** ** Arrays *)

Module np.

(** A 2-D [ndarray]: [shape = (shape0, shape1)], cells in row-major
    order. *)
Record ndarray2 : Type := Array2 {
  shape0 : nat;
  shape1 : nat;
  data : list Z
}.

Definition wf (a : ndarray2) : Prop :=
  length (data a) = (shape0 a * shape1 a)%nat.

#[global] Instance ndarray2_eq_dec : EqDecision ndarray2.
Proof. solve_decision. Defined.

(** The array of a nested list of rows ([np.array([[..],[..]])]). *)
Definition of_rows (rows : list (list Z)) : ndarray2 :=
  Array2 (length rows) (length (default [] (head rows))) (concat rows).

Definition flatten (a : ndarray2) : list Z := data a.

(** [a.reshape((r, c))] of a 1-D array. *)
Definition reshape (a : list Z) (r c : nat) : result ndarray2 :=
  if decide (length a = (r * c)%nat) then Ok (Array2 r c a)
  else Raise ValueError.

(** [a[i]] for an index [i >= 0]. *)
Definition getitem {A} (a : list A) (i : nat) : result A :=
  match a !! i with
  | Some x => Ok x
  | None => Raise IndexError
  end.

(** [a[i, j]] *)
Definition getitem2 (a : ndarray2) (i j : nat) : result Z :=
  if decide (i < shape0 a ∧ j < shape1 a)%nat
  then getitem (data a) (i * shape1 a + j)
  else Raise IndexError.

(** [a[i, j] = v] *)
Definition setitem2 (a : ndarray2) (i j : nat) (v : Z) : result ndarray2 :=
  if decide (i < shape0 a ∧ j < shape1 a)%nat
  then Ok (Array2 (shape0 a) (shape1 a) (<[(i * shape1 a + j)%nat := v]> (data a)))
  else Raise IndexError.

(** [np.argwhere(a == v).flatten()] of a 1-D array: the positions that
    hold [v], in increasing order. *)
Definition argwhere_eq (a : list Z) (v : Z) : list nat :=
  filter (λ i, a !! i = Some v) (seq 0 (length a)).

(** [a[idx] = w] with an index array [idx]. *)
Fixpoint setitem_idx (a : list Z) (idx : list nat) (w : Z) : result (list Z) :=
  match idx with
  | [] => Ok a
  | i :: idx' =>
      if decide (i < length a)%nat then setitem_idx (<[i := w]> a) idx' w
      else Raise IndexError
  end.

(** [np.unique(a, return_counts=True)]: the distinct values in
    increasing order, and how often each occurs. *)
Definition count (a : list Z) (v : Z) : nat := length (filter (λ x, x = v) a).

Definition unique_values (a : list Z) : list Z :=
  merge_sort Z.le (remove_dups a).

Definition unique (a : list Z) : list Z * list nat :=
  let vs := unique_values a in (vs, count a <$> vs).

(** [c.argsort()]: the indices of [c] in an order that sorts [c]. The
    source calls it with NumPy's default kind, which promises no order
    among equal keys. So [argsort] is a parameter of the function that
    calls it: any function that returns, for every [c], a permutation of
    the indices of [c] along which the keys do not decrease. *)
Definition is_argsort (argsort : list nat → list nat) : Prop :=
  ∀ c, argsort c ≡ₚ seq 0 (length c) ∧
       StronglySorted Nat.le ((λ i, c !!! i) <$> argsort c).

(** Two such functions, for the examples: both sort the pairs
    (key, index); of two equal keys [argsort_stable] (NumPy's
    [kind='stable']) puts the one of smaller index first and
    [argsort_last_first] the one of larger index. *)
Definition key_le (p q : nat * nat) : Prop :=
  (p.1 < q.1 ∨ (p.1 = q.1 ∧ p.2 ≤ q.2))%nat.

#[global] Instance key_le_dec : RelDecision key_le.
Proof. intros p q. unfold key_le. apply _. Defined.

Definition key_le_rev (p q : nat * nat) : Prop :=
  (p.1 < q.1 ∨ (p.1 = q.1 ∧ q.2 ≤ p.2))%nat.

#[global] Instance key_le_rev_dec : RelDecision key_le_rev.
Proof. intros p q. unfold key_le_rev. apply _. Defined.

Definition argsort_by (R : relation (nat * nat)) `{!RelDecision R}
    (c : list nat) : list nat :=
  (merge_sort R (zip c (seq 0 (length c)))).*2.

Definition argsort_stable : list nat → list nat := argsort_by key_le.
Definition argsort_last_first : list nat → list nat := argsort_by key_le_rev.

(** [np.empty((r, c))]: the cells are whatever the memory held. *)
Definition empty2 (uninit : nat → Z) (r c : nat) : ndarray2 :=
  Array2 r c (uninit <$> seq 0 (r * c)).

(** A 1-D or a 2-D array, where the code may hold either. *)
Inductive ndarray : Type :=
  | A1 (a : list Z)
  | A2 (a : ndarray2).

(** The [size] argument of [np.empty]: an integer or a pair. *)
Inductive size_arg : Type :=
  | SizeInt (d : nat)
  | SizeShape (r d : nat).

Definition empty (uninit : nat → Z) (size : size_arg) : ndarray :=
  match size with
  | SizeInt d => A1 (uninit <$> seq 0 d)
  | SizeShape r d => A2 (empty2 uninit r d)
  end.

(** [len(a)] *)
Definition len (a : ndarray) : nat :=
  match a with
  | A1 l => length l
  | A2 a => shape0 a
  end.

Definition atleast_2d (a : ndarray) : ndarray2 :=
  match a with
  | A1 l => Array2 1 (length l) l
  | A2 a => a
  end.

(** [np.vstack((a, b))] with a 2-D [b]. *)
Definition vstack (a : ndarray) (b : ndarray2) : result ndarray :=
  let a2 := atleast_2d a in
  if decide (shape1 a2 = shape1 b)
  then Ok (A2 (Array2 (shape0 a2 + shape0 b) (shape1 b) (data a2 ++ data b)))
  else Raise ValueError.

(** Row [i] of a 2-D array. *)
Definition row (a : ndarray2) (i : nat) : list Z :=
  take (shape1 a) (drop (i * shape1 a) (data a)).

(** [a[idx]] with an index array [idx]: the selected rows of a 2-D
    array, the selected cells of a 1-D array. *)
Definition take_rows (a : ndarray2) (idx : list nat) : result ndarray2 :=
  rows ← for_each (λ acc i,
            if decide (i < shape0 a)%nat then Ok (acc ++ [row a i])
            else Raise IndexError) idx [];
  Ok (Array2 (length idx) (shape1 a) (concat rows)).

Definition take_idx {A} (a : list A) (idx : list nat) : result (list A) :=
  for_each (λ acc i, x ← getitem a i; Ok (acc ++ [x])) idx [].

(** [a[lo:hi]] with the bounds of a Python slice: a negative bound
    counts from the end, and both are clipped to the length. *)
Definition slice_bound (n x : Z) : Z :=
  if x <? 0 then Z.max 0 (x + n) else Z.min x n.

Definition slice {A} (a : list A) (lo hi : Z) : list A :=
  let n := Z.of_nat (length a) in
  let lo' := Z.to_nat (slice_bound n lo) in
  let hi' := Z.to_nat (slice_bound n hi) in
  take (hi' - lo') (drop lo' a).

(** [np.full(n, v)] *)
Definition full {A} (n : Z) (v : A) : result (list A) :=
  if n <? 0 then Raise ValueError else Ok (replicate (Z.to_nat n) v).

(** NumPy's integer element types. The cells of an array of one of them
    lie between [dtype_min] and [dtype_max], and arithmetic on the array
    wraps around in the type. *)
Inductive dtype : Type :=
  int8 | int16 | int32 | int64 | uint8 | uint16 | uint32 | uint64.

Definition dtype_bits (dt : dtype) : Z :=
  match dt with
  | int8 | uint8 => 8
  | int16 | uint16 => 16
  | int32 | uint32 => 32
  | int64 | uint64 => 64
  end.

Definition dtype_signed (dt : dtype) : bool :=
  match dt with
  | int8 | int16 | int32 | int64 => true
  | uint8 | uint16 | uint32 | uint64 => false
  end.

Definition dtype_min (dt : dtype) : Z :=
  if dtype_signed dt then - 2 ^ (dtype_bits dt - 1) else 0.

Definition dtype_max (dt : dtype) : Z :=
  if dtype_signed dt then 2 ^ (dtype_bits dt - 1) - 1 else 2 ^ dtype_bits dt - 1.

Definition wrap (dt : dtype) (x : Z) : Z :=
  dtype_min dt + (x - dtype_min dt) mod 2 ^ dtype_bits dt.

(** An integer as the [float64] it becomes when it is stored in an array of
    that type (what [np.empty] allocates): the integer itself up to 2^53,
    above that the nearest integer with 53 significant bits, the even one
    of two that are as near. (Integer cells have at most 64 bits; the
    conversion does not overflow.) *)
Definition float64 (x : Z) : Z :=
  let a := Z.abs x in
  let e := Z.log2 a - 52 in
  if e <=? 0 then x
  else
    let q := a / 2 ^ e in
    let r := a mod 2 ^ e in
    let half := 2 ^ (e - 1) in
    let q' := if r <? half then q
              else if half <? r then q + 1
              else if Z.even q then q else q + 1 in
    Z.sgn x * (q' * 2 ^ e).

(** A count (an [int64] that is not negative) as a [float64], as NumPy
    converts it before it multiplies it with a Python [float]. *)
Definition float_of_count (cnt : nat) : float :=
  PrimFloat.of_uint63 (Uint63.of_Z (Z.of_nat cnt)).

(** [int(x)] of a [float64]: the value truncated towards zero. *)
Definition int_of_float (x : float) : result Z :=
  match Prim2SF x with
  | S754_zero _ => Ok 0
  | S754_finite s m e =>
      let a := if 0 <=? e then Zpos m * 2 ^ e else Zpos m / 2 ^ (- e) in
      Ok (if s then - a else a)
  | S754_infinity _ => Raise OverflowError
  | S754_nan => Raise ValueError
  end.

End np.

(** ** Arrays as objects: buffers, copies and views

    [remove_unclassified] updates arrays in place. To see what it does to
    its arguments, the arrays are objects here: a buffer in a heap and a
    shape. [copy] and [flatten] allocate a buffer; [reshape] returns a
    view of the buffer it is given. *)
Module mem.

Definition loc := positive.
Abbreviation heap := (gmap loc (list Z)).

Record array : Type := Array { buf : loc; shape : list nat; dtype : np.dtype }.

Definition M (A : Type) : Type := heap → result (A * heap).

#[global] Instance M_ret : MRet M := λ A a h, Ok (a, h).
#[global] Instance M_bind : MBind M := λ A B f m h,
  match m h with
  | Ok (a, h') => f a h'
  | Raise e => Raise e
  end.

Definition raise {A} (e : exn) : M A := λ _, Raise e.
Definition lift {A} (r : result A) : M A := λ h,
  match r with
  | Ok a => Ok (a, h)
  | Raise e => Raise e
  end.

(** The cells of an array; an array object always refers to an
    allocated buffer. *)
Definition cells (h : heap) (a : array) : list Z := default [] (h !! buf a).

Definition read (a : array) : M (list Z) := λ h, Ok (cells h a, h).
Definition write (a : array) (cs : list Z) : M unit := λ h,
  Ok ((), <[buf a := cs]> h).
Definition alloc (cs : list Z) : M loc := λ h,
  let b := fresh (dom h) in Ok (b, <[b := cs]> h).

(** [a.copy()] *)
Definition copy (a : array) : M array :=
  cs ← read a; b ← alloc cs; mret (Array b (shape a) (dtype a)).

(** [a.flatten()]: always a copy. *)
Definition flatten (a : array) : M array :=
  cs ← read a; b ← alloc cs; mret (Array b [length cs] (dtype a)).

(** [a += k]: in place, in the element type of [a]. *)
Definition iadd (a : array) (k : Z) : M unit :=
  cs ← read a; write a ((λ x, np.wrap (dtype a) (x + k)) <$> cs).

(** [np.argwhere(a == v).flatten()] *)
Definition argwhere_eq (a : array) (v : Z) : M (list nat) :=
  cs ← read a; mret (np.argwhere_eq cs v).

(** [a[idx] = w] *)
Definition setitem_idx (a : array) (idx : list nat) (w : Z) : M unit :=
  cs ← read a; cs' ← lift (np.setitem_idx cs idx w); write a cs'.

(** [a.shape[k]] *)
Definition shape_at (a : array) (k : nat) : M nat := lift (np.getitem (shape a) k).

(** [a.reshape((r, c))]: a view of the same buffer. *)
Definition reshape (a : array) (r c : nat) : M array :=
  cs ← read a;
  if decide (length cs = (r * c)%nat) then mret (Array (buf a) [r; c] (dtype a))
  else raise ValueError.

(** The cell [(i, j)] of a 2-D array object. *)
Definition cell (h : heap) (a : array) (i j : nat) : option Z :=
  match shape a with
  | [r; c] => if decide (i < r ∧ j < c)%nat then cells h a !! (i * c + j)%nat else None
  | _ => None
  end.

End mem.

(** ** [remove_unclassified] *)

Definition remove_unclassified (preds labels : mem.array) : mem.M mem.array :=
  preds_cpy ← mem.copy preds;
  labels_flat ← mem.flatten labels;
  zeros_idx ← mem.argwhere_eq labels_flat 0;
  mem.iadd preds_cpy 1;;
  preds_flatten ← mem.flatten preds_cpy;
  mem.setitem_idx preds_flatten zeros_idx 0;;
  s0 ← mem.shape_at preds 0;
  s1 ← mem.shape_at preds 1;
  mem.reshape preds_flatten s0 s1.

(** ** [copy_without_outlier] and [rebuild_data_with_outliers]

    A position is a pair of indices counted from 0. *)

Definition position : Type := nat * nat.

(** What [outlier_pos] can be: a Python list of lists [[i, j]], a Python
    list of tuples [(i, j)], or an [ndarray] of shape [(n, 2)] (what
    [np.argwhere] returns). [len(outlier_pos)] and [outlier_pos[k]] are
    the same on the three. *)
Inductive positions : Type :=
  | ListOfLists (ps : list position)
  | ListOfTuples (ps : list position)
  | NdArray (ps : list position).

Definition items (outlier_pos : positions) : list position :=
  match outlier_pos with
  | ListOfLists ps | ListOfTuples ps | NdArray ps => ps
  end.

(** [[i, j] in outlier_pos]. On a list Python compares [[i, j]] with each
    item: a list [[a, b]] is equal to it when [a == i] and [b == j], a
    tuple never is. On an [ndarray] it is [(outlier_pos == [i, j]).any()]:
    true as soon as one coordinate of one row matches. *)
Definition contains (outlier_pos : positions) (p : position) : Prop :=
  match outlier_pos with
  | ListOfLists ps => p ∈ ps
  | ListOfTuples _ => False
  | NdArray ps => Exists (λ q, q.1 = p.1 ∨ q.2 = p.2) ps
  end.

#[global] Instance contains_dec O p : Decision (contains O p).
Proof. destruct O; simpl; apply _. Defined.

Definition copy_without_outlier (X : np.ndarray2) (outlier_pos : positions)
  : result (list Z * list position) :=
  for_each (λ st i,
    for_each (λ '(l, X_positions) j,
      if decide (contains outlier_pos (i, j)) then Ok (l, X_positions)
      else
        x ← np.getitem2 X i j;
        Ok (l ++ [x], X_positions ++ [(i, j)]))
      (range (np.shape1 X)) st)
    (range (np.shape0 X)) ([], []).

Definition rebuild_data_with_outliers (uninit : nat → Z)
    (salinas_preds : list Z) (X_positions outlier_pos : list position)
    (target_shape : nat * nat) : result np.ndarray2 :=
  let preds := np.empty2 uninit target_shape.1 target_shape.2 in
  preds ← for_each (λ preds i,
             pos ← np.getitem X_positions i;
             v ← np.getitem salinas_preds i;
             np.setitem2 preds pos.1 pos.2 (np.float64 v))
           (range (length salinas_preds)) preds;
  for_each (λ preds j,
      pos ← np.getitem outlier_pos j;
      np.setitem2 preds pos.1 pos.2 0)
    (range (length outlier_pos)) preds.

(** [rebuild_data_with_outliers] applied to the two results of
    [copy_without_outlier(X, O)], to [O] and to [X.shape]. *)
Definition exclude_then_rebuild (uninit : nat → Z) (X : np.ndarray2)
    (O : positions) : result np.ndarray2 :=
  '(l, X_positions) ← copy_without_outlier X O;
  rebuild_data_with_outliers uninit l X_positions (items O)
    (np.shape0 X, np.shape1 X).

(** ** [compute_labels_correspondence] *)

(** The variables that the loop updates. *)
Record loop_state : Type := LoopState {
  res_labels : list Z;
  res_preds : list Z;
  j : nat
}.

Section correspondence.
(** What the loop reads: the flattened inputs, their distinct values
    with the argsort of the counts, and [offset]. *)
Variables (labels_flat preds_flat : list Z).
Variables (l2 : list Z) (c2 : list nat) (l : list Z) (c : list nat).
Variable offset : Z.

Definition loop_body (st : loop_state) (i : nat) : result loop_state :=
  st1 ← (if decide (Z.of_nat i ∈ l) then
           cj ← np.getitem c (j st);
           v ← np.getitem l cj;
           rp ← np.setitem_idx (res_preds st) (np.argwhere_eq preds_flat v)
                 (Z.of_nat (j st) + offset + 1);
           Ok (LoopState (res_labels st) rp (S (j st)))
         else Ok st);
  ci ← np.getitem c2 i;
  v2 ← np.getitem l2 ci;
  rl ← np.setitem_idx (res_labels st1) (np.argwhere_eq labels_flat v2)
        (Z.of_nat i + 1);
  Ok (LoopState rl (res_preds st1) (j st1)).
End correspondence.

Definition compute_labels_correspondence (argsort : list nat → list nat)
    (labels preds : np.ndarray2) (n_cluster : nat)
  : result (np.ndarray2 * np.ndarray2) :=
  let '(l2, c2) := np.unique (np.flatten labels) in
  let c2 := argsort c2 in
  let '(l, c) := np.unique (np.flatten preds) in
  let c := argsort c in
  let res_labels0 := np.flatten labels in
  let res_preds0 := np.flatten preds in
  let offset := Z.of_nat (length l2) - Z.of_nat (length l) in
  st ← for_each (loop_body (np.flatten labels) (np.flatten preds) l2 c2 l c offset)
         (range n_cluster) (LoopState res_labels0 res_preds0 0);
  let zeros_idx := np.argwhere_eq (np.flatten labels) 0 in
  rp ← np.setitem_idx (res_preds st) zeros_idx 0;
  rp2 ← np.reshape rp (np.shape0 preds) (np.shape1 preds);
  rl2 ← np.reshape (res_labels st) (np.shape0 labels) (np.shape1 labels);
  Ok (rl2, rp2).

(** ** [split_x_train_test]

    [count] is indexed by the class id and holds occurrence counts;
    [labels] lists the class ids; [labels_argsort] holds row indices of
    [X_shuffle]. The class-id arrays [y_train] and [y_test] hold class
    ids. *)

(** [int(count[cluster] * train_split)]: the [float64] product of the
    count and the fraction, rounded as IEEE 754 rounds it, then truncated
    towards zero. *)
Definition int_of_product (cnt : nat) (train_split : float) : result Z :=
  np.int_of_float (PrimFloat.mul (np.float_of_count cnt) train_split).

Record split_state : Type := SplitState {
  sum_ : Z;
  x_train : np.ndarray;
  x_test : np.ndarray;
  y_train : list nat;
  y_test : list nat
}.

Definition split_body (X_shuffle : np.ndarray2) (count : list nat)
    (labels_argsort : list nat) (train_split : float)
    (st : split_state) (cluster : nat) : result split_state :=
  cnt ← np.getitem count cluster;
  idx ← int_of_product cnt train_split;
  rows ← np.take_rows X_shuffle (np.slice labels_argsort (sum_ st) (sum_ st + idx));
  x_train' ← np.vstack (x_train st) rows;
  rows ← np.take_rows X_shuffle
            (np.slice labels_argsort (sum_ st + idx) (sum_ st + Z.of_nat cnt));
  x_test' ← np.vstack (x_test st) rows;
  ys ← np.full idx cluster;
  let y_train' := y_train st ++ ys in
  ys ← np.full (Z.of_nat cnt - idx) cluster;
  let y_test' := y_test st ++ ys in
  Ok (SplitState (sum_ st + Z.of_nat cnt) x_train' x_test' y_train' y_test').

Definition split_x_train_test (uninit : nat → Z) (X_shuffle : np.ndarray2)
    (count : list nat) (labels : list nat) (labels_argsort : list nat)
    (size : np.size_arg) (train_split : float)
  : result (np.ndarray * np.ndarray * list nat * list nat) :=
  st ← for_each (split_body X_shuffle count labels_argsort train_split) labels
         (SplitState 0 (np.empty uninit size) (np.empty uninit size) [] []);
  Ok (x_train st, x_test st, y_train st, y_test st).

(** The default value of [train_split]. *)
Definition default_train_split : float := 0.75%float.

(** ** [calculate_mean_score] *)

(** The model: anything with a [score(X, y)] method. Scores are rationals;
    the rounding of floating-point sums is not modelled. *)
Class Scorer (Model : Type) : Type :=
  score : Model → np.ndarray2 → list Z → Q.

Definition calculate_mean_score `{Scorer Model} (labels : list Z)
    (x_labels : np.ndarray2) (y_labels : list Z) (model : Model) : result Q :=
  mean_score ← for_each (λ mean_score cluster,
      let idxs := np.argwhere_eq y_labels cluster in
      xs ← np.take_rows x_labels idxs;
      ys ← np.take_idx y_labels idxs;
      Ok (mean_score + score model xs ys)%Q)
    labels 0%Q;
  if decide (length labels = 0%nat) then Raise ZeroDivisionError
  else Ok (mean_score / inject_Z (Z.of_nat (length labels)))%Q.

(** ** Reference functions of the properties *)

(** [a[src == v] = w], cell by cell: what an assignment through
    [np.argwhere(src == v)] amounts to. *)
Definition assign_where (src : list Z) (v w : Z) (a : list Z) : list Z :=
  zip_with (λ s x, if decide (s = v) then w else x) src a.

(** The values [vals], listed in the order of the index array [order]. *)
Definition ranked (vals : list Z) (order : list nat) : list Z :=
  (λ k, vals !!! k) <$> order.

(** The distinct values of [a] by increasing population: what
    [l[c[0]], l[c[1]], ...] are after [l, c = np.unique(a, ...)] and
    [c = c.argsort()]. *)
Definition ranked_classes (argsort : list nat → list nat) (a : list Z)
  : list Z :=
  ranked (np.unique a).1 (argsort (np.unique a).2).

(** The canonical id of the raw value [v] once the values [rk] have been
    renumbered, in this order, from [base + 1] on; another value is left as
    it is. *)
Definition canon (rk : list Z) (base : Z) (v : Z) : Z :=
  match list_find (λ x, x = v) rk with
  | Some (k, _) => Z.of_nat k + base + 1
  | None => v
  end.

(** How many of [0 .. n-1] occur among the values [l]. *)
Definition matched (l : list Z) (n : nat) : nat :=
  length (filter (λ i : nat, Z.of_nat i ∈ l) (seq 0 n)).

(** The loop of [compute_labels_correspondence] on the flattened inputs,
    and the state it reaches after [n] iterations. *)
Definition resolver_offset (L P : list Z) : Z :=
  Z.of_nat (length (np.unique L).1) - Z.of_nat (length (np.unique P).1).

Definition resolver_loop (argsort : list nat → list nat) (L P : list Z)
    (n : nat) : result loop_state :=
  for_each
    (loop_body L P (np.unique L).1 (argsort (np.unique L).2)
       (np.unique P).1 (argsort (np.unique P).2) (resolver_offset L P))
    (range n) (LoopState L P 0).

Definition resolver_state (argsort : list nat → list nat) (L P : list Z)
    (n : nat) : loop_state :=
  let m := matched (np.unique P).1 n in
  LoopState (canon (take n (ranked_classes argsort L)) 0 <$> L)
            (canon (take m (ranked_classes argsort P)) (resolver_offset L P) <$> P)
            m.

(** Two grids of the same shape, each with as many cells as its shape
    says. *)
Definition same_shape (a b : np.ndarray2) : Prop :=
  np.wf a ∧ np.wf b ∧ np.shape0 a = np.shape0 b ∧ np.shape1 a = np.shape1 b.

(** The number of distinct values of a grid. *)
Definition n_distinct (a : np.ndarray2) : nat :=
  length (np.unique (np.flatten a)).1.

(** "The class with the smallest population in [labels] receives canonical
    id 1": the call returns, and every cell of a class that is less
    populated than every other class holds 1 in [res_labels]. *)
Definition smallest_class_gets_1 (argsort : list nat → list nat)
    (labels preds : np.ndarray2) (n_cluster : nat) : Prop :=
  ∃ rl rp,
    compute_labels_correspondence argsort labels preds n_cluster = Ok (rl, rp) ∧
    ∀ v, v ∈ np.flatten labels →
      (∀ w, w ∈ np.flatten labels → w ≠ v →
         (np.count (np.flatten labels) v < np.count (np.flatten labels) w)%nat) →
      ∀ p, np.flatten labels !! p = Some v → np.flatten rl !! p = Some 1.

(** "Ties in population are broken by original position": the call
    returns, and of two classes with the same population the one that
    comes first among the distinct values receives the smaller id. *)
Definition ties_by_position (argsort : list nat → list nat)
    (labels preds : np.ndarray2) (n_cluster : nat) : Prop :=
  ∃ rl rp,
    compute_labels_correspondence argsort labels preds n_cluster = Ok (rl, rp) ∧
    ∀ p q v w a b,
      np.flatten labels !! p = Some v → np.flatten labels !! q = Some w →
      v < w →
      np.count (np.flatten labels) v = np.count (np.flatten labels) w →
      np.flatten rl !! p = Some a → np.flatten rl !! q = Some b → a < b.

(** "[res_preds] is 0 exactly where [labels == 0]". *)
Definition zero_exactly_where_unclassified (argsort : list nat → list nat)
    (labels preds : np.ndarray2) (n_cluster : nat) : Prop :=
  ∃ rl rp,
    compute_labels_correspondence argsort labels preds n_cluster = Ok (rl, rp) ∧
    ∀ p, np.flatten rp !! p = Some 0 ↔ np.flatten labels !! p = Some 0.

(** A position inside a grid of [r] rows and [c] columns. *)
Definition inside (r c : nat) (p : position) : Prop := (p.1 < r ∧ p.2 < c)%nat.

#[global] Instance inside_dec r c p : Decision (inside r c p).
Proof. unfold inside. apply _. Defined.

(** The positions of a grid in row-major order, and the ones that
    [copy_without_outlier] keeps. *)
Definition all_positions (r c : nat) : list position :=
  range r ≫= λ i, pair i <$> range c.

Definition kept_positions (X : np.ndarray2) (O : positions) : list position :=
  filter (λ p, ¬ contains O p) (all_positions (np.shape0 X) (np.shape1 X)).

(** "The rebuilt grid equals [X] at every non-outlier position and 0 at
    every outlier position". *)
Definition roundtrip (uninit : nat → Z) (X : np.ndarray2) (O : positions)
  : Prop :=
  ∃ g, exclude_then_rebuild uninit X O = Ok g ∧
    ∀ i j, (i < np.shape0 X)%nat → (j < np.shape1 X)%nat →
      np.getitem2 g i j
      = if decide ((i, j) ∈ items O) then Ok 0 else np.getitem2 X i j.

(** The value of a grid at a position inside it. *)
Definition cell_at (X : np.ndarray2) (p : position) : Z :=
  np.data X !!! (p.1 * np.shape1 X + p.2)%nat.

(** One write [g[pos[0], pos[1]] = v]. *)
Definition write_cell (g : np.ndarray2) (w : position * Z) : result np.ndarray2 :=
  np.setitem2 g w.1.1 w.1.2 w.2.

(** A grid of [r] rows and [c] columns with all its cells. *)
Definition grid_of (r c : nat) (g : np.ndarray2) : Prop :=
  np.shape0 g = r ∧ np.shape1 g = c ∧ length (np.data g) = (r * c)%nat.

(** A heap with predictions at buffer 1 and labels at buffer 2. *)
Definition ex_heap : gmap mem.loc (list Z) :=
  <[1%positive := [2; 2; 0; 0; 1; 1]]> (<[2%positive := [0; 1; 1; 2; 2; 2]]> ∅).

(** The same, with the prediction 255 at a labelled cell. *)
Definition ex_heap_255 : gmap mem.loc (list Z) :=
  <[1%positive := [2; 255; 0; 0; 1; 1]]> (<[2%positive := [0; 1; 1; 2; 2; 2]]> ∅).

(** "The output has value 0 at every position where [labels == 0], and
    at every other position the input prediction plus 1". *)
Definition masks_and_increments (h : gmap mem.loc (list Z))
    (preds labels : mem.array) : Prop :=
  ∃ out h', remove_unclassified preds labels h = Ok (out, h') ∧
    ∀ i j s x, mem.cell h labels i j = Some s → mem.cell h preds i j = Some x →
      mem.cell h' out i j = Some (if decide (s = 0) then 0 else x + 1).

(** The split, class by class. [floor(count * train_fraction)], in the
    words of the specification, of the [float64] product: *)
Definition train_count (cnt : nat) (train_split : float) : nat :=
  match int_of_product cnt train_split with
  | Ok idx => Z.to_nat idx
  | Raise _ => 0%nat
  end.

(** [floor(count * train_fraction)] of the product that is not rounded:
    the fraction is the number [m * 2^e] that the [float] stands for. *)
Definition floor_of_product (cnt : nat) (train_split : float) : Z :=
  match Prim2SF train_split with
  | S754_finite s m e =>
      let n := Z.of_nat cnt * (if s then Z.neg m else Z.pos m) in
      if 0 <=? e then n * 2 ^ e else n / 2 ^ (- e)
  | _ => 0
  end.

(** The fractions 0.6 and 0.7 as [float64]. *)
Definition fraction_0_6 : float := 0x1.3333333333333p-1%float.
Definition fraction_0_7 : float := 0x1.6666666666666p-1%float.

(** The fraction fits a class of [cnt] samples: [int(cnt * train_split)]
    is a number between 0 and [cnt]. *)
Definition fraction_fits (cnt : nat) (train_split : float) : Prop :=
  match int_of_product cnt train_split with
  | Ok idx => 0 ≤ idx ≤ Z.of_nat cnt
  | Raise _ => False
  end.

#[global] Instance fraction_fits_dec cnt ts : Decision (fraction_fits cnt ts).
Proof. unfold fraction_fits. destruct (int_of_product cnt ts); apply _. Defined.

(** The block of a class: the [cnt] entries of [labels_argsort] from
    position [s] on (fewer when the array ends before). *)
Definition class_block (labels_argsort : list nat) (s cnt : nat) : list nat :=
  take cnt (drop s labels_argsort).

(** The cells of the rows [idx] of [X], one row after the other. *)
Definition rows_data (X : np.ndarray2) (idx : list nat) : list Z :=
  concat (np.row X <$> idx).

(** [np.vstack((a, X[idx]))], when it succeeds. *)
Definition stack (X : np.ndarray2) (a : np.ndarray) (idx : list nat) : np.ndarray :=
  np.A2 (np.Array2 (np.shape0 (np.atleast_2d a) + length idx) (np.shape1 X)
           (np.data (np.atleast_2d a) ++ rows_data X idx)).

(** The state after one iteration that raises nothing. *)
Definition split_step (X_shuffle : np.ndarray2) (count labels_argsort : list nat)
    (train_split : float) (st : split_state) (cluster : nat) : split_state :=
  let cnt := count !!! cluster in
  let k := train_count cnt train_split in
  let block := class_block labels_argsort (Z.to_nat (sum_ st)) cnt in
  SplitState (sum_ st + Z.of_nat cnt)
    (stack X_shuffle (x_train st) (take k block))
    (stack X_shuffle (x_test st) (drop k block))
    (y_train st ++ replicate k cluster)
    (y_test st ++ replicate (cnt - k) cluster).

(** The state between two iterations: [sum_] is not negative and both
    feature arrays have the width of [X_shuffle]. *)
Definition split_ready (X : np.ndarray2) (st : split_state) : Prop :=
  0 ≤ sum_ st ∧
  np.shape1 (np.atleast_2d (x_train st)) = np.shape1 X ∧
  np.shape1 (np.atleast_2d (x_test st)) = np.shape1 X.

(** The rows (as indices into [X_shuffle]) that go to train and to test:
    of the block of each class, the first [floor(count * train_fraction)]
    entries and the remaining ones. *)
Fixpoint train_indices (count labels_argsort : list nat) (train_split : float)
    (labels : list nat) (s : nat) : list nat :=
  match labels with
  | [] => []
  | cluster :: labels' =>
      let cnt := count !!! cluster in
      take (train_count cnt train_split) (class_block labels_argsort s cnt)
      ++ train_indices count labels_argsort train_split labels' (s + cnt)
  end.

Fixpoint test_indices (count labels_argsort : list nat) (train_split : float)
    (labels : list nat) (s : nat) : list nat :=
  match labels with
  | [] => []
  | cluster :: labels' =>
      let cnt := count !!! cluster in
      drop (train_count cnt train_split) (class_block labels_argsort s cnt)
      ++ test_indices count labels_argsort train_split labels' (s + cnt)
  end.

(** The seed with the rows [idx] of [X] stacked on it, if the loop ran. *)
Definition stacked (X : np.ndarray2) (seed : np.ndarray) (labels idx : list nat)
  : np.ndarray :=
  match labels with
  | [] => seed
  | _ :: _ => stack X seed idx
  end.

(** The sum of the counts of the classes of [labels]. *)
Definition total_count (count labels : list nat) : nat :=
  sum_list_with (λ cluster, count !!! cluster) labels.

(** The rows that the seed [np.empty(size)] contributes to a stacked
    array: those of its 2-D form, once something has been stacked on it. *)
Definition seed_rows (seed : np.ndarray) (labels : list nat) : nat :=
  match labels with
  | [] => np.len seed
  | _ :: _ => np.shape0 (np.atleast_2d seed)
  end.

(** The number of columns that [np.empty(size)] has in its 2-D form. *)
Definition size_width (size : np.size_arg) : nat :=
  match size with
  | np.SizeInt d => d
  | np.SizeShape _ d => d
  end.

(** What a call of [split_x_train_test] may be given: every class has a
    count, [labels_argsort] indexes rows of [X_shuffle], the seed has the
    width of [X_shuffle], and the fraction fits every class (as a fraction
    between 0 and 1 does). *)
Definition split_inputs (X_shuffle : np.ndarray2) (count labels labels_argsort : list nat)
    (size : np.size_arg) (train_split : float) : Prop :=
  Forall (λ cluster, cluster < length count)%nat labels ∧
  Forall (λ i, i < np.shape0 X_shuffle)%nat labels_argsort ∧
  size_width size = np.shape1 X_shuffle ∧
  Forall (λ cluster, fraction_fits (count !!! cluster) train_split) labels.

#[global] Instance split_inputs_dec X count labels A size ts :
  Decision (split_inputs X count labels A size ts).
Proof.
  unfold split_inputs. apply _.
Defined.

(** "The train and test feature arrays together contain exactly N rows". *)
Definition split_complete (uninit : nat → Z) (X_shuffle : np.ndarray2)
    (count labels labels_argsort : list nat) (size : np.size_arg)
    (train_split : float) : Prop :=
  ∃ xtr xte ytr yte,
    split_x_train_test uninit X_shuffle count labels labels_argsort size train_split
    = Ok (xtr, xte, ytr, yte) ∧
    (np.len xtr + np.len xte = length labels_argsort)%nat.

(** "The split fails when the counts do not sum to the length of the
    array being split". *)
Definition size_mismatch_raises (uninit : nat → Z) (X_shuffle : np.ndarray2)
    (count labels labels_argsort : list nat) (size : np.size_arg)
    (train_split : float) : Prop :=
  total_count count labels ≠ length labels_argsort →
  ∃ e, split_x_train_test uninit X_shuffle count labels labels_argsort size train_split
       = Raise e.

(** The score of one class: the scorer on the samples of that class. *)
Definition class_score `{Scorer Model} (model : Model) (x_labels : np.ndarray2)
    (y_labels : list Z) (cluster : Z) : Q :=
  let idxs := np.argwhere_eq y_labels cluster in
  score model
    (np.Array2 (length idxs) (np.shape1 x_labels) (rows_data x_labels idxs))
    ((λ i, y_labels !!! i) <$> idxs).

(** [(s1 + ... + sk) / k] *)
Definition arithmetic_mean (scores : list Q) : Q :=
  (foldr Qplus 0 scores / inject_Z (Z.of_nat (length scores)))%Q.

(** A scorer for the examples: the number of samples it is given. *)
Definition sample_count_scorer : Scorer unit :=
  λ _ _ ys, inject_Z (Z.of_nat (length ys)).

Definition ex_X : np.ndarray2 := np.of_rows [[1; 2]; [3; 4]; [5; 6]; [7; 8]].

Definition ex_labels : np.ndarray2 := np.of_rows [[0; 1; 1]; [2; 2; 2]].
Definition ex_preds : np.ndarray2 := np.of_rows [[2; 2; 0]; [0; 1; 1]].

(** ** The other functions of [tools.py] *)

(** [mask[idx] = w] on a boolean array. *)
Fixpoint setitem_idx_bool (mask : list bool) (idx : list nat) (w : bool)
  : result (list bool) :=
  match idx with
  | [] => Ok mask
  | i :: idx' =>
      if decide (i < length mask)%nat then setitem_idx_bool (<[i := w]> mask) idx' w
      else Raise IndexError
  end.

(** The items of [a] at which [mask] is [True]. *)
Fixpoint masked {A} (a : list A) (mask : list bool) : list A :=
  match a, mask with
  | x :: a', b :: mask' => if b then x :: masked a' mask' else masked a' mask'
  | _, _ => []
  end.

(** [a[mask]] with a boolean array [mask]: it must be as long as the
    first axis of [a]. *)
Definition getitem_mask {A} (a : list A) (mask : list bool) : result (list A) :=
  if decide (length mask = length a) then Ok (masked a mask)
  else Raise IndexError.

Definition getitem_mask_rows (a : np.ndarray2) (mask : list bool)
  : result np.ndarray2 :=
  if decide (length mask = np.shape0 a)
  then
    let idx := masked (seq 0 (np.shape0 a)) mask in
    Ok (np.Array2 (length idx) (np.shape1 a) (concat (np.row a <$> idx)))
  else Raise IndexError.

(** [remove_unclassified_input]: [X] has one row for each cell of
    [labels]. *)
Definition remove_unclassified_input (X labels : np.ndarray2)
  : result (np.ndarray2 * list nat) :=
  let X_cpy := X in
  let idx := np.argwhere_eq (np.flatten labels) 0 in
  let mask := replicate (length (np.flatten labels)) true in
  mask ← setitem_idx_bool mask idx false;
  let arr := seq 0 (length (np.data labels)) in
  new_X ← getitem_mask_rows X_cpy mask;
  arr_idx ← getitem_mask arr mask;
  Ok (new_X, arr_idx).

(** [get_label]: [np.where(labels == x, labels, 0)]. *)
Definition get_label (labels : np.ndarray2) (x : Z) : np.ndarray2 :=
  np.Array2 (np.shape0 labels) (np.shape1 labels)
    ((λ v, if decide (v = x) then v else 0) <$> np.data labels).

(** [a[idx] = vals] with an index array [idx] and as many values. *)
Definition setitem_vals {A} (a : list A) (idx : list nat) (vals : list A)
  : result (list A) :=
  if decide (length vals = length idx)
  then for_each (λ a '(i, v),
         if decide (i < length a)%nat then Ok (<[i := v]> a) else Raise IndexError)
       (zip idx vals) a
  else Raise ValueError.

(** [shuffle]. [X] is seen along its first axis, as the list of its rows;
    [labels] is a 1-D array. [np.random.shuffle] is the parameter
    [random_shuffle]: the order in which it leaves the array it is given. *)
Definition shuffle (random_shuffle : list nat → list nat)
    (X : list (list Z)) (labels : list Z)
  : result (list (list Z) * list Z * list nat) :=
  let X_cpy := X in
  let labels_cpy := labels in
  let arr_idx := random_shuffle (seq 0 (length labels)) in
  let arr_arange := seq 0 (length labels) in
  rows ← np.take_idx X_cpy arr_idx;
  X_cpy ← setitem_vals X_cpy arr_arange rows;
  vals ← np.take_idx labels_cpy arr_idx;
  labels_cpy ← setitem_vals labels_cpy arr_arange vals;
  Ok (X_cpy, labels_cpy, arr_idx).

(** ** Reference functions of the further properties *)

(** The value that a cell holding [d] holds after the writes [ws]: that of
    the last write to its position, if there is one. *)
Fixpoint written (ws : list (position * Z)) (p : position) (d : Z) : Z :=
  match ws with
  | [] => d
  | w :: ws' => written ws' p (if decide (p = w.1) then w.2 else d)
  end.

(** Row-major order of positions. *)
Definition pos_lt (p q : position) : Prop :=
  (p.1 < q.1 ∨ (p.1 = q.1 ∧ p.2 < q.2))%nat.

(** The grouping that [split_x_train_test] expects of its caller: with
    [y] the class of each row of [X_shuffle], the block of every class
    holds rows of that class only. *)
Fixpoint grouped (y : list nat) (count labels_argsort : list nat)
    (labels : list nat) (s : nat) : Prop :=
  match labels with
  | [] => True
  | cluster :: labels' =>
      Forall (λ i, y !! i = Some cluster)
        (class_block labels_argsort s (count !!! cluster)) ∧
      grouped y count labels_argsort labels' (s + count !!! cluster)
  end.

(** What [rebuild_data_with_outliers] needs of its arguments: a position
    for every sample, and the positions it writes inside the target
    shape. *)
Definition rebuild_fits (salinas_preds : list Z)
    (X_positions outlier_pos : list position) (target_shape : nat * nat) : Prop :=
  (length salinas_preds ≤ length X_positions)%nat ∧
  Forall (inside target_shape.1 target_shape.2)
    (take (length salinas_preds) X_positions) ∧
  Forall (inside target_shape.1 target_shape.2) outlier_pos.

(** * Properties *)

(** ** The [result] monad and [for_each] *)

Lemma bind_Ok {A B} (m : result A) (f : A → result B) (b : B) :
  m ≫= f = Ok b ↔ ∃ a, m = Ok a ∧ f a = Ok b.
Proof.
  destruct m as [a|e]; simpl; split.
  - intros Hf. exists a. auto.
  - intros (a' & Ha & Hf). congruence.
  - discriminate.
  - intros (a' & Ha & _). discriminate.
Qed.

Lemma for_each_app {S X} (body : S → X → result S) (xs ys : list X) (s : S) :
  for_each body (xs ++ ys) s = for_each body xs s ≫= for_each body ys.
Proof.
  revert s. induction xs as [|x xs IH]; intros s; simpl; [done|].
  destruct (body s x) as [s'|e]; simpl; [apply IH | done].
Qed.

Lemma for_each_snoc {S X} (body : S → X → result S) (xs : list X) (x : X) (s : S) :
  for_each body (xs ++ [x]) s = for_each body xs s ≫= λ s', body s' x.
Proof.
  rewrite for_each_app. destruct (for_each body xs s) as [s'|e]; simpl; [|done].
  by destruct (body s' x).
Qed.

Lemma range_S (n : nat) : range (S n) = range n ++ [n].
Proof. unfold range. by rewrite seq_S. Qed.

Lemma range_add (n k : nat) : range (n + k) = range n ++ seq n k.
Proof. unfold range. by rewrite seq_app. Qed.

(** ** Assignment through an index array *)

Lemma reshape_Ok (a : list Z) (r c : nat) :
  length a = (r * c)%nat → np.reshape a r c = Ok (np.Array2 r c a).
Proof. intros Hlen. unfold np.reshape. by rewrite decide_True. Qed.

Lemma getitem_ge {A} (a : list A) (i : nat) :
  (length a ≤ i)%nat → np.getitem a i = Raise IndexError.
Proof. intros Hi. unfold np.getitem. by rewrite (proj2 (lookup_ge_None _ _)). Qed.

Lemma getitem_Ok {A} (a : list A) (i : nat) (x : A) :
  np.getitem a i = Ok x ↔ a !! i = Some x.
Proof.
  unfold np.getitem. destruct (a !! i); split; intros Hx; congruence.
Qed.

Lemma setitem_idx_Ok (a : list Z) (idx : list nat) (w : Z) :
  Forall (λ i, i < length a)%nat idx →
  ∃ a', np.setitem_idx a idx w = Ok a' ∧ length a' = length a ∧
        ∀ k x, a !! k = Some x →
               a' !! k = Some (if decide (k ∈ idx) then w else x).
Proof.
  revert a. induction idx as [|i idx IH]; intros a Hidx; simpl.
  - exists a. split_and!; [done..|]. intros k x Hk.
    destruct (decide (k ∈ [])) as [Hin|_]; [|done].
    by apply not_elem_of_nil in Hin.
  - apply Forall_cons in Hidx as [Hi Hidx].
    rewrite decide_True by done.
    destruct (IH (<[i:=w]> a)) as (a' & Ha' & Hlen & Hget).
    { by rewrite length_insert. }
    exists a'. split_and!; [done|by rewrite Hlen, length_insert|].
    intros k x Hk. destruct (decide (k = i)) as [->|Hne].
    + rewrite (Hget i w) by (by apply list_lookup_insert_eq).
      rewrite (decide_True (P := i ∈ i :: idx)) by apply list_elem_of_here.
      by destruct (decide (i ∈ idx)).
    + rewrite (Hget k x) by (by rewrite list_lookup_insert_ne).
      destruct (decide (k ∈ idx)) as [Hin|Hnin].
      * rewrite decide_True; [done|]. by apply list_elem_of_further.
      * rewrite decide_False; [done|]. rewrite elem_of_cons. tauto.
Qed.

Lemma elem_of_argwhere_eq (a : list Z) (v : Z) (k : nat) :
  k ∈ np.argwhere_eq a v ↔ a !! k = Some v.
Proof.
  unfold np.argwhere_eq. rewrite list_elem_of_filter, elem_of_seq.
  split; [tauto|]. intros Hk. split; [done|].
  apply lookup_lt_Some in Hk. lia.
Qed.

Lemma argwhere_eq_lt (a : list Z) (v : Z) :
  Forall (λ i, i < length a)%nat (np.argwhere_eq a v).
Proof.
  apply Forall_forall. intros k Hk. apply elem_of_argwhere_eq in Hk.
  by apply lookup_lt_Some in Hk.
Qed.

Lemma length_assign_where (src : list Z) (v w : Z) (a : list Z) :
  length a = length src → length (assign_where src v w a) = length a.
Proof. intros Hlen. unfold assign_where. rewrite length_zip_with. lia. Qed.

Lemma lookup_assign_where (src : list Z) (v w : Z) (a : list Z) (k : nat) (s x : Z) :
  src !! k = Some s → a !! k = Some x →
  assign_where src v w a !! k = Some (if decide (s = v) then w else x).
Proof.
  intros Hs Hx. unfold assign_where. rewrite lookup_zip_with, Hs. simpl.
  by rewrite Hx.
Qed.

(** [a[np.argwhere(src == v).flatten()] = w] never fails on an array as
    long as [src], and is the cell-by-cell assignment. *)
Lemma setitem_idx_argwhere (src : list Z) (v w : Z) (a : list Z) :
  length a = length src →
  np.setitem_idx a (np.argwhere_eq src v) w = Ok (assign_where src v w a).
Proof.
  intros Hlen.
  destruct (setitem_idx_Ok a (np.argwhere_eq src v) w) as (a' & -> & Hlen' & Hget).
  { rewrite Hlen. apply argwhere_eq_lt. }
  f_equal. apply list_eq. intros k.
  destruct (a !! k) as [x|] eqn:Hx.
  - destruct (src !! k) as [s|] eqn:Hs.
    2:{ apply lookup_ge_None in Hs. apply lookup_lt_Some in Hx. lia. }
    rewrite (Hget k x Hx), (lookup_assign_where _ _ _ _ _ s x) by done.
    f_equal. destruct (decide (s = v)) as [->|Hne].
    + rewrite decide_True; [done|]. by apply elem_of_argwhere_eq.
    + rewrite decide_False; [done|]. rewrite elem_of_argwhere_eq. congruence.
  - apply lookup_ge_None in Hx.
    rewrite (proj2 (lookup_ge_None _ _)) by lia.
    symmetry. apply lookup_ge_None. rewrite length_assign_where; lia.
Qed.

(** ** [np.unique] and [argsort] *)

Lemma StronglySorted_lookup_lt {A} (R : relation A) (l : list A) (a b : nat) (x y : A) :
  StronglySorted R l → l !! a = Some x → l !! b = Some y → (a < b)%nat → R x y.
Proof.
  intros Hs. revert a b. induction Hs as [|z l Hs IH Hall]; intros a b Ha Hb Hab.
  - by rewrite lookup_nil in Ha.
  - destruct b as [|b]; [lia|]. simpl in Hb. destruct a as [|a]; simpl in Ha.
    + injection Ha as ->. rewrite Forall_forall in Hall. apply Hall.
      by apply list_elem_of_lookup_2 in Hb.
    + apply (IH a b); [done..|lia].
Qed.

Lemma unique_values_Permutation (a : list Z) :
  np.unique_values a ≡ₚ remove_dups a.
Proof. apply merge_sort_Permutation. Qed.

Lemma NoDup_unique_values (a : list Z) : NoDup (np.unique_values a).
Proof. rewrite unique_values_Permutation. apply NoDup_remove_dups. Qed.

Lemma elem_of_unique_values (a : list Z) (v : Z) :
  v ∈ np.unique_values a ↔ v ∈ a.
Proof. rewrite unique_values_Permutation. apply elem_of_remove_dups. Qed.

Lemma unique_values_increasing (a : list Z) (i k : nat) (x y : Z) :
  np.unique_values a !! i = Some x → np.unique_values a !! k = Some y →
  (i < k)%nat → x < y.
Proof.
  intros Hi Hk Hik.
  assert (x ≤ y) as Hle.
  { eapply (StronglySorted_lookup_lt Z.le); [|done..].
    apply (StronglySorted_merge_sort Z.le). }
  assert (x ≠ y); [|lia]. intros ->.
  pose proof (NoDup_lookup _ _ _ _ (NoDup_unique_values a) Hi Hk). lia.
Qed.

Lemma length_unique (a : list Z) :
  length (np.unique a).2 = length (np.unique a).1.
Proof. unfold np.unique. simpl. by rewrite length_fmap. Qed.

Lemma lookup_unique_counts (a : list Z) (i : nat) (v : Z) :
  (np.unique a).1 !! i = Some v → (np.unique a).2 !! i = Some (np.count a v).
Proof. unfold np.unique. simpl. intros Hv. by rewrite list_lookup_fmap, Hv. Qed.

Lemma key_le_total : Total np.key_le.
Proof. intros [x i] [y k]. unfold np.key_le. simpl. lia. Qed.

Lemma key_le_trans : Transitive np.key_le.
Proof. intros [x i] [y k] [z m]. unfold np.key_le. simpl. lia. Qed.

Lemma key_le_rev_total : Total np.key_le_rev.
Proof. intros [x i] [y k]. unfold np.key_le_rev. simpl. lia. Qed.

Lemma key_le_rev_trans : Transitive np.key_le_rev.
Proof. intros [x i] [y k] [z m]. unfold np.key_le_rev. simpl. lia. Qed.

Lemma elem_of_zip_seq {A} (c : list A) (x : A) (i : nat) :
  (x, i) ∈ zip c (seq 0 (length c)) → c !! i = Some x.
Proof.
  intros Hin. apply list_elem_of_lookup_1 in Hin as [p Hp].
  apply lookup_zip_with_Some in Hp as (x' & i' & [= <- <-] & Hx & Hi).
  apply lookup_seq in Hi as [-> _]. done.
Qed.

(** Sorting the pairs (key, index) by an order that follows the keys is
    an [argsort], however it orders equal keys. *)
Lemma argsort_by_is_argsort (R : relation (nat * nat)) `{!RelDecision R} :
  Total R → Transitive R → (∀ p q, R p q → (p.1 ≤ q.1)%nat) →
  np.is_argsort (np.argsort_by R).
Proof.
  intros Htot Htrans Hkey c. unfold np.argsort_by. split.
  - rewrite merge_sort_Permutation, snd_zip; [done|]. by rewrite length_seq.
  - set (S := merge_sort R (zip c (seq 0 (length c)))).
    assert ((λ i, c !!! i) <$> S.*2 = S.*1) as ->.
    { rewrite <-list_fmap_compose. apply list_fmap_ext.
      intros k [x i] Hk. simpl. apply list_lookup_total_correct.
      apply elem_of_zip_seq. rewrite <-(merge_sort_Permutation R).
      by apply list_elem_of_lookup_2 in Hk. }
    apply (StronglySorted_fmap _ R); [by apply Hkey|].
    by apply StronglySorted_merge_sort.
Qed.

Lemma argsort_stable_ok : np.is_argsort np.argsort_stable.
Proof.
  apply argsort_by_is_argsort; [apply key_le_total|apply key_le_trans|].
  intros [x i] [y k]. unfold np.key_le. simpl. lia.
Qed.

Lemma argsort_last_first_ok : np.is_argsort np.argsort_last_first.
Proof.
  apply argsort_by_is_argsort; [apply key_le_rev_total|apply key_le_rev_trans|].
  intros [x i] [y k]. unfold np.key_le_rev. simpl. lia.
Qed.

Section ranking.
(** Whatever [argsort] the resolver is run with. *)
Variable argsort : list nat → list nat.
Hypothesis argsort_ok : np.is_argsort argsort.

Lemma argsort_Permutation (c : list nat) :
  argsort c ≡ₚ seq 0 (length c).
Proof. apply argsort_ok. Qed.

Lemma length_argsort (c : list nat) : length (argsort c) = length c.
Proof. by rewrite argsort_Permutation, length_seq. Qed.

Lemma NoDup_argsort (c : list nat) : NoDup (argsort c).
Proof. rewrite argsort_Permutation. apply NoDup_seq. Qed.

Lemma argsort_lt (c : list nat) (a i : nat) :
  argsort c !! a = Some i → (i < length c)%nat.
Proof.
  intros Ha. apply list_elem_of_lookup_2 in Ha.
  rewrite argsort_Permutation, elem_of_seq in Ha. lia.
Qed.

(** The order of [argsort]: the keys do not decrease. *)
Lemma argsort_sorted (c : list nat) (a b i k : nat) (x y : nat) :
  argsort c !! a = Some i → argsort c !! b = Some k → (a < b)%nat →
  c !! i = Some x → c !! k = Some y →
  (x ≤ y)%nat.
Proof.
  intros Ha Hb Hab Hx Hy.
  apply (StronglySorted_lookup_lt Nat.le ((λ i, c !!! i) <$> argsort c) a b);
    [apply argsort_ok| | |done].
  - rewrite list_lookup_fmap, Ha. simpl. f_equal.
    by apply list_lookup_total_correct.
  - rewrite list_lookup_fmap, Hb. simpl. f_equal.
    by apply list_lookup_total_correct.
Qed.

Lemma ranked_seq (vals : list Z) : ranked vals (seq 0 (length vals)) = vals.
Proof.
  unfold ranked. apply list_eq. intros i. rewrite list_lookup_fmap.
  destruct (vals !! i) as [v|] eqn:Hv.
  - rewrite (proj2 (lookup_seq 0 (length vals) i i)).
    + simpl. f_equal. by apply list_lookup_total_correct.
    + split; [done|]. by apply lookup_lt_Some in Hv.
  - apply lookup_ge_None in Hv. by rewrite lookup_seq_ge.
Qed.

Lemma ranked_Permutation (vals : list Z) (order : list nat) :
  order ≡ₚ seq 0 (length vals) → ranked vals order ≡ₚ vals.
Proof.
  intros Hp. rewrite <-(ranked_seq vals) at 2. unfold ranked. by rewrite Hp.
Qed.

Lemma lookup_ranked (vals : list Z) (order : list nat) (a i : nat) (v : Z) :
  order !! a = Some i → vals !! i = Some v → ranked vals order !! a = Some v.
Proof.
  intros Ha Hi. unfold ranked. rewrite list_lookup_fmap, Ha. simpl.
  f_equal. by apply list_lookup_total_correct.
Qed.

Lemma ranked_classes_Permutation (a : list Z) :
  ranked_classes argsort a ≡ₚ np.unique_values a.
Proof.
  unfold ranked_classes. apply ranked_Permutation.
  rewrite argsort_Permutation. by rewrite length_unique.
Qed.

Lemma NoDup_ranked_classes (a : list Z) : NoDup (ranked_classes argsort a).
Proof. rewrite ranked_classes_Permutation. apply NoDup_unique_values. Qed.

Lemma elem_of_ranked_classes (a : list Z) (v : Z) :
  v ∈ ranked_classes argsort a ↔ v ∈ a.
Proof. rewrite ranked_classes_Permutation. apply elem_of_unique_values. Qed.

Lemma length_ranked_classes (a : list Z) :
  length (ranked_classes argsort a) = length (np.unique a).1.
Proof. by rewrite ranked_classes_Permutation. Qed.

(** What [l[c[k]]] evaluates to. *)
Lemma getitem_ranked (a : list Z) (k : nat) :
  (k < length (np.unique a).1)%nat →
  ∃ i v, np.getitem (argsort (np.unique a).2) k = Ok i ∧
         np.getitem (np.unique a).1 i = Ok v ∧
         ranked_classes argsort a !! k = Some v.
Proof.
  intros Hk.
  destruct (argsort (np.unique a).2 !! k) as [i|] eqn:Hi.
  2:{ apply lookup_ge_None in Hi. rewrite length_argsort, length_unique in Hi. lia. }
  pose proof (argsort_lt _ _ _ Hi) as Hlt. rewrite length_unique in Hlt.
  destruct ((np.unique a).1 !! i) as [v|] eqn:Hv.
  2:{ apply lookup_ge_None in Hv. lia. }
  exists i, v. unfold np.getitem. rewrite Hi, Hv. split_and!; [done..|].
  by apply (lookup_ranked _ _ _ i).
Qed.

(** Ranks follow the populations: a class of smaller rank is not more
    populated. Among classes of the same population the ranks are those
    that [argsort] gives them. *)
Lemma ranked_classes_sorted (a : list Z) (i k : nat) (v w : Z) :
  ranked_classes argsort a !! i = Some v → ranked_classes argsort a !! k = Some w →
  (i < k)%nat →
  (np.count a v ≤ np.count a w)%nat.
Proof.
  intros Hv Hw Hik. unfold ranked_classes, ranked in Hv, Hw.
  rewrite list_lookup_fmap in Hv, Hw.
  destruct (argsort (np.unique a).2 !! i) as [p|] eqn:Hp; [|done].
  destruct (argsort (np.unique a).2 !! k) as [q|] eqn:Hq; [|done].
  cbn [fmap option_fmap option_map] in Hv, Hw.
  injection Hv as Hv. injection Hw as Hw.
  pose proof (argsort_lt _ _ _ Hp) as Hpl. pose proof (argsort_lt _ _ _ Hq) as Hql.
  rewrite length_unique in Hpl, Hql.
  apply list_lookup_lookup_total_lt in Hpl, Hql.
  change (np.unique a).1 with (np.unique_values a) in *.
  rewrite Hv in Hpl. rewrite Hw in Hql.
  exact (argsort_sorted _ _ _ _ _ _ _ Hp Hq Hik
           (lookup_unique_counts _ _ _ Hpl) (lookup_unique_counts _ _ _ Hql)).
Qed.

(** ** Canonical ids *)

Lemma canon_found (rk : list Z) (base : Z) (k : nat) (v : Z) :
  NoDup rk → rk !! k = Some v → canon rk base v = Z.of_nat k + base + 1.
Proof.
  intros Hnd Hk. unfold canon.
  destruct (list_find (λ x, x = v) rk) as [[k' x]|] eqn:Hf.
  - apply list_find_Some in Hf as (Hk' & -> & _).
    by rewrite (NoDup_lookup _ _ _ _ Hnd Hk Hk').
  - apply list_find_None in Hf. rewrite Forall_forall in Hf.
    destruct (Hf v); [|done]. by apply list_elem_of_lookup_2 in Hk.
Qed.

Lemma canon_not_found (rk : list Z) (base : Z) (v : Z) :
  v ∉ rk → canon rk base v = v.
Proof.
  intros Hv. unfold canon.
  destruct (list_find (λ x, x = v) rk) as [[k' x]|] eqn:Hf; [|done].
  apply list_find_Some in Hf as (Hk' & -> & _).
  by apply list_elem_of_lookup_2 in Hk'.
Qed.

Lemma canon_nil (base v : Z) : canon [] base v = v.
Proof. done. Qed.

Lemma canon_snoc (rk : list Z) (base v s : Z) :
  NoDup (rk ++ [v]) →
  canon (rk ++ [v]) base s
  = if decide (s = v) then Z.of_nat (length rk) + base + 1 else canon rk base s.
Proof.
  intros Hnd. destruct (decide (s = v)) as [->|Hne].
  - apply canon_found; [done|]. by rewrite lookup_app_r, Nat.sub_diag by lia.
  - destruct (decide (s ∈ rk)) as [Hin|Hnin].
    + apply list_elem_of_lookup_1 in Hin as [k Hk].
      rewrite (canon_found (rk ++ [v]) base k s);
        [|done|by apply lookup_app_l_Some].
      symmetry. apply canon_found; [|done].
      by apply NoDup_app in Hnd as (? & _ & _).
    + rewrite !canon_not_found; [done..|].
      rewrite elem_of_app, list_elem_of_singleton. tauto.
Qed.

Lemma assign_where_canon (src rk : list Z) (base : Z) (k : nat) (v : Z) :
  NoDup rk → rk !! k = Some v →
  assign_where src v (Z.of_nat k + base + 1) (canon (take k rk) base <$> src)
  = canon (take (S k) rk) base <$> src.
Proof.
  intros Hnd Hk. apply list_eq. intros p. rewrite list_lookup_fmap.
  unfold assign_where. rewrite lookup_zip_with, list_lookup_fmap.
  destruct (src !! p) as [s|]; [simpl|done]. f_equal.
  rewrite (take_S_r _ _ _ Hk), canon_snoc.
  - rewrite length_take_le; [done|]. apply lookup_lt_Some in Hk. lia.
  - rewrite <-(take_S_r _ _ _ Hk). eapply sublist_NoDup; [done|].
    apply sublist_take.
Qed.

(** ** How many loop counters match a prediction value *)

Lemma matched_S (l : list Z) (n : nat) :
  matched l (S n)
  = if decide (Z.of_nat n ∈ l) then S (matched l n) else matched l n.
Proof.
  unfold matched. rewrite seq_S, filter_app, length_app. simpl.
  rewrite filter_cons, filter_nil.
  destruct (decide (Z.of_nat n ∈ l)); simpl; lia.
Qed.

Lemma matched_le (l : list Z) (n : nat) :
  NoDup l → (matched l n ≤ length l)%nat.
Proof.
  intros Hnd. unfold matched.
  rewrite <-(length_fmap Z.of_nat). apply submseteq_length, NoDup_submseteq.
  - apply NoDup_fmap; [apply _|]. apply NoDup_filter, NoDup_seq.
  - intros x Hx. apply list_elem_of_fmap in Hx as (i & -> & Hi).
    by apply list_elem_of_filter in Hi as [Hi _].
Qed.

Lemma matched_all (l : list Z) (n : nat) :
  NoDup l → (∀ v, v ∈ l → 0 ≤ v < Z.of_nat n) → matched l n = length l.
Proof.
  intros Hnd Hall. apply Nat.le_antisymm; [by apply matched_le|].
  unfold matched. rewrite <-(length_fmap Z.of_nat).
  apply submseteq_length, NoDup_submseteq; [done|].
  intros v Hv. apply list_elem_of_fmap. exists (Z.to_nat v).
  specialize (Hall v Hv). split; [lia|].
  apply list_elem_of_filter. split.
  - by replace (Z.of_nat (Z.to_nat v)) with v by lia.
  - apply elem_of_seq. lia.
Qed.

(** ** The loop of [compute_labels_correspondence] *)

Lemma compute_labels_correspondence_unfold (labels preds : np.ndarray2) (n : nat) :
  compute_labels_correspondence argsort labels preds n
  = st ← resolver_loop argsort (np.data labels) (np.data preds) n;
    rp ← np.setitem_idx (res_preds st) (np.argwhere_eq (np.data labels) 0) 0;
    rp2 ← np.reshape rp (np.shape0 preds) (np.shape1 preds);
    rl2 ← np.reshape (res_labels st) (np.shape0 labels) (np.shape1 labels);
    Ok (rl2, rp2).
Proof. reflexivity. Qed.

Section resolver_loop.
Variables L P : list Z.

Lemma resolver_state_0 : resolver_state argsort L P 0 = LoopState L P 0.
Proof.
  assert (∀ base (a : list Z), canon [] base <$> a = a) as Hid.
  { intros base a. induction a as [|x a IH]; [done|]. by rewrite fmap_cons, IH. }
  unfold resolver_state. simpl. by rewrite !Hid.
Qed.

(** The prediction half of an iteration never fails. *)
Lemma loop_body_preds (n : nat) :
  (if decide (Z.of_nat n ∈ (np.unique P).1) then
     cj ← np.getitem (argsort (np.unique P).2) (j (resolver_state argsort L P n));
     v ← np.getitem (np.unique P).1 cj;
     rp ← np.setitem_idx (res_preds (resolver_state argsort L P n))
           (np.argwhere_eq P v)
           (Z.of_nat (j (resolver_state argsort L P n)) + resolver_offset L P + 1);
     Ok (LoopState (res_labels (resolver_state argsort L P n)) rp
           (S (j (resolver_state argsort L P n))))
   else Ok (resolver_state argsort L P n))
  = Ok (LoopState (res_labels (resolver_state argsort L P n))
          (res_preds (resolver_state argsort L P (S n))) (j (resolver_state argsort L P (S n)))).
Proof.
  unfold resolver_state. cbn [res_labels res_preds j].
  rewrite matched_S.
  destruct (decide (Z.of_nat n ∈ (np.unique P).1)) as [Hin|Hnin]; [|done].
  pose proof (matched_le (np.unique P).1 (S n) (NoDup_unique_values P)) as Hle.
  rewrite matched_S, decide_True in Hle by done.
  destruct (getitem_ranked P (matched (np.unique P).1 n)) as (i & v & -> & Hv & Hrk);
    [lia|].
  cbn [mbind result_bind]. rewrite Hv. cbn [mbind result_bind].
  rewrite setitem_idx_argwhere by (by rewrite length_fmap).
  cbn [mbind result_bind].
  by rewrite (assign_where_canon _ _ _ _ _ (NoDup_ranked_classes P) Hrk).
Qed.

Lemma loop_body_spec (n : nat) :
  (n < length (np.unique L).1)%nat →
  loop_body L P (np.unique L).1 (argsort (np.unique L).2)
    (np.unique P).1 (argsort (np.unique P).2) (resolver_offset L P)
    (resolver_state argsort L P n) n
  = Ok (resolver_state argsort L P (S n)).
Proof.
  intros Hn. unfold loop_body. rewrite loop_body_preds.
  cbn [mbind result_bind res_labels res_preds j].
  destruct (getitem_ranked L n Hn) as (i & v & -> & Hv & Hrk).
  cbn [mbind result_bind]. rewrite Hv. cbn [mbind result_bind].
  unfold resolver_state. cbn [res_labels res_preds j].
  rewrite setitem_idx_argwhere by (by rewrite length_fmap).
  cbn [mbind result_bind].
  replace (Z.of_nat n + 1) with (Z.of_nat n + 0 + 1) by lia.
  by rewrite (assign_where_canon _ _ _ _ _ (NoDup_ranked_classes L) Hrk).
Qed.

Lemma loop_body_raise (n : nat) :
  (length (np.unique L).1 ≤ n)%nat →
  loop_body L P (np.unique L).1 (argsort (np.unique L).2)
    (np.unique P).1 (argsort (np.unique P).2) (resolver_offset L P)
    (resolver_state argsort L P n) n
  = Raise IndexError.
Proof.
  intros Hn. unfold loop_body. rewrite loop_body_preds.
  cbn [mbind result_bind res_labels res_preds j].
  rewrite getitem_ge; [done|].
  by rewrite length_argsort, length_unique.
Qed.

(** The loop runs to its end when [n_cluster] does not exceed the number
    of distinct label values. *)
Lemma resolver_loop_spec (n : nat) :
  (n ≤ length (np.unique L).1)%nat →
  resolver_loop argsort L P n = Ok (resolver_state argsort L P n).
Proof.
  unfold resolver_loop. induction n as [|n IH]; intros Hn.
  - simpl. by rewrite resolver_state_0.
  - rewrite range_S, for_each_snoc, IH by lia. cbn [mbind result_bind].
    apply loop_body_spec. lia.
Qed.

(** Past that number, [c2[i]] is out of range. *)
Lemma resolver_loop_raise (n : nat) :
  (length (np.unique L).1 < n)%nat →
  resolver_loop argsort L P n = Raise IndexError.
Proof.
  intros Hn. unfold resolver_loop.
  replace n with (length (np.unique L).1 + S (n - S (length (np.unique L).1)))%nat
    by lia.
  rewrite range_add, for_each_app.
  pose proof (resolver_loop_spec (length (np.unique L).1)) as Hloop.
  unfold resolver_loop in Hloop. rewrite Hloop by lia.
  cbn [mbind result_bind seq for_each].
  by rewrite loop_body_raise.
Qed.
End resolver_loop.

(** What [compute_labels_correspondence] returns on two grids of the same
    shape. *)
Lemma compute_labels_correspondence_spec (labels preds : np.ndarray2) (n : nat) :
  np.wf labels → np.wf preds →
  np.shape0 preds = np.shape0 labels → np.shape1 preds = np.shape1 labels →
  (n ≤ length (np.unique (np.data labels)).1)%nat →
  compute_labels_correspondence argsort labels preds n
  = Ok (np.Array2 (np.shape0 labels) (np.shape1 labels)
          (res_labels (resolver_state argsort (np.data labels) (np.data preds) n)),
        np.Array2 (np.shape0 labels) (np.shape1 labels)
          (assign_where (np.data labels) 0 0
             (res_preds (resolver_state argsort (np.data labels) (np.data preds) n)))).
Proof.
  intros Hwl Hwp H0 H1 Hn. unfold np.wf in Hwl, Hwp.
  rewrite compute_labels_correspondence_unfold, resolver_loop_spec by done.
  cbn [mbind result_bind].
  assert (length (np.data preds) = length (np.data labels)) as Hlen.
  { rewrite Hwl, Hwp. congruence. }
  rewrite setitem_idx_argwhere
    by (by unfold resolver_state; cbn [res_preds]; rewrite length_fmap).
  cbn [mbind result_bind].
  assert (length (res_preds (resolver_state argsort (np.data labels) (np.data preds) n))
          = length (np.data preds)) as Hrp.
  { unfold resolver_state. cbn [res_preds]. by rewrite length_fmap. }
  rewrite (reshape_Ok (assign_where _ _ _ _)).
  2:{ rewrite length_assign_where; rewrite Hrp; [congruence|done..]. }
  cbn [mbind result_bind].
  rewrite reshape_Ok
    by (by unfold resolver_state; cbn [res_labels]; rewrite length_fmap).
  cbn [mbind result_bind]. by rewrite H0, H1.
Qed.

Lemma compute_labels_correspondence_raise (labels preds : np.ndarray2) (n : nat) :
  (length (np.unique (np.data labels)).1 < n)%nat →
  compute_labels_correspondence argsort labels preds n = Raise IndexError.
Proof.
  intros Hn.
  by rewrite compute_labels_correspondence_unfold, resolver_loop_raise.
Qed.

(** ** The result of [compute_labels_correspondence], cell by cell *)

Lemma same_shape_spec (labels preds : np.ndarray2) (n : nat) :
  same_shape labels preds → (n ≤ n_distinct labels)%nat →
  compute_labels_correspondence argsort labels preds n
  = Ok (np.Array2 (np.shape0 labels) (np.shape1 labels)
          (res_labels (resolver_state argsort (np.data labels) (np.data preds) n)),
        np.Array2 (np.shape0 labels) (np.shape1 labels)
          (assign_where (np.data labels) 0 0
             (res_preds (resolver_state argsort (np.data labels) (np.data preds) n)))).
Proof.
  intros (Hwl & Hwp & H0 & H1) Hn.
  by apply compute_labels_correspondence_spec.
Qed.

Lemma returns_n_le (labels preds : np.ndarray2) (n : nat) r :
  compute_labels_correspondence argsort labels preds n = Ok r → (n ≤ n_distinct labels)%nat.
Proof.
  intros Hr. destruct (decide (n ≤ n_distinct labels)%nat) as [|Hgt]; [done|].
  rewrite compute_labels_correspondence_raise in Hr; [done|].
  unfold n_distinct, np.flatten in Hgt. lia.
Qed.

(** A label cell of a class of rank [i < n] holds [i + 1]. *)
Lemma res_labels_ranked (L P : list Z) (n i p : nat) (v : Z) :
  (i < n)%nat → ranked_classes argsort L !! i = Some v → L !! p = Some v →
  res_labels (resolver_state argsort L P n) !! p = Some (Z.of_nat i + 1).
Proof.
  intros Hi Hrk Hp. unfold resolver_state. cbn [res_labels].
  rewrite list_lookup_fmap, Hp. simpl. f_equal.
  rewrite (canon_found _ 0 i v); [lia| |].
  - eapply sublist_NoDup; [apply NoDup_ranked_classes|apply sublist_take].
  - by rewrite lookup_take_lt.
Qed.

(** A label cell of a class of rank [i >= n] keeps its raw value. *)
Lemma res_labels_raw (L P : list Z) (n i p : nat) (v : Z) :
  (n ≤ i)%nat → ranked_classes argsort L !! i = Some v → L !! p = Some v →
  res_labels (resolver_state argsort L P n) !! p = Some v.
Proof.
  intros Hi Hrk Hp. unfold resolver_state. cbn [res_labels].
  rewrite list_lookup_fmap, Hp. simpl. f_equal.
  apply canon_not_found. intros Hin.
  apply list_elem_of_lookup_1 in Hin as [k Hk].
  pose proof (lookup_lt_Some _ _ _ Hk) as Hlt. rewrite length_take in Hlt.
  rewrite lookup_take_lt in Hk by lia.
  pose proof (NoDup_lookup _ _ _ _ (NoDup_ranked_classes L) Hrk Hk). lia.
Qed.

Lemma rank_0_least_populated (L : list Z) (v0 w : Z) :
  ranked_classes argsort L !! 0%nat = Some v0 → w ∈ L →
  (np.count L v0 ≤ np.count L w)%nat.
Proof.
  intros H0 Hw. apply elem_of_ranked_classes in Hw.
  apply list_elem_of_lookup_1 in Hw as [k Hk].
  destruct k as [|k]; [by simplify_eq|].
  apply (ranked_classes_sorted L 0 (S k) v0 w); [done..|lia].
Qed.

Lemma strictly_smallest_rank_0 (L : list Z) (v : Z) :
  v ∈ L →
  (∀ w, w ∈ L → w ≠ v → (np.count L v < np.count L w)%nat) →
  ranked_classes argsort L !! 0%nat = Some v.
Proof.
  intros Hv Hmin. apply elem_of_ranked_classes in Hv.
  apply list_elem_of_lookup_1 in Hv as [k Hk].
  destruct k as [|k]; [done|].
  destruct (ranked_classes argsort L !! 0%nat) as [v0|] eqn:H0.
  2:{ apply lookup_ge_None in H0. apply lookup_lt_Some in Hk. lia. }
  assert (v0 ≠ v) as Hne.
  { intros ->. pose proof (NoDup_lookup _ _ _ _ (NoDup_ranked_classes L) H0 Hk). lia. }
  assert (v0 ∈ L) as Hin.
  { apply elem_of_ranked_classes. by apply list_elem_of_lookup_2 in H0. }
  specialize (Hmin v0 Hin Hne).
  pose proof (ranked_classes_sorted L 0 (S k) v0 v H0 Hk). lia.
Qed.
End ranking.


(** C4 (amended). For two grids of one shape and whatever [argsort] the
    call is run with: when [n_cluster] is at least 1 and at most the
    number of distinct label values, the call returns; a class that is
    less populated than every other receives canonical id 1; for every
    rank [i < n_cluster] the cells of the class of rank [i] receive
    [i + 1]; the classes of rank [n_cluster] and more are not renumbered;
    ranks follow the populations: a class of smaller rank is not more
    populated. The rank of a class among classes of the same population is
    the one [argsort] gives it. When [n_cluster] exceeds the number of
    distinct label values the call raises [IndexError]. *)
Theorem canonical_labels_follow_ranks (argsort : list nat → list nat)
    (labels preds : np.ndarray2) (n_cluster : nat) :
  np.is_argsort argsort →
  same_shape labels preds →
  ((1 ≤ n_cluster ≤ n_distinct labels)%nat →
   smallest_class_gets_1 argsort labels preds n_cluster ∧
   ∃ rl rp,
     compute_labels_correspondence argsort labels preds n_cluster = Ok (rl, rp) ∧
     (∀ i v p, (i < n_cluster)%nat →
        ranked_classes argsort (np.flatten labels) !! i = Some v →
        np.flatten labels !! p = Some v →
        np.flatten rl !! p = Some (Z.of_nat i + 1)) ∧
     (∀ i v p, (n_cluster ≤ i)%nat →
        ranked_classes argsort (np.flatten labels) !! i = Some v →
        np.flatten labels !! p = Some v →
        np.flatten rl !! p = Some v) ∧
     (∀ i k v w, (i < k)%nat →
        ranked_classes argsort (np.flatten labels) !! i = Some v →
        ranked_classes argsort (np.flatten labels) !! k = Some w →
        (np.count (np.flatten labels) v ≤ np.count (np.flatten labels) w)%nat) ∧
     (∃ v0, ranked_classes argsort (np.flatten labels) !! 0%nat = Some v0 ∧
        ∀ w, w ∈ np.flatten labels →
          (np.count (np.flatten labels) v0 ≤ np.count (np.flatten labels) w)%nat)) ∧
  ((n_distinct labels < n_cluster)%nat →
   compute_labels_correspondence argsort labels preds n_cluster
   = Raise IndexError).
Proof.
  intros Hsort Hshape. split; [|by apply compute_labels_correspondence_raise].
  intros [Hn1 Hn].
  pose proof (same_shape_spec argsort Hsort labels preds n_cluster Hshape Hn) as Hspec.
  split.
  - eexists _, _. split; [exact Hspec|]. intros v Hv Hmin p Hp.
    unfold np.flatten in *. cbn [np.data].
    replace 1 with (Z.of_nat 0 + 1) by lia.
    apply res_labels_ranked with v; [done|lia| |done].
    by apply strictly_smallest_rank_0.
  - eexists _, _. split; [exact Hspec|]. split_and!.
    + intros i v p Hi Hrk Hp. unfold np.flatten in *. cbn [np.data].
      by apply res_labels_ranked with v.
    + intros i v p Hi Hrk Hp. unfold np.flatten in *. cbn [np.data].
      by apply res_labels_raw with i.
    + intros i k v w Hik Hv Hw.
      by apply (ranked_classes_sorted argsort Hsort _ i k).
    + destruct (ranked_classes argsort (np.flatten labels) !! 0%nat)
        as [v0|] eqn:H0.
      * exists v0. split; [done|]. intros w Hw.
        by apply (rank_0_least_populated argsort).
      * apply lookup_ge_None in H0. rewrite length_ranked_classes in H0 by done.
        unfold n_distinct in Hn. lia.
Qed.

Lemma canonical_labels_follow_ranks_witness :
  smallest_class_gets_1 np.argsort_stable ex_labels ex_preds 3.
Proof.
  refine (proj1 (proj1 (canonical_labels_follow_ranks np.argsort_stable
                          ex_labels ex_preds 3 argsort_stable_ok _) _)).
  - repeat split; reflexivity.
  - vm_compute. lia.
Defined.

(** C4 as stated, for all inputs, fails: with [n_cluster = 4] on a grid of
    three distinct label values the call raises [IndexError]; with
    [n_cluster = 0] the labels are returned as they are, the least
    populated class keeping its raw id 2; and an [argsort] that puts the
    later of two equal counts first gives, of two classes with one cell
    each, id 1 to the second. *)
Lemma smallest_class_gets_1_fails :
  ¬ smallest_class_gets_1 np.argsort_stable ex_labels ex_preds 4 ∧
  ¬ smallest_class_gets_1 np.argsort_stable
      (np.of_rows [[1; 1; 2]]) (np.of_rows [[0; 0; 1]]) 0 ∧
  ¬ ties_by_position np.argsort_last_first
      (np.of_rows [[1; 2]]) (np.of_rows [[0; 1]]) 2.
Proof.
  split_and!.
  - intros (rl & rp & Hr & _). vm_compute in Hr. discriminate.
  - intros (rl & rp & Hr & Hone). vm_compute in Hr. injection Hr as <- <-.
    specialize (Hone 2). cbn [np.flatten np.of_rows np.data concat app] in Hone.
    assert ([1; 1; 2] !! 2%nat = Some 1) as Habs; [|discriminate].
    apply Hone; [by do 2 right; left| |done].
    intros w Hw Hne.
    assert (w = 1) as ->.
    { repeat (apply elem_of_cons in Hw as [->|Hw]; [done|]).
      by apply not_elem_of_nil in Hw. }
    vm_compute. lia.
  - intros (rl & rp & Hr & Hties). vm_compute in Hr. injection Hr as <- <-.
    specialize (Hties 0%nat 1%nat 1 2 2 1).
    cbn [np.flatten np.of_rows np.data concat app] in Hties.
    assert (2 < 1) as Habs; [|lia].
    apply Hties; [reflexivity|reflexivity|lia|reflexivity|reflexivity|reflexivity].
Qed.

(** C5 (amended). For two grids of one shape and a call that returns,
    with whatever [argsort], [res_preds] is 0 at every position where
    [labels == 0], whatever the raw prediction there; it is 0 at no other
    position provided [preds] has no more distinct values than [labels]
    and every prediction value lies in [0 .. n_cluster - 1]. *)
Theorem unclassified_cells_are_zero (argsort : list nat → list nat)
    (labels preds rl rp : np.ndarray2) (n_cluster : nat) :
  np.is_argsort argsort →
  same_shape labels preds →
  compute_labels_correspondence argsort labels preds n_cluster = Ok (rl, rp) →
  (∀ p, np.flatten labels !! p = Some 0 → np.flatten rp !! p = Some 0) ∧
  ((n_distinct preds ≤ n_distinct labels)%nat →
   Forall (λ v, 0 ≤ v < Z.of_nat n_cluster) (np.flatten preds) →
   ∀ p, np.flatten rp !! p = Some 0 → np.flatten labels !! p = Some 0).
Proof.
  intros Hsort Hshape Hr. pose proof (returns_n_le argsort Hsort _ _ _ _ Hr) as Hn.
  rewrite (same_shape_spec argsort Hsort _ _ _ Hshape Hn) in Hr.
  injection Hr as <- <-.
  destruct Hshape as (Hwl & Hwp & H0 & H1). unfold np.wf in Hwl, Hwp.
  assert (length (np.data preds) = length (np.data labels)) as Hlen.
  { rewrite Hwl, Hwp. congruence. }
  unfold np.flatten. cbn [np.data]. unfold resolver_state. cbn [res_preds].
  split.
  - intros p Hp.
    destruct (np.data preds !! p) as [x|] eqn:Hx.
    2:{ apply lookup_ge_None in Hx. apply lookup_lt_Some in Hp. lia. }
    erewrite lookup_assign_where; [|done|by rewrite list_lookup_fmap, Hx].
    by rewrite decide_True.
  - intros Hdist Hall p Hp.
    destruct (np.data labels !! p) as [s|] eqn:Hs.
    2:{ apply lookup_ge_None in Hs. apply lookup_lt_Some in Hp.
        rewrite length_assign_where in Hp; rewrite length_fmap in *; lia. }
    destruct (np.data preds !! p) as [x|] eqn:Hx.
    2:{ apply lookup_ge_None in Hx. apply lookup_lt_Some in Hs. lia. }
    erewrite lookup_assign_where in Hp; [|done|by rewrite list_lookup_fmap, Hx].
    destruct (decide (s = 0)) as [->|Hne]; [done|]. exfalso.
    injection Hp as Hp.
    rewrite matched_all in Hp.
    + rewrite take_ge in Hp by (by rewrite length_ranked_classes).
      assert (x ∈ ranked_classes argsort (np.data preds)) as Hin.
      { apply elem_of_ranked_classes; [done|].
        by apply list_elem_of_lookup_2 in Hx. }
      apply list_elem_of_lookup_1 in Hin as [k Hk].
      rewrite (canon_found _ _ k x) in Hp
        by (done || by apply NoDup_ranked_classes).
      unfold resolver_offset in Hp. unfold n_distinct, np.flatten in Hdist.
      lia.
    + apply NoDup_unique_values.
    + intros v Hv. rewrite Forall_forall in Hall. apply Hall.
      apply (proj1 (elem_of_unique_values _ _)). exact Hv.
Qed.

Lemma unclassified_cells_are_zero_witness :
  np.flatten (np.of_rows [[0; 3; 1]; [1; 2; 2]]) !! 0%nat = Some 0 ∧
  Forall (λ p, np.flatten (np.of_rows [[0; 3; 1]; [1; 2; 2]]) !! p = Some 0 →
               np.flatten ex_labels !! p = Some 0) (seq 0 6).
Proof.
  assert (same_shape ex_labels ex_preds) as Hshape by (repeat split; reflexivity).
  destruct (unclassified_cells_are_zero np.argsort_stable ex_labels ex_preds
              (np.of_rows [[1; 2; 2]; [3; 3; 3]]) (np.of_rows [[0; 3; 1]; [1; 2; 2]])
              3 argsort_stable_ok Hshape eq_refl) as [Hzero Honly].
  split; [by apply Hzero|].
  apply Forall_forall. intros p _. apply Honly.
  - vm_compute. lia.
  - apply (bool_decide_unpack _). vm_compute. exact I.
Defined.

(** C5 as stated fails: with one label class and two clusters the least
    populated cluster is renumbered [0 + (1 - 2) + 1 = 0], at a position
    whose label is 1. The counts of the clusters differ: every [argsort]
    ranks them so. *)
Lemma zero_exactly_where_unclassified_fails :
  compute_labels_correspondence np.argsort_stable
    (np.of_rows [[1; 1; 1]]) (np.of_rows [[0; 1; 1]]) 1
  = Ok (np.of_rows [[1; 1; 1]], np.of_rows [[0; 1; 1]]) ∧
  ¬ zero_exactly_where_unclassified np.argsort_stable
      (np.of_rows [[1; 1; 1]]) (np.of_rows [[0; 1; 1]]) 1.
Proof.
  split; [vm_compute; reflexivity|].
  intros (rl & rp & Hr & Hiff). vm_compute in Hr. injection Hr as <- <-.
  specialize (Hiff 0%nat). cbn in Hiff. destruct Hiff as [Hiff _].
  specialize (Hiff eq_refl). discriminate.
Qed.

(** C6 (amended). No configuration error exists. With whatever [argsort],
    when [n_cluster] is smaller than the number of distinct label values
    the call returns, and the cells of the classes that [argsort] ranks
    [n_cluster] and more keep their raw value; when it is larger the call
    fails with the [IndexError] of [c2[i]]. *)
Theorem undercount_returns_raw_values (argsort : list nat → list nat)
    (labels preds : np.ndarray2) (n_cluster : nat) :
  np.is_argsort argsort →
  same_shape labels preds →
  ((n_cluster < n_distinct labels)%nat →
   ∃ rl rp,
     compute_labels_correspondence argsort labels preds n_cluster = Ok (rl, rp) ∧
     ∀ i v p, (n_cluster ≤ i)%nat →
       ranked_classes argsort (np.flatten labels) !! i = Some v →
       np.flatten labels !! p = Some v →
       np.flatten rl !! p = Some v) ∧
  ((n_distinct labels < n_cluster)%nat →
   compute_labels_correspondence argsort labels preds n_cluster
   = Raise IndexError).
Proof.
  intros Hsort Hshape. split.
  - intros Hn. eexists _, _. split; [apply same_shape_spec; [done|done|lia]|].
    intros i v p Hi Hrk Hp. unfold np.flatten in *. cbn [np.data].
    by apply res_labels_raw with i.
  - intros Hn. by apply compute_labels_correspondence_raise.
Qed.

Lemma undercount_returns_raw_values_witness :
  ∃ rl rp,
    compute_labels_correspondence np.argsort_stable ex_labels ex_preds 2
    = Ok (rl, rp) ∧
    np.flatten rl !! 5%nat = Some 2.
Proof.
  assert (same_shape ex_labels ex_preds) as Hshape by (repeat split; reflexivity).
  destruct (undercount_returns_raw_values np.argsort_stable ex_labels ex_preds 2
              argsort_stable_ok Hshape) as [Hlt _].
  destruct Hlt as (rl & rp & Hr & Hraw); [vm_compute; lia|].
  exists rl, rp. split; [exact Hr|].
  apply (Hraw 2%nat 2 5%nat); [lia|reflexivity..].
Defined.

(** C6 as stated fails: with [n_cluster = 2] on a grid of three distinct
    label values the call returns normally, the raw label 2 left in the
    output. The three label counts differ, so that every [argsort] gives
    these labels. *)
Lemma undercount_is_not_an_error :
  (2 < n_distinct ex_labels)%nat ∧
  compute_labels_correspondence np.argsort_stable ex_labels ex_preds 2
  = Ok (np.of_rows [[1; 2; 2]; [2; 2; 2]], np.of_rows [[0; 2; 1]; [1; 2; 2]]).
Proof. split; [vm_compute; lia|vm_compute; reflexivity]. Qed.

(** ** Row-major indices *)

Lemma flat_index_inj (c i j i' j' : nat) :
  (j < c)%nat → (j' < c)%nat → (i * c + j = i' * c + j')%nat → i = i' ∧ j = j'.
Proof.
  intros Hj Hj' Heq.
  destruct (Nat.lt_trichotomy i i') as [Hlt|[->|Hlt]]; [|lia|].
  - pose proof (Nat.mul_le_mono_r (S i) i' c Hlt). lia.
  - pose proof (Nat.mul_le_mono_r (S i') i c Hlt). lia.
Qed.

Lemma flat_index_lt (r c i j : nat) :
  (i < r)%nat → (j < c)%nat → (i * c + j < r * c)%nat.
Proof.
  intros Hi Hj. pose proof (Nat.mul_le_mono_r (S i) r c Hi). lia.
Qed.

(** ** [remove_unclassified] on the heap *)

Lemma M_bind_run {A B} (m : mem.M A) (f : A → mem.M B) (h h' : mem.heap) (a : A) :
  m h = Ok (a, h') → (m ≫= f) h = f a h'.
Proof. intros Hm. unfold mbind, mem.M_bind. by rewrite Hm. Qed.

Lemma cells_insert (h : mem.heap) (b : mem.loc) (cs : list Z) (a : mem.array) :
  mem.cells (<[b := cs]> h) a = if decide (mem.buf a = b) then cs else mem.cells h a.
Proof.
  unfold mem.cells. destruct (decide (mem.buf a = b)) as [->|Hne].
  - by rewrite lookup_insert_eq.
  - by rewrite lookup_insert_ne.
Qed.

Lemma cells_lookup (h : mem.heap) (a : mem.array) (cs : list Z) :
  h !! mem.buf a = Some cs → mem.cells h a = cs.
Proof. intros Ha. unfold mem.cells. by rewrite Ha. Qed.

Lemma copy_run (a : mem.array) (h : mem.heap) :
  mem.copy a h
  = Ok (mem.Array (fresh (dom h)) (mem.shape a) (mem.dtype a),
        <[fresh (dom h) := mem.cells h a]> h).
Proof. reflexivity. Qed.

Lemma flatten_run (a : mem.array) (h : mem.heap) :
  mem.flatten a h
  = Ok (mem.Array (fresh (dom h)) [length (mem.cells h a)] (mem.dtype a),
        <[fresh (dom h) := mem.cells h a]> h).
Proof. reflexivity. Qed.

Lemma iadd_run (a : mem.array) (k : Z) (h : mem.heap) :
  mem.iadd a k h
  = Ok ((), <[mem.buf a := (λ x, np.wrap (mem.dtype a) (x + k)) <$> mem.cells h a]> h).
Proof. reflexivity. Qed.

Lemma argwhere_eq_run (a : mem.array) (v : Z) (h : mem.heap) :
  mem.argwhere_eq a v h = Ok (np.argwhere_eq (mem.cells h a) v, h).
Proof. reflexivity. Qed.

Lemma setitem_idx_run (a : mem.array) (idx : list nat) (w : Z) (h : mem.heap)
    (cs : list Z) :
  np.setitem_idx (mem.cells h a) idx w = Ok cs →
  mem.setitem_idx a idx w h = Ok ((), <[mem.buf a := cs]> h).
Proof.
  intros Hcs. unfold mem.setitem_idx, mem.read, mem.lift, mem.write.
  unfold mbind, mem.M_bind. by rewrite Hcs.
Qed.

Lemma shape_at_run (a : mem.array) (k d : nat) (h : mem.heap) :
  mem.shape a !! k = Some d → mem.shape_at a k h = Ok (d, h).
Proof. intros Hk. unfold mem.shape_at, mem.lift, np.getitem. by rewrite Hk. Qed.

Lemma reshape_run (a : mem.array) (r c : nat) (h : mem.heap) :
  length (mem.cells h a) = (r * c)%nat →
  mem.reshape a r c h = Ok (mem.Array (mem.buf a) [r; c] (mem.dtype a), h).
Proof.
  intros Hlen. unfold mem.reshape, mem.read. unfold mbind, mem.M_bind.
  by rewrite decide_True.
Qed.

(** Values in the range of an element type are not changed by
    wrap-around. *)
Lemma wrap_in_range (dt : np.dtype) (x : Z) :
  np.dtype_min dt ≤ x ≤ np.dtype_max dt → np.wrap dt x = x.
Proof.
  unfold np.wrap, np.dtype_min, np.dtype_max.
  destruct dt; cbn; intros Hx; rewrite Z.mod_small; lia.
Qed.

(** The run of [remove_unclassified]: the result is a fresh buffer, and
    the heap it started from is extended, not changed. *)
Lemma remove_unclassified_run (h : mem.heap) (preds labels : mem.array)
    (r c : nat) (P L : list Z) :
  mem.shape preds = [r; c] →
  h !! mem.buf preds = Some P → h !! mem.buf labels = Some L →
  length P = (r * c)%nat → length L = (r * c)%nat →
  ∃ b h',
    remove_unclassified preds labels h
    = Ok (mem.Array b [r; c] (mem.dtype preds), h') ∧
    (b ∉ dom h) ∧
    (∀ b', b' ∈ dom h → h' !! b' = h !! b') ∧
    h' !! b = Some (assign_where L 0 0
                      ((λ x, np.wrap (mem.dtype preds) (x + 1)) <$> P)).
Proof.
  intros Hshape HP HL HlenP HlenL.
  set (dt := mem.dtype preds).
  set (P1 := (λ x, np.wrap dt (x + 1)) <$> P).
  set (b1 := fresh (dom h)). set (h1 := <[b1 := P]> h).
  set (b2 := fresh (dom h1)). set (h2 := <[b2 := L]> h1).
  set (h3 := <[b1 := P1]> h2).
  set (b3 := fresh (dom h3)). set (h4 := <[b3 := P1]> h3).
  set (O := assign_where L 0 0 P1).
  assert (b1 ∉ dom h) as Hb1 by apply is_fresh.
  assert (b2 ∉ dom h1) as Hb2 by apply is_fresh.
  assert (b3 ∉ dom h3) as Hb3 by apply is_fresh.
  assert (mem.buf preds ∈ dom h) as HdP by (apply elem_of_dom; eauto).
  assert (mem.buf labels ∈ dom h) as HdL by (apply elem_of_dom; eauto).
  unfold h3 in Hb3. unfold h2 in Hb3. unfold h1 in Hb2, Hb3.
  rewrite !dom_insert_L in Hb3. rewrite dom_insert_L in Hb2.
  apply not_elem_of_union in Hb2 as [H21 Hb2].
  apply not_elem_of_union in Hb3 as [H31 Hb3].
  apply not_elem_of_union in Hb3 as [H32 Hb3].
  apply not_elem_of_union in Hb3 as [_ Hb3].
  apply not_elem_of_singleton in H21, H31, H32.
  assert (∀ b', b' ∈ dom h → b' ≠ b1 ∧ b' ≠ b2 ∧ b' ≠ b3) as Hold.
  { intros b' Hb'. split_and!; intros ->; done. }
  destruct (Hold _ HdP) as (HP1 & HP2 & HP3).
  destruct (Hold _ HdL) as (HL1 & HL2 & HL3).
  assert (length P1 = length P) as HlenP1 by (unfold P1; by rewrite length_fmap).
  exists b3, (<[b3 := O]> h4). split_and!.
  - unfold remove_unclassified.
    rewrite (M_bind_run _ _ h h1 (mem.Array b1 (mem.shape preds) dt)).
    2:{ rewrite copy_run. by rewrite (cells_lookup h preds P). }
    rewrite (M_bind_run _ _ h1 h2 (mem.Array b2 [length L] (mem.dtype labels))).
    2:{ rewrite flatten_run. rewrite (cells_lookup h1 labels L); [done|].
        unfold h1. by rewrite lookup_insert_ne. }
    rewrite (M_bind_run _ _ h2 h2 (np.argwhere_eq L 0)).
    2:{ rewrite argwhere_eq_run. rewrite (cells_lookup h2 _ L); [done|].
        unfold h2. by rewrite lookup_insert_eq. }
    rewrite (M_bind_run _ _ h2 h3 ()).
    2:{ rewrite iadd_run. rewrite (cells_lookup h2 _ P); [done|].
        unfold h2, h1. cbn [mem.buf].
        rewrite lookup_insert_ne by done. by rewrite lookup_insert_eq. }
    rewrite (M_bind_run _ _ h3 h4 (mem.Array b3 [length P] dt)).
    2:{ rewrite flatten_run. rewrite (cells_lookup h3 _ P1).
        - by rewrite HlenP1.
        - unfold h3. cbn [mem.buf]. by rewrite lookup_insert_eq. }
    rewrite (M_bind_run _ _ h4 (<[b3 := O]> h4) ()).
    2:{ apply setitem_idx_run. rewrite (cells_lookup h4 _ P1).
        - apply setitem_idx_argwhere. lia.
        - unfold h4. cbn [mem.buf]. by rewrite lookup_insert_eq. }
    rewrite (M_bind_run _ _ _ _ r) by (apply shape_at_run; by rewrite Hshape).
    rewrite (M_bind_run _ _ _ _ c) by (apply shape_at_run; by rewrite Hshape).
    rewrite reshape_run; [done|].
    rewrite (cells_lookup _ _ O) by (cbn [mem.buf]; by rewrite lookup_insert_eq).
    unfold O. rewrite length_assign_where; lia.
  - done.
  - intros b' Hb'. destruct (Hold _ Hb') as (Hn1 & Hn2 & Hn3).
    unfold h4, h3, h2, h1. by rewrite !lookup_insert_ne.
  - by rewrite lookup_insert_eq.
Qed.

(** The cells of the result. *)
Lemma remove_unclassified_cells (h : mem.heap) (preds labels : mem.array)
    (r c : nat) (P L : list Z) :
  mem.shape preds = [r; c] → mem.shape labels = [r; c] →
  h !! mem.buf preds = Some P → h !! mem.buf labels = Some L →
  length P = (r * c)%nat → length L = (r * c)%nat →
  ∃ out h',
    remove_unclassified preds labels h = Ok (out, h') ∧
    mem.shape out = [r; c] ∧ mem.dtype out = mem.dtype preds ∧
    (mem.buf out ∉ dom h) ∧
    (∀ b, b ∈ dom h → h' !! b = h !! b) ∧
    ∀ i j, (i < r)%nat → (j < c)%nat →
      ∃ s x, mem.cell h labels i j = Some s ∧ mem.cell h preds i j = Some x ∧
             mem.cell h' out i j
             = Some (if decide (s = 0) then 0
                     else np.wrap (mem.dtype preds) (x + 1)).
Proof.
  intros HsP HsL HP HL HlenP HlenL.
  destruct (remove_unclassified_run h preds labels r c P L)
    as (b & h' & Hrun & Hfresh & Hold & Hout); [done..|].
  exists (mem.Array b [r; c] (mem.dtype preds)), h'.
  split_and!; [done..|].
  intros i j Hi Hj.
  pose proof (flat_index_lt r c i j Hi Hj) as Hlt.
  destruct (L !! (i * c + j)%nat) as [s|] eqn:Hs.
  2:{ apply lookup_ge_None in Hs. lia. }
  destruct (P !! (i * c + j)%nat) as [x|] eqn:Hx.
  2:{ apply lookup_ge_None in Hx. lia. }
  exists s, x. unfold mem.cell, mem.cells. rewrite HsP, HsL, HP, HL.
  cbn [mem.shape mem.buf default]. rewrite Hout. cbn [default].
  rewrite !decide_True by done. split_and!; [done..|]. unfold id.
  rewrite (lookup_assign_where _ _ _ _ _ s (np.wrap (mem.dtype preds) (x + 1)));
    [done..|].
  by rewrite list_lookup_fmap, Hx.
Qed.

(** C2 (amended). For two grids [preds] and [labels] of one shape,
    [remove_unclassified] returns a grid of that shape which holds 0 at
    every position where [labels == 0] and, at every other position, the
    prediction plus 1 in the element type of [preds]: the prediction plus
    1 unless the prediction is the largest value of the type, in which
    case the sum wraps around. The cells of [preds] and of [labels] are
    what they were before the call. *)
Theorem remove_unclassified_masks (h : gmap mem.loc (list Z))
    (preds labels : mem.array) (r c : nat) (P L : list Z) :
  mem.shape preds = [r; c] → mem.shape labels = [r; c] →
  h !! mem.buf preds = Some P → h !! mem.buf labels = Some L →
  length P = (r * c)%nat → length L = (r * c)%nat →
  ∃ out h',
    remove_unclassified preds labels h = Ok (out, h') ∧
    mem.shape out = [r; c] ∧
    h' !! mem.buf preds = Some P ∧ h' !! mem.buf labels = Some L ∧
    ∀ i j, (i < r)%nat → (j < c)%nat →
      ∃ s x, mem.cell h labels i j = Some s ∧ mem.cell h preds i j = Some x ∧
             mem.cell h' out i j
             = Some (if decide (s = 0) then 0
                     else np.wrap (mem.dtype preds) (x + 1)) ∧
             (np.dtype_min (mem.dtype preds) ≤ x < np.dtype_max (mem.dtype preds) →
              mem.cell h' out i j = Some (if decide (s = 0) then 0 else x + 1)).
Proof.
  intros HsP HsL HP HL HlenP HlenL.
  destruct (remove_unclassified_cells h preds labels r c P L)
    as (out & h' & Hrun & Hshape & _ & _ & Hold & Hcells); [done..|].
  exists out, h'. split_and!; [done|done| | |].
  - rewrite Hold; [done|]. apply elem_of_dom. eauto.
  - rewrite Hold; [done|]. apply elem_of_dom. eauto.
  - intros i j Hi Hj. destruct (Hcells i j Hi Hj) as (s & x & Hs & Hx & Hout).
    exists s, x. split_and!; [done..|].
    intros Hrange. rewrite Hout. by rewrite wrap_in_range by lia.
Qed.

Lemma remove_unclassified_masks_witness :
  ∃ out h',
    remove_unclassified (mem.Array 1%positive [2; 3]%nat np.int64)
      (mem.Array 2%positive [2; 3]%nat np.int64) ex_heap
    = Ok (out, h') ∧
    h' !! 1%positive = Some [2; 2; 0; 0; 1; 1] ∧
    mem.cell h' out 0 0 = Some 0 ∧ mem.cell h' out 0 2 = Some 1.
Proof.
  destruct (remove_unclassified_masks ex_heap
              (mem.Array 1%positive [2; 3]%nat np.int64)
              (mem.Array 2%positive [2; 3]%nat np.int64) 2 3
              [2; 2; 0; 0; 1; 1] [0; 1; 1; 2; 2; 2]
              eq_refl eq_refl eq_refl eq_refl eq_refl eq_refl)
    as (out & h' & Hrun & _ & HP & _ & Hcells).
  exists out, h'. split_and!; [exact Hrun|exact HP| |].
  - destruct (Hcells 0 0)%nat as (s & x & Hs & Hx & _ & Hout); [lia..|].
    vm_compute in Hs, Hx. injection Hs as <-. injection Hx as <-.
    apply Hout. vm_compute. split; [discriminate|reflexivity].
  - destruct (Hcells 0 2)%nat as (s & x & Hs & Hx & _ & Hout); [lia..|].
    vm_compute in Hs, Hx. injection Hs as <-. injection Hx as <-.
    apply Hout. vm_compute. split; [discriminate|reflexivity].
Defined.

(** C2 as stated, for every grid, fails: in an array of [uint8] a
    prediction 255 at a labelled cell becomes 0, not 256. *)
Lemma masks_and_increments_fails :
  (∃ out h',
     remove_unclassified (mem.Array 1%positive [2; 3]%nat np.uint8)
       (mem.Array 2%positive [2; 3]%nat np.int64) ex_heap_255 = Ok (out, h') ∧
     mem.cell ex_heap_255 (mem.Array 2%positive [2; 3]%nat np.int64) 0 1 = Some 1 ∧
     mem.cell h' out 0 1 = Some 0) ∧
  ¬ masks_and_increments ex_heap_255
      (mem.Array 1%positive [2; 3]%nat np.uint8)
      (mem.Array 2%positive [2; 3]%nat np.int64).
Proof.
  destruct (remove_unclassified_cells ex_heap_255
              (mem.Array 1%positive [2; 3]%nat np.uint8)
              (mem.Array 2%positive [2; 3]%nat np.int64) 2 3
              [2; 255; 0; 0; 1; 1] [0; 1; 1; 2; 2; 2]
              eq_refl eq_refl eq_refl eq_refl eq_refl eq_refl)
    as (out & h' & Hrun & _ & _ & _ & _ & Hcells).
  destruct (Hcells 0 1)%nat as (s & x & Hs & Hx & Hout); [lia..|].
  pose proof Hs as Hs'. pose proof Hx as Hx'.
  vm_compute in Hs', Hx'. injection Hs' as <-. injection Hx' as <-.
  rewrite decide_False in Hout by done.
  change (np.wrap _ (255 + 1)) with 0 in Hout.
  split.
  - exists out, h'. by split_and!.
  - intros (out' & h'' & Hrun' & Hclaim).
    rewrite Hrun in Hrun'. injection Hrun' as <- <-.
    specialize (Hclaim 0%nat 1%nat 1 255 Hs Hx).
    rewrite Hout in Hclaim. discriminate.
Qed.

(** ** Loops over indices and loops of writes *)

Lemma for_each_range_lookup {S X} (body : S → nat → result S)
    (f : S → X → result S) (xs : list X) (s : S) :
  (∀ k x s, xs !! k = Some x → body s k = f s x) →
  for_each body (range (length xs)) s = for_each f xs s.
Proof.
  induction xs as [|x xs IH] using rev_ind; intros Hbody; [done|].
  rewrite length_app, Nat.add_1_r, range_S, !for_each_snoc.
  rewrite IH.
  - destruct (for_each f xs s) as [s'|e]; [simpl|done].
    apply Hbody. rewrite lookup_app_r by lia. by rewrite Nat.sub_diag.
  - intros k y s' Hk. apply Hbody. by apply lookup_app_l_Some.
Qed.

Lemma for_each_fmap {S X Y} (body : S → Y → result S) (f : X → Y)
    (xs : list X) (s : S) :
  for_each body (f <$> xs) s = for_each (λ s x, body s (f x)) xs s.
Proof.
  revert s. induction xs as [|x xs IH]; intros s; [done|].
  rewrite fmap_cons. simpl. destruct (body s (f x)); simpl; [apply IH|done].
Qed.

Lemma for_each_invariant {S X} (I : S → Prop) (body : S → X → result S)
    (xs : list X) (s s' : S) :
  (∀ s x s', I s → body s x = Ok s' → I s') →
  I s → for_each body xs s = Ok s' → I s'.
Proof.
  intros Hbody. revert s. induction xs as [|x xs IH]; intros s Hs Hrun; simpl in Hrun.
  - by injection Hrun as <-.
  - destruct (body s x) as [s1|e] eqn:Hb; [simpl in Hrun|done].
    apply (IH s1); [|done]. by apply (Hbody s x).
Qed.

Lemma getitem2_inside (r c : nat) (g : np.ndarray2) (p : position) :
  grid_of r c g → inside r c p → np.getitem2 g p.1 p.2 = Ok (cell_at g p).
Proof.
  intros (H0 & H1 & Hlen) [Hi Hj]. unfold np.getitem2, cell_at.
  rewrite decide_True by (rewrite H0, H1; done).
  apply getitem_Ok, list_lookup_lookup_total_lt.
  rewrite Hlen, H1. by apply flat_index_lt.
Qed.

Lemma write_cell_Ok (r c : nat) (g : np.ndarray2) (w : position * Z) :
  grid_of r c g → inside r c w.1 →
  ∃ g', write_cell g w = Ok g' ∧ grid_of r c g' ∧
        ∀ p, inside r c p → cell_at g' p = if decide (p = w.1) then w.2 else cell_at g p.
Proof.
  intros (H0 & H1 & Hlen) [Hi Hj]. unfold write_cell, np.setitem2.
  rewrite decide_True by (rewrite H0, H1; done).
  eexists. split; [done|]. split.
  - unfold grid_of. cbn [np.shape0 np.shape1 np.data]. by rewrite length_insert.
  - intros p [Hpi Hpj]. unfold cell_at. cbn [np.shape1 np.data]. rewrite H1.
    destruct (decide (p = w.1)) as [->|Hne].
    + apply list_lookup_total_correct, list_lookup_insert_eq.
      rewrite Hlen. by apply flat_index_lt.
    + rewrite list_lookup_total_insert_ne; [done|]. intros Heq.
      apply flat_index_inj in Heq as [Ha Hb]; [|done..].
      apply Hne. destruct p, w.1. simpl in *. congruence.
Qed.

Lemma write_cell_inv (r c : nat) (g g' : np.ndarray2) (w : position * Z) :
  grid_of r c g → write_cell g w = Ok g' → inside r c w.1.
Proof.
  intros (H0 & H1 & _). unfold write_cell, np.setitem2.
  destruct (decide _) as [Hin|]; [|done]. intros _. by rewrite H0, H1 in Hin.
Qed.

(** A loop of writes inside the grid succeeds. When every write stores the
    value of one function [f] of the position, the written cells hold [f]
    and the others are unchanged. *)
Lemma write_loop (f : position → Z) (r c : nat) (ws : list (position * Z))
    (g : np.ndarray2) :
  grid_of r c g → Forall (λ w, inside r c w.1) ws →
  Forall (λ w, w.2 = f w.1) ws →
  ∃ g', for_each write_cell ws g = Ok g' ∧ grid_of r c g' ∧
        ∀ p, inside r c p →
          cell_at g' p = if decide (p ∈ ws.*1) then f p else cell_at g p.
Proof.
  revert g. induction ws as [|w ws IH]; intros g Hg Hin Hf.
  - exists g. split_and!; [done..|]. intros p Hp.
    destruct (decide (p ∈ [])) as [Hp'|]; [|done]. by apply not_elem_of_nil in Hp'.
  - apply Forall_cons in Hin as [Hw Hin]. apply Forall_cons in Hf as [Hfw Hf].
    destruct (write_cell_Ok r c g w Hg Hw) as (g1 & Hg1 & Hgrid1 & Hcell1).
    destruct (IH g1 Hgrid1 Hin Hf) as (g' & Hg' & Hgrid' & Hcell').
    exists g'. split_and!; [|done|].
    + simpl. rewrite Hg1. simpl. exact Hg'.
    + intros p Hp. rewrite (Hcell' p Hp), (Hcell1 p Hp), fmap_cons.
      destruct (decide (p ∈ ws.*1)) as [Hin'|Hnin].
      * rewrite decide_True; [done|]. by apply list_elem_of_further.
      * destruct (decide (p = w.1)) as [->|Hne].
        -- rewrite decide_True; [done|]. apply list_elem_of_here.
        -- rewrite decide_False; [done|]. rewrite elem_of_cons. tauto.
Qed.

Lemma write_loop_inv (r c : nat) (ws : list (position * Z)) (g g' : np.ndarray2) :
  grid_of r c g → for_each write_cell ws g = Ok g' →
  Forall (λ w, inside r c w.1) ws.
Proof.
  revert g. induction ws as [|w ws IH]; intros g Hg Hrun; [done|].
  simpl in Hrun. destruct (write_cell g w) as [g1|e] eqn:Hw; [simpl in Hrun|done].
  pose proof (write_cell_inv r c g g1 w Hg Hw) as Hin.
  destruct (write_cell_Ok r c g w Hg Hin) as (g1' & Hg1 & Hgrid1 & _).
  assert (g1' = g1) as -> by congruence.
  constructor; [done|]. by apply (IH g1).
Qed.

(** ** [copy_without_outlier] *)

Lemma grid_of_wf (X : np.ndarray2) :
  np.wf X → grid_of (np.shape0 X) (np.shape1 X) X.
Proof. intros HX. by split_and!. Qed.

Section copy_without_outlier.
Variables (X : np.ndarray2) (O : positions).
Hypothesis X_wf : np.wf X.

Lemma copy_row (i n : nat) (l : list Z) (Xp : list position) :
  (i < np.shape0 X)%nat → (n ≤ np.shape1 X)%nat →
  for_each (λ '(l, X_positions) j,
      if decide (contains O (i, j)) then Ok (l, X_positions)
      else x ← np.getitem2 X i j; Ok (l ++ [x], X_positions ++ [(i, j)]))
    (range n) (l, Xp)
  = Ok (l ++ (cell_at X <$> filter (λ p, ¬ contains O p) (pair i <$> range n)),
        Xp ++ filter (λ p, ¬ contains O p) (pair i <$> range n)).
Proof.
  intros Hi. induction n as [|n IH]; intros Hn.
  - simpl. by rewrite !app_nil_r.
  - rewrite range_S, for_each_snoc, IH by lia. cbn [mbind result_bind].
    rewrite fmap_app, filter_app. cbn [fmap list_fmap].
    rewrite filter_cons, filter_nil.
    destruct (decide (contains O (i, n))) as [Hin|Hnin].
    + rewrite decide_False by tauto. by rewrite !app_nil_r.
    + rewrite decide_True by done.
      pose proof (getitem2_inside _ _ X (i, n) (grid_of_wf X X_wf)) as Hget.
      cbn [fst snd] in Hget. rewrite Hget by (split; simpl; lia).
      cbn [mbind result_bind]. by rewrite fmap_app, !app_assoc.
Qed.

Lemma copy_rows (m : nat) :
  (m ≤ np.shape0 X)%nat →
  for_each (λ st i,
    for_each (λ '(l, X_positions) j,
        if decide (contains O (i, j)) then Ok (l, X_positions)
        else x ← np.getitem2 X i j; Ok (l ++ [x], X_positions ++ [(i, j)]))
      (range (np.shape1 X)) st)
    (range m) ([], [])
  = Ok (cell_at X <$> filter (λ p, ¬ contains O p) (all_positions m (np.shape1 X)),
        filter (λ p, ¬ contains O p) (all_positions m (np.shape1 X))).
Proof.
  induction m as [|m IH]; intros Hm; [done|].
  rewrite range_S, for_each_snoc, IH by lia. cbn [mbind result_bind].
  rewrite copy_row by lia.
  unfold all_positions. rewrite range_S, bind_app, filter_app, fmap_app.
  cbn [mbind list_bind]. by rewrite app_nil_r.
Qed.

Lemma copy_without_outlier_spec :
  copy_without_outlier X O
  = Ok (cell_at X <$> kept_positions X O, kept_positions X O).
Proof. unfold copy_without_outlier, kept_positions. by apply copy_rows. Qed.
End copy_without_outlier.

Lemma elem_of_all_positions (r c : nat) (p : position) :
  p ∈ all_positions r c ↔ inside r c p.
Proof.
  unfold all_positions, inside. rewrite list_elem_of_bind. split.
  - intros (i & Hp & Hi). apply list_elem_of_fmap in Hp as (j & -> & Hj).
    apply elem_of_seq in Hi, Hj. simpl. lia.
  - intros [Hi Hj]. exists p.1. split.
    + apply list_elem_of_fmap. exists p.2. split; [by destruct p|].
      apply elem_of_seq. lia.
    + apply elem_of_seq. lia.
Qed.

Lemma elem_of_kept_positions (X : np.ndarray2) (O : positions) (p : position) :
  p ∈ kept_positions X O ↔ ¬ contains O p ∧ inside (np.shape0 X) (np.shape1 X) p.
Proof.
  unfold kept_positions. by rewrite list_elem_of_filter, elem_of_all_positions.
Qed.

(** ** [rebuild_data_with_outliers] *)

Lemma grid_of_empty2 (uninit : nat → Z) (r c : nat) :
  grid_of r c (np.empty2 uninit r c).
Proof.
  unfold grid_of, np.empty2. cbn [np.shape0 np.shape1 np.data].
  by rewrite length_fmap, length_seq.
Qed.

Lemma setitem2_grid_of (r c : nat) (g g' : np.ndarray2) (i j : nat) (v : Z) :
  grid_of r c g → np.setitem2 g i j v = Ok g' → grid_of r c g'.
Proof.
  intros Hg Hset.
  pose proof (write_cell_inv r c g g' ((i, j), v) Hg Hset) as Hin.
  destruct (write_cell_Ok r c g ((i, j), v) Hg Hin) as (g1 & Hg1 & Hgrid & _).
  unfold write_cell in Hg1. cbn [fst snd] in Hg1. congruence.
Qed.

Lemma write_loop_Ok (r c : nat) (ws : list (position * Z)) (g : np.ndarray2) :
  grid_of r c g → Forall (λ w, inside r c w.1) ws →
  ∃ g', for_each write_cell ws g = Ok g' ∧ grid_of r c g'.
Proof.
  revert g. induction ws as [|w ws IH]; intros g Hg Hin; [by exists g|].
  apply Forall_cons in Hin as [Hw Hin].
  destruct (write_cell_Ok r c g w Hg Hw) as (g1 & Hg1 & Hgrid1 & _).
  destruct (IH g1 Hgrid1 Hin) as (g' & Hg' & Hgrid').
  exists g'. split; [|done]. simpl. rewrite Hg1. exact Hg'.
Qed.

(** The loop over [outlier_pos] is a loop of writes of 0. *)
Lemma outlier_loop_writes (O : list position) (g : np.ndarray2) :
  for_each (λ preds j, pos ← np.getitem O j; np.setitem2 preds pos.1 pos.2 0)
    (range (length O)) g
  = for_each write_cell ((λ p, (p, 0)) <$> O) g.
Proof.
  rewrite for_each_fmap.
  apply for_each_range_lookup. intros k pos g' Hk.
  by rewrite (proj2 (getitem_Ok _ _ _) Hk).
Qed.

(** So is the loop over the samples, when no position is missing. *)
Lemma sample_loop_writes (sp : list Z) (Xp : list position) (g : np.ndarray2) :
  (length sp ≤ length Xp)%nat →
  for_each (λ preds i,
      pos ← np.getitem Xp i; v ← np.getitem sp i;
      np.setitem2 preds pos.1 pos.2 (np.float64 v))
    (range (length sp)) g
  = for_each write_cell (zip Xp (np.float64 <$> sp)) g.
Proof.
  intros Hlen.
  replace (length sp) with (length (zip Xp (np.float64 <$> sp)))
    by (rewrite length_zip, length_fmap; lia).
  apply for_each_range_lookup. intros k [pos v] g' Hk.
  apply lookup_zip_with_Some in Hk as (pos' & v' & [= <- <-] & Hpos & Hv).
  apply list_lookup_fmap_Some in Hv as (v0 & -> & Hv).
  rewrite (proj2 (getitem_Ok _ _ _) Hpos). cbn [mbind result_bind].
  by rewrite (proj2 (getitem_Ok _ _ _) Hv).
Qed.

Lemma rebuild_as_writes (uninit : nat → Z) (sp : list Z)
    (Xp O : list position) (shape : nat * nat) :
  (length sp ≤ length Xp)%nat →
  rebuild_data_with_outliers uninit sp Xp O shape
  = for_each write_cell (zip Xp (np.float64 <$> sp))
      (np.empty2 uninit shape.1 shape.2)
    ≫= for_each write_cell ((λ p, (p, 0)) <$> O).
Proof.
  intros Hlen. unfold rebuild_data_with_outliers.
  rewrite sample_loop_writes by done.
  destruct (for_each write_cell _ _) as [g1|e]; [simpl|done].
  apply outlier_loop_writes.
Qed.

(** Whatever the samples, a call that returns has run the outlier writes
    on a grid of the target shape. *)
Lemma rebuild_inv (uninit : nat → Z) (sp : list Z)
    (Xp O : list position) (shape : nat * nat) (g : np.ndarray2) :
  rebuild_data_with_outliers uninit sp Xp O shape = Ok g →
  ∃ g1, grid_of shape.1 shape.2 g1 ∧
        for_each write_cell ((λ p, (p, 0)) <$> O) g1 = Ok g.
Proof.
  unfold rebuild_data_with_outliers. intros Hrun.
  apply bind_Ok in Hrun as (g1 & Hg1 & Hrun).
  exists g1. split; [|by rewrite <-outlier_loop_writes].
  eapply (for_each_invariant (grid_of shape.1 shape.2)); [|apply grid_of_empty2|exact Hg1].
  intros s k s' Hs Hbody.
  apply bind_Ok in Hbody as (pos & _ & Hbody).
  apply bind_Ok in Hbody as (v & _ & Hbody).
  by eapply setitem2_grid_of.
Qed.

Lemma zip_fmap_graph {A B} (f : A → B) (xs : list A) :
  zip xs (f <$> xs) = (λ x, (x, f x)) <$> xs.
Proof. induction xs as [|x xs IH]; [done|]. rewrite !fmap_cons. simpl. by rewrite IH. Qed.

(** C10. In [rebuild_data_with_outliers] the outlier positions take
    precedence: in the grid that a call returns, every position listed in
    [outlier_pos] holds 0, also one that is listed in [X_positions] with a
    sample of its own. The call returns whenever every sample has a
    position and all positions are inside the target shape. *)
Theorem outliers_take_precedence (uninit : nat → Z) (salinas_preds : list Z)
    (X_positions outlier_pos : list position) (target_shape : nat * nat) :
  ((length salinas_preds ≤ length X_positions)%nat →
   Forall (inside target_shape.1 target_shape.2) X_positions →
   Forall (inside target_shape.1 target_shape.2) outlier_pos →
   is_Ok (rebuild_data_with_outliers uninit salinas_preds X_positions
            outlier_pos target_shape)) ∧
  ∀ g, rebuild_data_with_outliers uninit salinas_preds X_positions
         outlier_pos target_shape = Ok g →
       ∀ p, p ∈ outlier_pos → np.getitem2 g p.1 p.2 = Ok 0.
Proof.
  split.
  - intros Hlen HXp HO. rewrite rebuild_as_writes by done.
    destruct (write_loop_Ok target_shape.1 target_shape.2
                (zip X_positions (np.float64 <$> salinas_preds))
                (np.empty2 uninit target_shape.1 target_shape.2))
      as (g1 & -> & Hg1); [apply grid_of_empty2| |].
    { apply Forall_forall. intros [pos v] Hin.
      apply elem_of_zip_l in Hin. rewrite Forall_forall in HXp. by apply HXp. }
    cbn [mbind result_bind].
    destruct (write_loop_Ok target_shape.1 target_shape.2
                ((λ p, (p, 0)) <$> outlier_pos) g1) as (g & Hg & _); [done| |].
    { by apply Forall_fmap. }
    by exists g.
  - intros g Hrun p Hp.
    apply rebuild_inv in Hrun as (g1 & Hg1 & Hrun).
    pose proof (write_loop_inv _ _ _ _ _ Hg1 Hrun) as Hin.
    destruct (write_loop (λ _, 0) _ _ _ g1 Hg1 Hin) as (g' & Hg' & Hgrid & Hcell).
    { apply Forall_fmap. by apply Forall_true. }
    assert (g' = g) as -> by congruence.
    assert (inside target_shape.1 target_shape.2 p) as Hpin.
    { rewrite Forall_fmap, Forall_forall in Hin. by apply Hin. }
    rewrite (getitem2_inside _ _ g p Hgrid Hpin), (Hcell p Hpin).
    rewrite decide_True; [done|].
    rewrite <-list_fmap_compose. by rewrite list_fmap_id.
Qed.

Lemma outliers_take_precedence_witness :
  np.getitem2 (np.Array2 2 2 [5; 7; 7; 0]) 1 1 = Ok 0.
Proof.
  refine (proj2 (outliers_take_precedence (λ _, 7) [5; 6]
                   [(0, 0); (1, 1)]%nat [(1, 1)]%nat (2, 2)%nat)
            _ eq_refl (1, 1)%nat _).
  apply list_elem_of_here.
Defined.

Lemma cell_at_empty2 (uninit : nat → Z) (r c : nat) (p : position) :
  inside r c p → cell_at (np.empty2 uninit r c) p = uninit (p.1 * c + p.2)%nat.
Proof.
  intros [Hi Hj]. unfold cell_at, np.empty2. cbn [np.data np.shape1].
  apply list_lookup_total_correct.
  rewrite list_lookup_fmap, lookup_seq_lt by (by apply flat_index_lt).
  done.
Qed.

(** The rounding of [np.float64] is the one of the machine's conversion,
    here on integers around the powers of two from 2^53 on. *)
Lemma float64_as_PrimFloat :
  Forall (λ x, np.int_of_float (PrimFloat.of_uint63 (Uint63.of_Z x))
               = Ok (np.float64 x))
    [0; 1; 2 ^ 53 - 1; 2 ^ 53; 2 ^ 53 + 1; 2 ^ 53 + 2; 2 ^ 53 + 3;
     2 ^ 54 - 1; 2 ^ 54 + 1; 2 ^ 54 + 2; 2 ^ 54 + 3; 2 ^ 54 + 6;
     2 ^ 55 - 3; 2 ^ 55 - 2; 2 ^ 55 - 1; 2 ^ 60 + 12345678901;
     2 ^ 62 + 2 ^ 9; 2 ^ 62 + 2 ^ 9 + 1; 2 ^ 62 + 3 * 2 ^ 9;
     2 ^ 63 - 1024; 2 ^ 63 - 513; 2 ^ 63 - 512; 2 ^ 63 - 1].
Proof. repeat (constructor; [by vm_compute|]). constructor. Qed.

(** An integer of at most 53 bits is stored exactly. *)
Lemma float64_exact (x : Z) : Z.abs x ≤ 2 ^ 53 → np.float64 x = x.
Proof.
  intros Hx. unfold np.float64. cbv zeta.
  destruct (Z.leb_spec (Z.log2 (Z.abs x) - 52) 0) as [|He]; [done|].
  assert (0 < Z.abs x) as Hpos.
  { destruct (Z.abs x) eqn:Ha; [|lia|lia]. simpl in He. lia. }
  pose proof (Z.log2_spec _ Hpos) as [Hlo _].
  assert (2 ^ 53 ≤ 2 ^ Z.log2 (Z.abs x)) by (apply Z.pow_le_mono_r; lia).
  assert (Z.abs x = 2 ^ 53) as Ha by lia.
  rewrite Ha. change (Z.log2 (2 ^ 53) - 52) with 1.
  change (2 ^ 53 mod 2 ^ 1 <? 2 ^ (1 - 1)) with true. cbv iota.
  change (2 ^ 53 / 2 ^ 1 * 2 ^ 1) with (2 ^ 53). rewrite <-Ha, Z.mul_comm. apply Z.abs_sgn.
Qed.

Lemma contains_ListOfLists (ps : list position) (p : position) :
  contains (ListOfLists ps) p ↔ p ∈ ps.
Proof. done. Qed.

Lemma contains_NdArray (ps : list position) (p : position) :
  contains (NdArray ps) p ↔ ∃ q, q ∈ ps ∧ (q.1 = p.1 ∨ q.2 = p.2).
Proof. simpl. apply Exists_exists. Qed.

(** On an [ndarray] the listed positions are contained, and so is every
    position that shares a row or a column with one of them. *)
Lemma elem_of_items_contains (O : positions) (p : position) :
  (∀ ps, O ≠ ListOfTuples ps) → p ∈ items O → contains O p.
Proof.
  intros HO Hp. destruct O as [ps|ps|ps]; simpl in *.
  - done.
  - by destruct (HO ps).
  - apply Exists_exists. exists p. by split; [|left].
Qed.

(** What the round trip leaves in every cell. *)
Lemma exclude_then_rebuild_cells (uninit : nat → Z) (X : np.ndarray2)
    (O : positions) :
  np.wf X → Forall (inside (np.shape0 X) (np.shape1 X)) (items O) →
  ∃ g, exclude_then_rebuild uninit X O = Ok g ∧
       grid_of (np.shape0 X) (np.shape1 X) g ∧
       ∀ p, inside (np.shape0 X) (np.shape1 X) p →
         cell_at g p
         = if decide (p ∈ items O) then 0
           else if decide (contains O p)
                then uninit (p.1 * np.shape1 X + p.2)%nat
                else np.float64 (cell_at X p).
Proof.
  intros HX HO. unfold exclude_then_rebuild.
  rewrite copy_without_outlier_spec by done. cbn [mbind result_bind].
  rewrite rebuild_as_writes by (by rewrite length_fmap).
  rewrite <-list_fmap_compose, zip_fmap_graph. cbn [fst snd].
  set (r := np.shape0 X) in *. set (c := np.shape1 X) in *.
  destruct (write_loop (np.float64 ∘ cell_at X) r c
              ((λ p, (p, (np.float64 ∘ cell_at X) p)) <$> kept_positions X O)
              (np.empty2 uninit r c))
    as (g1 & -> & Hg1 & Hcell1); [apply grid_of_empty2| | |].
  { apply Forall_fmap, Forall_forall. intros p Hp.
    by apply elem_of_kept_positions in Hp as [_ Hp]. }
  { apply Forall_fmap. by apply Forall_true. }
  cbn [mbind result_bind].
  destruct (write_loop (λ _, 0) r c ((λ p, (p, 0)) <$> items O) g1)
    as (g & -> & Hg & Hcell); [done| | |].
  { by apply Forall_fmap. }
  { apply Forall_fmap. by apply Forall_true. }
  exists g. split_and!; [done..|].
  intros p Hin.
  rewrite (Hcell _ Hin), <-list_fmap_compose, list_fmap_id.
  destruct (decide (p ∈ items O)) as [HinO|HninO]; [done|].
  rewrite (Hcell1 _ Hin), <-list_fmap_compose, list_fmap_id.
  destruct (decide (contains O p)) as [Hc|Hc].
  - rewrite decide_False by (rewrite elem_of_kept_positions; tauto).
    by apply cell_at_empty2.
  - rewrite decide_True by (apply elem_of_kept_positions; by split).
    done.
Qed.

(** C3. For a grid [X] and positions [O] inside it, rebuilding from what
    [copy_without_outlier] returns, with the same [O] and [X.shape],
    gives a grid of the shape of [X] that holds 0 at every position
    listed in [O]. A cell that is not listed holds the cell of [X]
    converted to [float64], except when [[i, j] in O] is true for it:
    such a cell was not copied and holds what [np.empty] left there. So
    the rebuilt grid equals [X] outside [O] when [in] is true of the
    listed positions only (a list of lists, a list of tuples) and no cell
    of [X] has more than 53 bits. *)
Theorem exclude_then_rebuild_roundtrip (uninit : nat → Z) (X : np.ndarray2)
    (O : positions) :
  np.wf X → Forall (inside (np.shape0 X) (np.shape1 X)) (items O) →
  (∃ g, exclude_then_rebuild uninit X O = Ok g ∧
     np.shape0 g = np.shape0 X ∧ np.shape1 g = np.shape1 X ∧
     ∀ i j x, (i < np.shape0 X)%nat → (j < np.shape1 X)%nat →
       np.getitem2 X i j = Ok x →
       np.getitem2 g i j
       = Ok (if decide ((i, j) ∈ items O) then 0
             else if decide (contains O (i, j))
                  then uninit (i * np.shape1 X + j)%nat
                  else np.float64 x)) ∧
  ((∀ p, contains O p → p ∈ items O) →
   Forall (λ x, Z.abs x ≤ 2 ^ 53) (np.data X) →
   roundtrip uninit X O).
Proof.
  intros HX HO.
  destruct (exclude_then_rebuild_cells uninit X O HX HO) as (g & Hg & Hgrid & Hcell).
  assert (∀ i j, (i < np.shape0 X)%nat → (j < np.shape1 X)%nat →
            np.getitem2 X i j = Ok (cell_at X (i, j)) ∧
            np.getitem2 g i j = Ok (cell_at g (i, j))) as Hget.
  { intros i j Hi Hj. split.
    - by apply (getitem2_inside _ _ X (i, j) (grid_of_wf X HX)).
    - by apply (getitem2_inside _ _ g (i, j) Hgrid). }
  split.
  - exists g. destruct Hgrid as (H0 & H1 & _). split_and!; [done..|].
    intros i j x Hi Hj Hx. destruct (Hget i j Hi Hj) as [HgetX ->].
    rewrite HgetX in Hx. injection Hx as <-. f_equal.
    by rewrite (Hcell (i, j)).
  - intros Hlist Hbits. exists g. split; [done|].
    intros i j Hi Hj. destruct (Hget i j Hi Hj) as [-> ->].
    rewrite (Hcell (i, j)) by done.
    destruct (decide ((i, j) ∈ items O)) as [HinO|HninO].
    { by rewrite decide_True. }
    rewrite decide_False by done.
    rewrite decide_False by (intros Hc; by apply HninO, Hlist).
    f_equal. apply float64_exact.
    rewrite Forall_forall in Hbits. apply Hbits.
    unfold cell_at. apply list_elem_of_lookup_total_2.
    destruct (grid_of_wf X HX) as (_ & _ & ->). by apply flat_index_lt.
Qed.

Lemma exclude_then_rebuild_roundtrip_witness :
  roundtrip (λ _, 7) (np.of_rows [[1; 2]; [3; 4]]) (ListOfLists [(0, 1)%nat]).
Proof.
  apply (exclude_then_rebuild_roundtrip (λ _, 7)
           (np.of_rows [[1; 2]; [3; 4]]) (ListOfLists [(0, 1)%nat])).
  - reflexivity.
  - apply (bool_decide_unpack _). vm_compute. exact I.
  - intros p Hp. exact Hp.
  - apply (bool_decide_unpack _). vm_compute. exact I.
Defined.

(** With the positions in an [ndarray] the cells that share a row or a
    column with an outlier are lost, and a cell of more than 53 bits comes
    back rounded. *)
Lemma roundtrip_fails :
  exclude_then_rebuild (λ _, 7) (np.of_rows [[1; 2]; [3; 4]])
    (NdArray [(0, 1)%nat])
  = Ok (np.of_rows [[7; 0]; [3; 7]]) ∧
  ¬ roundtrip (λ _, 7) (np.of_rows [[1; 2]; [3; 4]]) (NdArray [(0, 1)%nat]) ∧
  exclude_then_rebuild (λ _, 7) (np.of_rows [[2 ^ 53 + 1]]) (ListOfLists [])
  = Ok (np.of_rows [[2 ^ 53]]) ∧
  ¬ roundtrip (λ _, 7) (np.of_rows [[2 ^ 53 + 1]]) (ListOfLists []).
Proof.
  split_and!.
  - by vm_compute.
  - intros (g & Hg & Hcells). vm_compute in Hg. injection Hg as <-.
    pose proof (Hcells 0%nat 0%nat ltac:(simpl; lia) ltac:(simpl; lia)) as H.
    vm_compute in H. discriminate.
  - by vm_compute.
  - intros (g & Hg & Hcells). vm_compute in Hg. injection Hg as <-.
    pose proof (Hcells 0%nat 0%nat ltac:(simpl; lia) ltac:(simpl; lia)) as H.
    vm_compute in H. discriminate.
Qed.

(** ** [split_x_train_test] *)

(** When the fraction fits, [int(count * train_split)] is the train
    count of the class, which is at most the count. *)
Lemma int_of_product_fits (cnt : nat) (ts : float) :
  fraction_fits cnt ts →
  int_of_product cnt ts = Ok (Z.of_nat (train_count cnt ts)).
Proof.
  unfold fraction_fits, train_count.
  destruct (int_of_product cnt ts) as [idx|e]; [|done].
  intros Hidx. f_equal. lia.
Qed.

Lemma train_count_le (cnt : nat) (ts : float) :
  fraction_fits cnt ts → (train_count cnt ts ≤ cnt)%nat.
Proof.
  unfold fraction_fits, train_count.
  destruct (int_of_product cnt ts) as [idx|e]; [|done]. lia.
Qed.

Lemma take_min_length {A} (l : list A) (n : nat) :
  take (n `min` length l) l = take n l.
Proof.
  destruct (decide (n ≤ length l)%nat).
  - by rewrite Nat.min_l.
  - rewrite Nat.min_r by lia. by rewrite !take_ge by lia.
Qed.

(** A slice between two bounds that are not negative. *)
Lemma slice_nat {A} (a : list A) (s k : nat) :
  np.slice a (Z.of_nat s) (Z.of_nat s + Z.of_nat k) = take k (drop s a).
Proof.
  unfold np.slice, np.slice_bound.
  rewrite !(proj2 (Z.ltb_ge _ _)) by lia.
  destruct (decide (s ≤ length a)%nat) as [Hs|Hs].
  - rewrite (Z.min_l (Z.of_nat s)) by lia. rewrite Nat2Z.id.
    rewrite <-(take_min_length (drop s a) k), length_drop. f_equal. lia.
  - rewrite (Z.min_r (Z.of_nat s)) by lia. rewrite Nat2Z.id.
    rewrite !drop_ge by lia. by rewrite !take_nil.
Qed.

Lemma take_rows_Ok (X : np.ndarray2) (idx : list nat) :
  Forall (λ i, i < np.shape0 X)%nat idx →
  np.take_rows X idx = Ok (np.Array2 (length idx) (np.shape1 X) (rows_data X idx)).
Proof.
  intros Hidx. unfold np.take_rows, rows_data.
  assert (∀ acc, for_each (λ acc i,
              if decide (i < np.shape0 X)%nat then Ok (acc ++ [np.row X i])
              else Raise IndexError) idx acc = Ok (acc ++ (np.row X <$> idx))) as Hloop.
  { induction Hidx as [|i idx Hi Hidx IH]; intros acc; simpl.
    - by rewrite app_nil_r.
    - rewrite decide_True by done. simpl. rewrite IH. by rewrite <-app_assoc. }
  by rewrite Hloop.
Qed.

Lemma vstack_Ok (X : np.ndarray2) (a : np.ndarray) (idx : list nat) :
  np.shape1 (np.atleast_2d a) = np.shape1 X →
  np.vstack a (np.Array2 (length idx) (np.shape1 X) (rows_data X idx))
  = Ok (stack X a idx).
Proof. intros Hw. unfold np.vstack. cbn [np.shape1]. by rewrite decide_True. Qed.

Lemma full_Ok {A} (k : nat) (v : A) : np.full (Z.of_nat k) v = Ok (replicate k v).
Proof.
  unfold np.full. rewrite (proj2 (Z.ltb_ge _ _)) by lia. by rewrite Nat2Z.id.
Qed.

Section split.
Variables (X : np.ndarray2) (count A : list nat) (ts : float).
Hypothesis A_rows : Forall (λ i, i < np.shape0 X)%nat A.

Lemma class_block_rows (s cnt k : nat) :
  Forall (λ i, i < np.shape0 X)%nat (take k (class_block A s cnt)) ∧
  Forall (λ i, i < np.shape0 X)%nat (drop k (class_block A s cnt)).
Proof.
  unfold class_block.
  split; [apply Forall_take|apply Forall_drop]; by apply Forall_take, Forall_drop.
Qed.

Lemma split_body_step (st : split_state) (cluster : nat) :
  split_ready X st → (cluster < length count)%nat →
  fraction_fits (count !!! cluster) ts →
  split_body X count A ts st cluster = Ok (split_step X count A ts st cluster) ∧
  split_ready X (split_step X count A ts st cluster).
Proof.
  intros (Hsum & Hwtr & Hwte) Hcl Hfits. split.
  2:{ unfold split_ready, split_step. cbn [sum_ x_train x_test]. split; [lia|done]. }
  unfold split_body, split_step.
  rewrite (proj2 (getitem_Ok count cluster (count !!! cluster)))
    by (by apply list_lookup_lookup_total_lt).
  cbn [mbind result_bind].
  set (cnt := count !!! cluster). set (k := train_count cnt ts).
  pose proof (train_count_le cnt ts Hfits) as Hk. fold k in Hk.
  rewrite int_of_product_fits by done. fold k. cbn [mbind result_bind].
  destruct st as [sum xtr xte ytr yte]. cbn [sum_ x_train x_test y_train y_test] in *.
  remember (Z.to_nat sum) as s eqn:Es.
  assert (sum = Z.of_nat s) as -> by lia. clear Es Hsum.
  destruct (class_block_rows s cnt k) as [Htr Hte].
  assert (np.slice A (Z.of_nat s) (Z.of_nat s + Z.of_nat k)
          = take k (class_block A s cnt)) as ->.
  { rewrite slice_nat. unfold class_block. by rewrite take_take, Nat.min_l. }
  assert (np.slice A (Z.of_nat s + Z.of_nat k) (Z.of_nat s + Z.of_nat cnt)
          = drop k (class_block A s cnt)) as ->.
  { replace (Z.of_nat s + Z.of_nat k) with (Z.of_nat (s + k)) by lia.
    replace (Z.of_nat s + Z.of_nat cnt)
      with (Z.of_nat (s + k) + Z.of_nat (cnt - k)) by lia.
    rewrite slice_nat. unfold class_block.
    transitivity (take (cnt - k) (drop k (drop s A))).
    - by rewrite drop_drop.
    - rewrite take_drop_commute. do 2 f_equal. lia. }
  rewrite take_rows_Ok by done. cbn [mbind result_bind].
  rewrite vstack_Ok by done. cbn [mbind result_bind].
  rewrite take_rows_Ok by done. cbn [mbind result_bind].
  rewrite vstack_Ok by done. cbn [mbind result_bind].
  rewrite full_Ok. cbn [mbind result_bind].
  replace (Z.of_nat cnt - Z.of_nat k) with (Z.of_nat (cnt - k)) by lia.
  by rewrite full_Ok.
Qed.

Lemma split_loop (labels : list nat) (st : split_state) :
  split_ready X st → Forall (λ cluster, cluster < length count)%nat labels →
  Forall (λ cluster, fraction_fits (count !!! cluster) ts) labels →
  for_each (split_body X count A ts) labels st
  = Ok (foldl (split_step X count A ts) st labels).
Proof.
  revert st. induction labels as [|cl labels IH]; intros st Hst Hcl Hfits; [done|].
  apply Forall_cons in Hcl as [Hcl Hlabels].
  apply Forall_cons in Hfits as [Hfit Hfits].
  destruct (split_body_step st cl Hst Hcl Hfit) as [Hbody Hready].
  simpl. rewrite Hbody. cbn [mbind result_bind]. by apply IH.
Qed.
End split.

Lemma stack_stack (X : np.ndarray2) (a : np.ndarray) (idx idx' : list nat) :
  stack X (stack X a idx) idx' = stack X a (idx ++ idx').
Proof.
  unfold stack, rows_data. cbn [np.atleast_2d np.shape0 np.data].
  by rewrite fmap_app, concat_app, length_app, !app_assoc, Nat.add_assoc.
Qed.

Lemma len_stacked (X : np.ndarray2) (seed : np.ndarray) (labels idx : list nat) :
  np.len (stacked X seed labels idx)
  = (seed_rows seed labels + match labels with [] => 0 | _ => length idx end)%nat.
Proof. destruct labels; simpl; [lia|done]. Qed.

Section split_result.
Variables (X : np.ndarray2) (count A : list nat) (ts : float).

Lemma foldl_split_step (labels : list nat) (st : split_state) :
  0 ≤ sum_ st →
  foldl (split_step X count A ts) st labels
  = SplitState (sum_ st + Z.of_nat (total_count count labels))
      (stacked X (x_train st) labels
         (train_indices count A ts labels (Z.to_nat (sum_ st))))
      (stacked X (x_test st) labels
         (test_indices count A ts labels (Z.to_nat (sum_ st))))
      (y_train st ++ (labels ≫= λ cl, replicate (train_count (count !!! cl) ts) cl))
      (y_test st ++
         (labels ≫= λ cl, replicate (count !!! cl - train_count (count !!! cl) ts) cl)).
Proof.
  revert st. induction labels as [|cl labels IH]; intros st Hsum.
  - destruct st. unfold total_count. simpl. by rewrite Z.add_0_r, !app_nil_r.
  - cbn [foldl]. rewrite IH by (unfold split_step; cbn [sum_]; lia).
    unfold split_step at 1 2 3 4 5 6 7. cbn [sum_ x_train x_test y_train y_test].
    replace (Z.to_nat (sum_ st + Z.of_nat (count !!! cl)))
      with (Z.to_nat (sum_ st) + count !!! cl)%nat by lia.
    f_equal.
    + unfold total_count. cbn [sum_list_with]. lia.
    + cbn [stacked train_indices]. destruct labels; simpl.
      * by rewrite app_nil_r.
      * by rewrite stack_stack.
    + cbn [stacked test_indices]. destruct labels; simpl.
      * by rewrite app_nil_r.
      * by rewrite stack_stack.
    + by rewrite <-app_assoc.
    + by rewrite <-app_assoc.
Qed.

Lemma length_train_test_indices (labels : list nat) (s : nat) :
  (length (train_indices count A ts labels s)
   + length (test_indices count A ts labels s)
   = total_count count labels `min` (length A - s))%nat.
Proof.
  revert s. induction labels as [|cl labels IH]; intros s; [done|].
  cbn [train_indices test_indices]. rewrite !length_app.
  pose proof (IH (s + count !!! cl)%nat) as IH'.
  assert (length (take (train_count (count !!! cl) ts)
                    (class_block A s (count !!! cl)))
          + length (drop (train_count (count !!! cl) ts)
                      (class_block A s (count !!! cl)))
          = count !!! cl `min` (length A - s))%nat as Hblock.
  { rewrite <-length_app, take_drop. unfold class_block.
    by rewrite length_take, length_drop. }
  unfold total_count in *. cbn [sum_list_with]. lia.
Qed.

Lemma length_train_indices (labels : list nat) (s : nat) :
  Forall (λ cluster, fraction_fits (count !!! cluster) ts) labels →
  (s + total_count count labels ≤ length A)%nat →
  length (train_indices count A ts labels s)
  = length (labels ≫= λ cl, replicate (train_count (count !!! cl) ts) cl).
Proof.
  intros Hfits. revert s.
  induction Hfits as [|cl labels Hfit Hfits IH]; intros s Hs; [done|].
  cbn [train_indices]. rewrite bind_cons, !length_app.
  unfold total_count in *. cbn [sum_list_with] in Hs.
  rewrite IH by lia. f_equal.
  pose proof (train_count_le (count !!! cl) ts Hfit).
  unfold class_block. rewrite !length_take, length_drop, length_replicate. lia.
Qed.

Lemma length_test_indices (labels : list nat) (s : nat) :
  Forall (λ cluster, fraction_fits (count !!! cluster) ts) labels →
  (s + total_count count labels ≤ length A)%nat →
  length (test_indices count A ts labels s)
  = length (labels ≫= λ cl,
      replicate (count !!! cl - train_count (count !!! cl) ts) cl).
Proof.
  intros Hfits. revert s.
  induction Hfits as [|cl labels Hfit Hfits IH]; intros s Hs; [done|].
  cbn [test_indices]. rewrite bind_cons, !length_app.
  unfold total_count in *. cbn [sum_list_with] in Hs.
  rewrite IH by lia. f_equal.
  pose proof (train_count_le (count !!! cl) ts Hfit).
  unfold class_block. rewrite length_drop, !length_take, length_drop, length_replicate.
  lia.
Qed.

Lemma length_train_test_ys (labels : list nat) :
  Forall (λ cluster, fraction_fits (count !!! cluster) ts) labels →
  (length (labels ≫= λ cl, replicate (train_count (count !!! cl) ts) cl)
   + length (labels ≫= λ cl,
       replicate (count !!! cl - train_count (count !!! cl) ts) cl)
   = total_count count labels)%nat.
Proof.
  induction 1 as [|cl labels Hfit Hfits IH]; [done|].
  rewrite !bind_cons, !length_app, !length_replicate.
  pose proof (train_count_le (count !!! cl) ts Hfit).
  unfold total_count in *. cbn [sum_list_with]. lia.
Qed.
End split_result.

Lemma total_count_app (count pre post : list nat) :
  total_count count (pre ++ post)
  = (total_count count pre + total_count count post)%nat.
Proof. unfold total_count. apply sum_list_with_app. Qed.

Lemma train_indices_app (count A : list nat) (ts : float) (pre post : list nat) (s : nat) :
  train_indices count A ts (pre ++ post) s
  = train_indices count A ts pre s
    ++ train_indices count A ts post (s + total_count count pre).
Proof.
  revert s. induction pre as [|cl pre IH]; intros s.
  - simpl. by rewrite Nat.add_0_r.
  - cbn [app train_indices]. rewrite IH, <-app_assoc. do 3 f_equal.
    unfold total_count. cbn [sum_list_with]. lia.
Qed.

Lemma test_indices_app (count A : list nat) (ts : float) (pre post : list nat) (s : nat) :
  test_indices count A ts (pre ++ post) s
  = test_indices count A ts pre s
    ++ test_indices count A ts post (s + total_count count pre).
Proof.
  revert s. induction pre as [|cl pre IH]; intros s.
  - simpl. by rewrite Nat.add_0_r.
  - cbn [app test_indices]. rewrite IH, <-app_assoc. do 3 f_equal.
    unfold total_count. cbn [sum_list_with]. lia.
Qed.

(** A block that lies within [labels_argsort] has all its [cnt] entries,
    of which the first [floor(cnt * train_fraction)] go to train. *)
Lemma class_block_complete (A : list nat) (ts : float) (s cnt : nat) :
  fraction_fits cnt ts → (s + cnt ≤ length A)%nat →
  length (class_block A s cnt) = cnt ∧
  length (take (train_count cnt ts) (class_block A s cnt)) = train_count cnt ts ∧
  length (drop (train_count cnt ts) (class_block A s cnt))
  = (cnt - train_count cnt ts)%nat.
Proof.
  intros Hfit Hs. pose proof (train_count_le cnt ts Hfit).
  unfold class_block. rewrite length_drop, !length_take, length_drop. lia.
Qed.

Lemma split_ready_seed (uninit : nat → Z) (X : np.ndarray2) (size : np.size_arg) :
  size_width size = np.shape1 X →
  split_ready X (SplitState 0 (np.empty uninit size) (np.empty uninit size) [] []).
Proof.
  intros Hw. unfold split_ready. cbn [sum_ x_train x_test].
  split; [done|].
  destruct size; cbn [np.empty np.atleast_2d np.shape1 np.empty2 size_width] in *;
    by rewrite ?length_fmap, ?length_seq.
Qed.

(** What [split_x_train_test] returns on the inputs it may be given. *)
Lemma split_x_train_test_spec (uninit : nat → Z) (X : np.ndarray2)
    (count labels A : list nat) (size : np.size_arg) (ts : float) :
  split_inputs X count labels A size ts →
  split_x_train_test uninit X count labels A size ts
  = Ok (stacked X (np.empty uninit size) labels (train_indices count A ts labels 0),
        stacked X (np.empty uninit size) labels (test_indices count A ts labels 0),
        labels ≫= (λ cl, replicate (train_count (count !!! cl) ts) cl),
        labels ≫= (λ cl, replicate (count !!! cl - train_count (count !!! cl) ts) cl)).
Proof.
  intros (Hcl & HA & Hw & Hfits). unfold split_x_train_test.
  rewrite split_loop; [|done|by apply split_ready_seed|done|done].
  cbn [mbind result_bind]. by rewrite foldl_split_step.
Qed.

Lemma seed_rows_0 (uninit : nat → Z) (d : nat) (labels : list nat) :
  seed_rows (np.empty uninit (np.SizeShape 0 d)) labels = 0%nat.
Proof. by destruct labels. Qed.

(** The product is the machine's: [int(90 * 0.7)] is 62, and
    [int(5 * 0.6)] is 3. *)
Lemma int_of_product_rounds :
  int_of_product 90 fraction_0_7 = Ok 62 ∧ int_of_product 5 fraction_0_6 = Ok 3.
Proof. by vm_compute. Qed.

(** C7 (amended). For a split call whose per-class counts sum to the
    length N of the shuffled array, the train and test feature arrays
    together have N rows besides the rows of the two seeds
    [np.empty(size)] that they are stacked on: exactly N when
    [size = (0, width)], N + 2 when [size] is an integer width. Class by
    class, the first [int(count * train_split)] entries of the block
    of the class go to train and the remainder to test, the product being
    the [float64] product: its floor, for a fraction that fits the
    class. *)
Theorem split_rows_and_train_counts (uninit : nat → Z) (X_shuffle : np.ndarray2)
    (count labels labels_argsort : list nat) (size : np.size_arg)
    (train_split : float) :
  split_inputs X_shuffle count labels labels_argsort size train_split →
  length labels_argsort = np.shape0 X_shuffle →
  total_count count labels = np.shape0 X_shuffle →
  ∃ xtr xte ytr yte,
    split_x_train_test uninit X_shuffle count labels labels_argsort size train_split
    = Ok (xtr, xte, ytr, yte) ∧
    (np.len xtr + np.len xte
     = np.shape0 X_shuffle + 2 * seed_rows (np.empty uninit size) labels)%nat ∧
    (∀ d, size = np.SizeShape 0 d →
       (np.len xtr + np.len xte = np.shape0 X_shuffle)%nat) ∧
    ytr = labels ≫= (λ cl, replicate (train_count (count !!! cl) train_split) cl) ∧
    yte = labels ≫= (λ cl,
            replicate (count !!! cl - train_count (count !!! cl) train_split) cl) ∧
    np.len xtr = (seed_rows (np.empty uninit size) labels + length ytr)%nat ∧
    np.len xte = (seed_rows (np.empty uninit size) labels + length yte)%nat ∧
    xtr = stacked X_shuffle (np.empty uninit size) labels
            (train_indices count labels_argsort train_split labels 0) ∧
    xte = stacked X_shuffle (np.empty uninit size) labels
            (test_indices count labels_argsort train_split labels 0) ∧
    (∀ pre cl post, labels = pre ++ cl :: post →
       let block := class_block labels_argsort (total_count count pre) (count !!! cl) in
       int_of_product (count !!! cl) train_split
       = Ok (Z.of_nat (train_count (count !!! cl) train_split)) ∧
       length block = count !!! cl ∧
       length (take (train_count (count !!! cl) train_split) block)
       = train_count (count !!! cl) train_split ∧
       length (drop (train_count (count !!! cl) train_split) block)
       = (count !!! cl - train_count (count !!! cl) train_split)%nat).
Proof.
  intros Hin HN Hsum. pose proof Hin as (_ & _ & _ & Hfits).
  eexists _, _, _, _. split; [by apply split_x_train_test_spec|].
  assert (0 + total_count count labels ≤ length labels_argsort)%nat as Hfit by lia.
  pose proof (length_train_indices count labels_argsort train_split labels 0 Hfits Hfit)
    as Htr.
  pose proof (length_test_indices count labels_argsort train_split labels 0 Hfits Hfit)
    as Hte.
  pose proof (length_train_test_ys count train_split labels Hfits) as Hys.
  assert (np.len (stacked X_shuffle (np.empty uninit size) labels
                    (train_indices count labels_argsort train_split labels 0))
          = (seed_rows (np.empty uninit size) labels
             + length (labels ≫= λ cl,
                 replicate (train_count (count !!! cl) train_split) cl))%nat) as Hlen_tr.
  { rewrite len_stacked, <-Htr. by destruct labels. }
  assert (np.len (stacked X_shuffle (np.empty uninit size) labels
                    (test_indices count labels_argsort train_split labels 0))
          = (seed_rows (np.empty uninit size) labels
             + length (labels ≫= λ cl,
                 replicate (count !!! cl - train_count (count !!! cl) train_split) cl))%nat)
    as Hlen_te.
  { rewrite len_stacked, <-Hte. by destruct labels. }
  split_and!; [|intros d ->|done..|].
  - rewrite Hlen_tr, Hlen_te. lia.
  - rewrite Hlen_tr, Hlen_te, seed_rows_0. lia.
  - intros pre cl post ->. cbv zeta.
    assert (fraction_fits (count !!! cl) train_split) as Hcl.
    { rewrite Forall_forall in Hfits. apply Hfits.
      rewrite elem_of_app, elem_of_cons. tauto. }
    split; [by apply int_of_product_fits|].
    apply class_block_complete; [done|].
    rewrite total_count_app in Hfit. unfold total_count in Hfit at 2.
    cbn [sum_list_with] in Hfit. lia.
Qed.

Lemma split_rows_and_train_counts_witness :
  split_complete (λ _, 7) ex_X [2; 2]%nat [0; 1]%nat [0; 1; 2; 3]%nat
    (np.SizeShape 0 2) default_train_split.
Proof.
  destruct (split_rows_and_train_counts (λ _, 7) ex_X [2; 2]%nat [0; 1]%nat
              [0; 1; 2; 3]%nat (np.SizeShape 0 2) default_train_split)
    as (xtr & xte & ytr & yte & Hrun & _ & Hzero & _).
  - apply (bool_decide_unpack _). vm_compute. exact I.
  - reflexivity.
  - reflexivity.
  - exists xtr, xte, ytr, yte. split; [exact Hrun|]. exact (Hzero 2%nat eq_refl).
Defined.

(** C7 as stated fails: with an integer [size], the feature width 2, each
    of the two arrays starts with the row of [np.empty(2)]; four samples
    give 3 + 3 rows. And the train count is the truncated [float64]
    product, which is not always the floor of the product: for a class of
    5 and the fraction 0.6 it is 3, the floor being 2. *)
Lemma split_complete_fails :
  total_count [2; 2]%nat [0; 1]%nat = length [0; 1; 2; 3]%nat ∧
  ¬ split_complete (λ _, 7) ex_X [2; 2]%nat [0; 1]%nat [0; 1; 2; 3]%nat
      (np.SizeInt 2) default_train_split ∧
  int_of_product 5 fraction_0_6 = Ok 3 ∧ floor_of_product 5 fraction_0_6 = 2.
Proof.
  split_and!; [reflexivity| |by vm_compute..].
  intros (xtr & xte & ytr & yte & Hrun & Hlen).
  vm_compute in Hrun. injection Hrun as <- <- <- <-. vm_compute in Hlen. lia.
Qed.

(** C8 (amended). The split checks no sizes: on the inputs it may be
    given it returns, whatever the counts sum to. The two feature arrays
    then hold, besides the seed rows, as many rows as the smaller of the
    sum of the counts and the length of [labels_argsort], and the two
    class-id arrays as many entries as the sum of the counts. *)
Theorem split_checks_no_size (uninit : nat → Z) (X_shuffle : np.ndarray2)
    (count labels labels_argsort : list nat) (size : np.size_arg)
    (train_split : float) :
  split_inputs X_shuffle count labels labels_argsort size train_split →
  ∃ xtr xte ytr yte,
    split_x_train_test uninit X_shuffle count labels labels_argsort size train_split
    = Ok (xtr, xte, ytr, yte) ∧
    (np.len xtr + np.len xte
     = total_count count labels `min` length labels_argsort
       + 2 * seed_rows (np.empty uninit size) labels)%nat ∧
    (length ytr + length yte = total_count count labels)%nat.
Proof.
  intros Hin. pose proof Hin as (_ & _ & _ & Hfits).
  eexists _, _, _, _. split; [by apply split_x_train_test_spec|].
  split; [|by apply length_train_test_ys].
  pose proof (length_train_test_indices count labels_argsort train_split labels 0)
    as Hlen.
  rewrite !len_stacked. destruct labels; simpl in *; lia.
Qed.

Lemma split_checks_no_size_witness :
  ∃ xtr xte ytr yte,
    split_x_train_test (λ _, 7) ex_X [2]%nat [0]%nat [0; 1; 2; 3]%nat
      (np.SizeShape 0 2) default_train_split
    = Ok (xtr, xte, ytr, yte) ∧
    (np.len xtr + np.len xte = 2)%nat.
Proof.
  destruct (split_checks_no_size (λ _, 7) ex_X [2]%nat [0]%nat
              [0; 1; 2; 3]%nat (np.SizeShape 0 2) default_train_split)
    as (xtr & xte & ytr & yte & Hrun & Hrows & _).
  - apply (bool_decide_unpack _). vm_compute. exact I.
  - exists xtr, xte, ytr, yte. split; [exact Hrun|]. exact Hrows.
Defined.

(** C8 as stated fails: with one class of count 2 and an array of four
    rows the call returns, with one train row and one test row. *)
Lemma size_mismatch_raises_fails :
  split_x_train_test (λ _, 7) ex_X [2]%nat [0]%nat [0; 1; 2; 3]%nat
    (np.SizeShape 0 2) default_train_split
  = Ok (np.A2 (np.of_rows [[1; 2]]), np.A2 (np.of_rows [[3; 4]]), [0%nat], [0%nat]) ∧
  ¬ size_mismatch_raises (λ _, 7) ex_X [2]%nat [0]%nat [0; 1; 2; 3]%nat
      (np.SizeShape 0 2) default_train_split.
Proof.
  split; [vm_compute; reflexivity|].
  intros Hraise. destruct Hraise as [e He].
  - vm_compute. lia.
  - vm_compute in He. discriminate.
Qed.

(** ** [calculate_mean_score] *)

Lemma take_idx_Ok {A} `{Inhabited A} (a : list A) (idx : list nat) :
  Forall (λ i, i < length a)%nat idx →
  np.take_idx a idx = Ok ((λ i, a !!! i) <$> idx).
Proof.
  intros Hidx. unfold np.take_idx.
  assert (∀ acc, for_each (λ acc i, x ← np.getitem a i; Ok (acc ++ [x])) idx acc
                 = Ok (acc ++ ((λ i, a !!! i) <$> idx))) as Hloop.
  { induction Hidx as [|i idx Hi Hidx IH]; intros acc; simpl.
    - by rewrite app_nil_r.
    - rewrite (proj2 (getitem_Ok a i (a !!! i)))
        by (by apply list_lookup_lookup_total_lt).
      simpl. rewrite IH. by rewrite <-app_assoc. }
  by rewrite Hloop.
Qed.

Section mean_score.
Context `{Scorer Model}.
Variables (x_labels : np.ndarray2) (y_labels : list Z) (model : Model).
Hypothesis x_rows : np.shape0 x_labels = length y_labels.

(** The loop adds the score of each class to [mean_score]. *)
Lemma mean_score_loop (labels : list Z) (acc : Q) :
  for_each (λ mean_score cluster,
      let idxs := np.argwhere_eq y_labels cluster in
      xs ← np.take_rows x_labels idxs;
      ys ← np.take_idx y_labels idxs;
      Ok (mean_score + score model xs ys)%Q)
    labels acc
  = Ok (foldl (λ acc cluster, acc + class_score model x_labels y_labels cluster)%Q
          acc labels).
Proof.
  revert acc. induction labels as [|cl labels IH]; intros acc; [done|].
  cbn [for_each foldl]. cbv zeta.
  rewrite take_rows_Ok by (rewrite x_rows; apply argwhere_eq_lt).
  cbn [mbind result_bind].
  rewrite take_idx_Ok by apply argwhere_eq_lt.
  cbn [mbind result_bind]. apply IH.
Qed.

Lemma foldl_Qplus (scores : list Q) (acc : Q) :
  (foldl Qplus acc scores == acc + foldr Qplus 0 scores)%Q.
Proof.
  revert acc. induction scores as [|q scores IH]; intros acc; simpl.
  - ring.
  - rewrite IH. ring.
Qed.

Lemma foldl_class_scores (labels : list Z) (acc : Q) :
  foldl (λ acc cluster, acc + class_score model x_labels y_labels cluster)%Q
    acc labels
  = foldl Qplus acc (class_score model x_labels y_labels <$> labels).
Proof.
  revert acc. induction labels as [|cl labels IH]; intros acc; [done|].
  rewrite fmap_cons. simpl. apply IH.
Qed.
End mean_score.

(** C9. For a non-empty list of class ids, and [x_labels] with one row for
    each entry of [y_labels], [calculate_mean_score] returns the
    unweighted arithmetic mean of the scores of the classes: with the
    scores [s1, ..., sk] of the [k] classes, [(s1 + ... + sk) / k],
    whatever the sizes of the classes. *)
Theorem mean_score_is_unweighted_mean `{Scorer Model} (labels : list Z)
    (x_labels : np.ndarray2) (y_labels : list Z) (model : Model) :
  labels ≠ [] → np.shape0 x_labels = length y_labels →
  ∃ q, calculate_mean_score labels x_labels y_labels model = Ok q ∧
       (q == arithmetic_mean (class_score model x_labels y_labels <$> labels))%Q.
Proof.
  intros Hne Hrows. unfold calculate_mean_score.
  rewrite mean_score_loop by done. cbn [mbind result_bind].
  rewrite decide_False by (by destruct labels).
  eexists. split; [done|].
  unfold arithmetic_mean. rewrite length_fmap, foldl_class_scores, foldl_Qplus.
  by rewrite Qplus_0_l.
Qed.

Lemma mean_score_is_unweighted_mean_witness :
  ∃ q, calculate_mean_score (H := sample_count_scorer) [1; 2]
         (np.of_rows [[10]; [11]; [12]; [20]]) [1; 1; 1; 2] () = Ok q ∧
       (q == 2)%Q.
Proof.
  destruct (mean_score_is_unweighted_mean (H := sample_count_scorer) [1; 2]
              (np.of_rows [[10]; [11]; [12]; [20]]) [1; 1; 1; 2] ())
    as (q & Hq & Hmean).
  - discriminate.
  - reflexivity.
  - exists q. split; [exact Hq|]. rewrite Hmean. reflexivity.
Defined.

(** ** The worked example *)






(** * Further properties *)

(** ** [remove_unclassified_input] *)

Lemma setitem_idx_bool_Ok (mask : list bool) (idx : list nat) (w : bool) :
  Forall (λ i, i < length mask)%nat idx →
  ∃ mask', setitem_idx_bool mask idx w = Ok mask' ∧ length mask' = length mask ∧
           ∀ k x, mask !! k = Some x →
                  mask' !! k = Some (if decide (k ∈ idx) then w else x).
Proof.
  revert mask. induction idx as [|i idx IH]; intros mask Hidx; simpl.
  - exists mask. split_and!; [done..|]. intros k x Hk.
    destruct (decide (k ∈ [])) as [Hin|_]; [|done].
    by apply not_elem_of_nil in Hin.
  - apply Forall_cons in Hidx as [Hi Hidx].
    rewrite decide_True by done.
    destruct (IH (<[i:=w]> mask)) as (mask' & Hrun & Hlen & Hget).
    { by rewrite length_insert. }
    exists mask'. split_and!; [done|by rewrite Hlen, length_insert|].
    intros k x Hk. destruct (decide (k = i)) as [->|Hne].
    + rewrite (Hget i w) by (by apply list_lookup_insert_eq).
      rewrite (decide_True (P := i ∈ i :: idx)) by apply list_elem_of_here.
      by destruct (decide (i ∈ idx)).
    + rewrite (Hget k x) by (by rewrite list_lookup_insert_ne).
      destruct (decide (k ∈ idx)) as [Hin|Hnin].
      * rewrite decide_True; [done|]. by apply list_elem_of_further.
      * rewrite decide_False; [done|]. rewrite elem_of_cons. tauto.
Qed.

(** The mask of [remove_unclassified_input]: [False] where the label is 0. *)
Lemma unclassified_mask (L : list Z) :
  ∃ mask, setitem_idx_bool (replicate (length L) true) (np.argwhere_eq L 0) false
          = Ok mask ∧
          length mask = length L ∧
          ∀ k, mask !! k = Some true ↔ ∃ v, L !! k = Some v ∧ v ≠ 0.
Proof.
  destruct (setitem_idx_bool_Ok (replicate (length L) true) (np.argwhere_eq L 0) false)
    as (mask & Hrun & Hlen & Hget).
  { rewrite length_replicate. apply argwhere_eq_lt. }
  rewrite length_replicate in Hlen.
  exists mask. split_and!; [done..|]. intros k.
  destruct (L !! k) as [v|] eqn:Hv.
  - rewrite (Hget k true).
    2:{ apply lookup_replicate. split; [done|]. by apply lookup_lt_Some in Hv. }
    destruct (decide (k ∈ np.argwhere_eq L 0)) as [Hin|Hnin].
    + apply elem_of_argwhere_eq in Hin. split; [done|].
      intros (v' & [= <-] & Hne). congruence.
    + split; [|done]. intros _. exists v. split; [done|]. intros ->.
      apply Hnin. by apply elem_of_argwhere_eq.
  - apply lookup_ge_None in Hv. rewrite (proj2 (lookup_ge_None _ _)) by lia.
    split; [done|]. by intros (v' & [=] & _).
Qed.

(** The indices that a mask selects: those where it is [True], in
    increasing order. *)
Lemma masked_seq (mask : list bool) (s : nat) :
  (∀ x, x ∈ masked (seq s (length mask)) mask
        ↔ ∃ k, x = (s + k)%nat ∧ mask !! k = Some true) ∧
  StronglySorted lt (masked (seq s (length mask)) mask).
Proof.
  revert s. induction mask as [|b mask IH]; intros s.
  - split; [|constructor]. intros x. simpl. split.
    + intros Hx. by apply not_elem_of_nil in Hx.
    + by intros (k & _ & Hk).
  - destruct (IH (S s)) as [Hmem Hsorted]. cbn [length seq masked].
    assert (∀ x, (∃ k, x = (s + k)%nat ∧ (b :: mask) !! k = Some true)
                 ↔ (x = s ∧ b = true) ∨ ∃ k, x = (S s + k)%nat ∧ mask !! k = Some true)
      as Hcases.
    { intros x. split.
      - intros ([|k] & -> & Hk); simpl in Hk.
        + left. split; [lia|congruence].
        + right. exists k. split; [lia|done].
      - intros [[-> ->]|(k & -> & Hk)].
        + exists 0%nat. split; [lia|done].
        + exists (S k). split; [lia|done]. }
    destruct b.
    + split.
      * intros x. rewrite elem_of_cons, Hmem, Hcases. split.
        -- intros [->|Hk]; [by left|by right].
        -- intros [[-> _]|Hk]; [by left|by right].
      * constructor; [done|]. apply Forall_forall. intros x Hx.
        apply Hmem in Hx as (k & -> & _). lia.
    + split; [|done]. intros x. rewrite Hmem, Hcases. split.
      * intros Hk. by right.
      * intros [[_ ?]|Hk]; [done|exact Hk].
Qed.

(** X1. When [X] has one row for each cell of [labels],
    [remove_unclassified_input] returns the flat indices of the cells
    whose label is not 0, in increasing order, and the rows of [X] at
    these indices, in the same order. *)
Theorem remove_unclassified_input_keeps_classified (X labels : np.ndarray2) :
  np.shape0 X = length (np.data labels) →
  ∃ new_X arr_idx,
    remove_unclassified_input X labels = Ok (new_X, arr_idx) ∧
    (∀ k, k ∈ arr_idx ↔ ∃ v, np.flatten labels !! k = Some v ∧ v ≠ 0) ∧
    StronglySorted lt arr_idx ∧
    new_X = np.Array2 (length arr_idx) (np.shape1 X) (rows_data X arr_idx).
Proof.
  intros Hrows. unfold remove_unclassified_input, np.flatten.
  destruct (unclassified_mask (np.data labels)) as (mask & -> & Hlen & Hmask).
  cbn [mbind result_bind]. cbv zeta. unfold getitem_mask_rows, getitem_mask.
  rewrite length_seq, !decide_True by lia. cbn [mbind result_bind].
  rewrite Hrows, <-Hlen.
  destruct (masked_seq mask 0) as [Hmem Hsorted].
  eexists _, _. split; [done|]. split_and!; [|done..].
  intros k. rewrite Hmem, <-Hmask. split.
  - by intros (k' & -> & Hk).
  - intros Hk. by exists k.
Qed.

Lemma remove_unclassified_input_keeps_classified_witness :
  ∃ new_X arr_idx,
    remove_unclassified_input ex_X (np.of_rows [[0; 3]; [0; 1]]) = Ok (new_X, arr_idx) ∧
    (1%nat ∈ arr_idx) ∧ new_X = np.Array2 (length arr_idx) 2 (rows_data ex_X arr_idx).
Proof.
  destruct (remove_unclassified_input_keeps_classified ex_X (np.of_rows [[0; 3]; [0; 1]]))
    as (new_X & arr_idx & Hrun & Hmem & _ & Hrows); [reflexivity|].
  exists new_X, arr_idx. split_and!; [exact Hrun| |exact Hrows].
  apply Hmem. exists 3. split; [reflexivity|lia].
Defined.

(** X2. When the number of rows of [X] is not the number of cells of
    [labels], [remove_unclassified_input] raises [IndexError]: the boolean
    mask does not fit the first axis of [X]. *)
Theorem remove_unclassified_input_size_mismatch (X labels : np.ndarray2) :
  np.shape0 X ≠ length (np.data labels) →
  remove_unclassified_input X labels = Raise IndexError.
Proof.
  intros Hrows. unfold remove_unclassified_input, np.flatten.
  destruct (unclassified_mask (np.data labels)) as (mask & -> & Hlen & _).
  cbn [mbind result_bind]. cbv zeta. unfold getitem_mask_rows.
  rewrite decide_False by lia. done.
Qed.

Lemma remove_unclassified_input_size_mismatch_witness :
  remove_unclassified_input ex_X (np.of_rows [[0; 3; 1]; [0; 1; 1]]) = Raise IndexError.
Proof.
  apply remove_unclassified_input_size_mismatch. vm_compute. lia.
Defined.

(** ** [get_label] *)

(** X3. Selecting a class twice: [get_label] of [get_label(labels, x)] for
    the same class changes nothing more, and for another class leaves
    only zeros. *)
Theorem get_label_twice (labels : np.ndarray2) (x y : Z) :
  get_label (get_label labels x) y
  = if decide (x = y) then get_label labels x
    else np.Array2 (np.shape0 labels) (np.shape1 labels)
           (replicate (length (np.data labels)) 0).
Proof.
  unfold get_label. cbn [np.shape0 np.shape1 np.data].
  rewrite <-list_fmap_compose.
  destruct (decide (x = y)) as [->|Hne]; f_equal.
  - apply list_fmap_ext. intros _ v _. simpl.
    destruct (decide (v = y)) as [->|?].
    + by rewrite decide_True.
    + by destruct (decide (0 = y)).
  - induction (np.data labels) as [|v l IH]; [done|].
    rewrite fmap_cons. cbn [length replicate]. rewrite IH. f_equal. simpl.
    destruct (decide (v = x)) as [->|?].
    + by rewrite decide_False.
    + by destruct (decide (0 = y)).
Qed.

(** ** [shuffle] *)

Lemma take_idx_raise {A} (a : list A) (idx : list nat) :
  Exists (λ i, length a ≤ i)%nat idx → np.take_idx a idx = Raise IndexError.
Proof.
  intros Hidx. unfold np.take_idx.
  assert (∀ acc, for_each (λ acc i, x ← np.getitem a i; Ok (acc ++ [x])) idx acc
                 = Raise IndexError) as Hloop; [|apply Hloop].
  induction idx as [|i idx IH]; intros acc; [by apply Exists_nil in Hidx|].
  simpl. destruct (a !! i) as [x|] eqn:Hx.
  - rewrite (proj2 (getitem_Ok _ _ _) Hx). simpl. apply IH.
    apply Exists_cons in Hidx as [Hi|Hidx]; [|done].
    apply lookup_lt_Some in Hx. lia.
  - apply lookup_ge_None in Hx. by rewrite getitem_ge.
Qed.

(** [a[arange(n)] = vals] replaces the first [n] items. *)
Lemma setitem_vals_prefix {A} (vals pre old rest : list A) :
  length old = length vals →
  setitem_vals (pre ++ old ++ rest) (seq (length pre) (length vals)) vals
  = Ok (pre ++ vals ++ rest).
Proof.
  unfold setitem_vals. rewrite length_seq, decide_True by done.
  revert pre old. induction vals as [|v vals IH]; intros pre old Hlen.
  - destruct old; [done|discriminate].
  - destruct old as [|o old]; [discriminate|]. injection Hlen as Hlen.
    cbn [length seq zip zip_with for_each].
    rewrite decide_True by (rewrite length_app; simpl; lia).
    cbn [mbind result_bind].
    replace (<[length pre:=v]> (pre ++ (o :: old) ++ rest))
      with ((pre ++ [v]) ++ old ++ rest).
    2:{ rewrite <-app_assoc. simpl.
        by rewrite (insert_app_r_alt pre _ (length pre) v), Nat.sub_diag. }
    replace (S (length pre)) with (length (pre ++ [v]))
      by (rewrite length_app; simpl; lia).
    rewrite (IH (pre ++ [v]) old Hlen). by rewrite <-!app_assoc.
Qed.

Lemma setitem_vals_arange {A} (a vals : list A) :
  (length vals ≤ length a)%nat →
  setitem_vals a (seq 0 (length vals)) vals = Ok (vals ++ drop (length vals) a).
Proof.
  intros Hlen.
  pose proof (setitem_vals_prefix vals [] (take (length vals) a)
                (drop (length vals) a)) as Hset.
  rewrite take_drop in Hset. apply Hset. rewrite length_take. lia.
Qed.

Lemma zip_fmap_fmap {A B C} (f : A → B) (g : A → C) (l : list A) :
  zip (f <$> l) (g <$> l) = (λ i, (f i, g i)) <$> l.
Proof. induction l as [|x l IH]; [done|]. rewrite !fmap_cons. simpl. by rewrite IH. Qed.

Lemma zip_take_lookup_total (X : list (list Z)) (L : list Z) :
  (length L ≤ length X)%nat →
  (λ i, (X !!! i, L !!! i)) <$> seq 0 (length L) = zip (take (length L) X) L.
Proof.
  intros Hlen. apply list_eq. intros k. rewrite list_lookup_fmap.
  destruct (L !! k) as [v|] eqn:Hv.
  - pose proof (lookup_lt_Some _ _ _ Hv) as Hk.
    rewrite (proj2 (lookup_seq 0 (length L) k k)) by done. simpl.
    rewrite (list_lookup_total_correct _ _ _ Hv).
    symmetry. apply lookup_zip_with_Some.
    exists (X !!! k), v. split_and!; [done| |done].
    rewrite lookup_take_lt by done.
    apply list_lookup_lookup_total_lt. lia.
  - apply lookup_ge_None in Hv. rewrite lookup_seq_ge by lia. simpl.
    symmetry. apply lookup_ge_None. rewrite length_zip_with. lia.
Qed.

(** X4. [shuffle] moves rows and labels in lockstep. When [X] has at least
    as many rows as there are labels and [np.random.shuffle] leaves a
    permutation [arr_idx] of the indices, row [k] of the result is row
    [arr_idx[k]] of [X] and label [k] is label [arr_idx[k]]; the pairs
    (row, label) of the result are a permutation of those of the input;
    rows of [X] past the last label stay where they are. *)
Theorem shuffle_lockstep (random_shuffle : list nat → list nat)
    (X : list (list Z)) (labels : list Z) :
  random_shuffle (seq 0 (length labels)) ≡ₚ seq 0 (length labels) →
  (length labels ≤ length X)%nat →
  ∃ X' labels' arr_idx,
    shuffle random_shuffle X labels = Ok (X', labels', arr_idx) ∧
    arr_idx ≡ₚ seq 0 (length labels) ∧
    length X' = length X ∧ length labels' = length labels ∧
    (∀ k i, arr_idx !! k = Some i →
       X' !! k = X !! i ∧ labels' !! k = labels !! i) ∧
    drop (length labels) X' = drop (length labels) X ∧
    zip (take (length labels) X') labels' ≡ₚ zip (take (length labels) X) labels.
Proof.
  intros Hperm Hlen. unfold shuffle.
  set (perm := random_shuffle (seq 0 (length labels))) in *.
  assert (length perm = length labels) as Hplen by (by rewrite Hperm, length_seq).
  assert (Forall (λ i, i < length labels)%nat perm) as Hin.
  { apply Forall_forall. intros i Hi. rewrite Hperm in Hi.
    apply elem_of_seq in Hi. lia. }
  rewrite (take_idx_Ok X perm)
    by (eapply Forall_impl; [exact Hin|]; intros i Hi; simpl in *; lia).
  cbn [mbind result_bind].
  pose proof (setitem_vals_arange X ((λ i, X !!! i) <$> perm)) as HX.
  rewrite length_fmap, Hplen in HX. rewrite HX by done. clear HX.
  cbn [mbind result_bind].
  rewrite (take_idx_Ok labels perm) by done. cbn [mbind result_bind].
  pose proof (setitem_vals_arange labels ((λ i, labels !!! i) <$> perm)) as HL.
  rewrite length_fmap, Hplen in HL. rewrite HL by done. clear HL.
  cbn [mbind result_bind]. rewrite drop_all, app_nil_r.
  eexists _, _, _. split; [done|]. split_and!.
  - done.
  - rewrite length_app, length_fmap, length_drop. lia.
  - by rewrite length_fmap.
  - intros k i Hk. rewrite Forall_forall in Hin.
    pose proof (Hin i (list_elem_of_lookup_2 _ _ _ Hk)) as Hi.
    rewrite lookup_app_l by (rewrite length_fmap; by apply lookup_lt_Some in Hk).
    rewrite !list_lookup_fmap, Hk. simpl.
    split; symmetry; apply list_lookup_lookup_total_lt; lia.
  - rewrite drop_app_length'; [done|]. by rewrite length_fmap.
  - rewrite take_app_length' by (by rewrite length_fmap).
    rewrite zip_fmap_fmap, Hperm. by rewrite zip_take_lookup_total.
Qed.

Lemma shuffle_lockstep_witness :
  ∃ X' labels' arr_idx,
    shuffle (@reverse nat) [[1; 2]; [3; 4]; [5; 6]] [7; 8; 9] = Ok (X', labels', arr_idx) ∧
    zip (take 3 X') labels' ≡ₚ zip (take 3 [[1; 2]; [3; 4]; [5; 6]]) [7; 8; 9].
Proof.
  destruct (shuffle_lockstep (@reverse nat) [[1; 2]; [3; 4]; [5; 6]] [7; 8; 9])
    as (X' & labels' & arr_idx & Hrun & _ & _ & _ & _ & _ & Hzip).
  - apply reverse_Permutation.
  - simpl. lia.
  - exists X', labels', arr_idx. split; [exact Hrun|exact Hzip].
Defined.

(** X5. When [X] has fewer rows than there are labels, [shuffle] raises
    [IndexError]: the shuffled indices reach past the last row. *)
Theorem shuffle_short_X_raises (random_shuffle : list nat → list nat)
    (X : list (list Z)) (labels : list Z) :
  random_shuffle (seq 0 (length labels)) ≡ₚ seq 0 (length labels) →
  (length X < length labels)%nat →
  shuffle random_shuffle X labels = Raise IndexError.
Proof.
  intros Hperm Hlen. unfold shuffle. cbv zeta.
  rewrite (take_idx_raise X); [reflexivity|].
  apply Exists_exists. exists (length X). split; [|lia].
  rewrite Hperm. apply elem_of_seq. lia.
Qed.

Lemma shuffle_short_X_raises_witness :
  shuffle (@reverse nat) [[1; 2]; [3; 4]] [7; 8; 9] = Raise IndexError.
Proof.
  apply shuffle_short_X_raises.
  - apply reverse_Permutation.
  - simpl. lia.
Defined.

(** ** More on [copy_without_outlier] *)

Lemma StronglySorted_filter {A} (R : relation A) (P : A → Prop)
    `{!∀ x, Decision (P x)} (l : list A) :
  StronglySorted R l → StronglySorted R (filter P l).
Proof.
  induction l as [|x l IH]; intros Hl; [done|].
  apply StronglySorted_cons in Hl as [Hx Hl]. rewrite filter_cons.
  destruct (decide (P x)); [|by apply IH].
  apply StronglySorted_cons. split; [|by apply IH].
  apply Forall_forall. intros y Hy. apply list_elem_of_filter in Hy as [_ Hy].
  rewrite Forall_forall in Hx. by apply Hx.
Qed.

Lemma StronglySorted_seq (s n : nat) : StronglySorted lt (seq s n).
Proof.
  revert s. induction n as [|n IH]; intros s; [constructor|].
  simpl. apply StronglySorted_cons. split; [|apply IH].
  apply Forall_forall. intros k Hk. apply elem_of_seq in Hk. lia.
Qed.

Lemma StronglySorted_NoDup {A} (R : relation A) (l : list A) :
  (∀ x, ¬ R x x) → StronglySorted R l → NoDup l.
Proof.
  intros Hirr. induction l as [|x l IH]; intros Hl; [constructor|].
  apply StronglySorted_cons in Hl as [Hx Hl]. constructor; [|by apply IH].
  intros Hin. rewrite Forall_forall in Hx. by apply (Hirr x), Hx.
Qed.

Lemma pos_lt_irrefl (p : position) : ¬ pos_lt p p.
Proof. unfold pos_lt. lia. Qed.

Lemma all_positions_sorted (r c : nat) : StronglySorted pos_lt (all_positions r c).
Proof.
  unfold all_positions. induction r as [|r IH]; [constructor|].
  rewrite range_S, bind_app. cbn [mbind list_bind]. rewrite app_nil_r.
  apply StronglySorted_app_2; [|done|].
  - intros p q Hp Hq. apply (proj1 (elem_of_all_positions r c p)) in Hp.
    apply list_elem_of_fmap in Hq as (j & -> & _).
    destruct Hp as [Hp _]. left. simpl. lia.
  - apply (StronglySorted_fmap _ lt); [|apply StronglySorted_seq].
    intros a b Hab. right. simpl. lia.
Qed.

Lemma length_all_positions (r c : nat) : length (all_positions r c) = (r * c)%nat.
Proof.
  unfold all_positions. induction r as [|r IH]; [done|].
  rewrite range_S, bind_app, length_app.
  change (@length (nat * nat)) with (@length position). rewrite IH.
  cbn [mbind list_bind].
  rewrite app_nil_r, length_fmap. unfold range. rewrite length_seq. lia.
Qed.

Lemma filter_all {A} (P : A → Prop) `{!∀ x, Decision (P x)} (l : list A) :
  (∀ x, P x) → filter P l = l.
Proof.
  intros HP. induction l as [|x l IH]; [done|].
  by rewrite filter_cons_True, IH.
Qed.

(** The cells of row [i] that an [ndarray] of positions lets through:
    none when the row holds an outlier, otherwise the ones in columns
    without an outlier. *)
Lemma kept_row_NdArray (ps : list position) (i c : nat) :
  filter (λ p, ¬ contains (NdArray ps) p) (pair i <$> range c)
  = if decide (i ∈ ps.*1) then []
    else pair i <$> filter (λ j, j ∉ ps.*2) (range c).
Proof.
  unfold position in *.
  induction (range c) as [|j js IH]; [by destruct (decide _)|].
  rewrite fmap_cons, !filter_cons, IH.
  destruct (decide (i ∈ ps.*1)) as [Hi|Hi].
  - rewrite decide_False; [done|]. intros Hc. apply Hc, contains_NdArray.
    apply list_elem_of_fmap in Hi as (q & -> & Hq). exists q. by split; [|left].
  - destruct (decide (j ∉ ps.*2)) as [Hj|Hj].
    + rewrite decide_True; [done|]. intros (q & Hq & [Heq|Heq])%contains_NdArray;
        simpl in Heq; subst.
      * apply Hi, list_elem_of_fmap. by exists q.
      * apply Hj, list_elem_of_fmap. by exists q.
    + rewrite decide_False; [done|]. intros Hc. apply Hc, contains_NdArray.
      apply dec_stable in Hj. apply list_elem_of_fmap in Hj as (q & -> & Hq).
      exists q. by split; [|right].
Qed.

Lemma length_kept_NdArray (ps : list position) (r c : nat) :
  length (filter (λ p, ¬ contains (NdArray ps) p) (all_positions r c))
  = (length (filter (λ i, i ∉ ps.*1) (range r))
     * length (filter (λ j, j ∉ ps.*2) (range c)))%nat.
Proof.
  unfold all_positions. induction r as [|r IH]; [done|].
  rewrite range_S, bind_app, !filter_app, !length_app.
  change (@length (nat * nat)) with (@length position). rewrite IH.
  cbn [mbind list_bind]. rewrite app_nil_r, kept_row_NdArray.
  rewrite filter_cons, filter_nil.
  destruct (decide (r ∈ ps.*1)) as [Hr|Hr].
  - rewrite decide_False by tauto. simpl. lia.
  - rewrite decide_True by done. rewrite length_fmap. simpl. lia.
Qed.

(** X6. On a well-formed grid [copy_without_outlier] returns. Its
    positions are the positions of the grid for which [[i, j] in
    outlier_pos] is false, each one once and in row-major order, and the
    value with the same index is the cell of [X] at that position. With a
    list of lists these are the positions that are not listed; with a
    list of tuples, all the positions; with an [ndarray], the positions
    that share neither the row nor the column of a listed one. *)
Theorem copy_without_outlier_positions (X : np.ndarray2) (O : positions) :
  np.wf X →
  ∃ l Xp, copy_without_outlier X O = Ok (l, Xp) ∧
    (∀ p, p ∈ Xp ↔ inside (np.shape0 X) (np.shape1 X) p ∧
       match O with
       | ListOfLists ps => p ∉ ps
       | ListOfTuples _ => True
       | NdArray ps => ∀ q, q ∈ ps → q.1 ≠ p.1 ∧ q.2 ≠ p.2
       end) ∧
    StronglySorted pos_lt Xp ∧
    length l = length Xp ∧
    ∀ k p, Xp !! k = Some p →
      ∃ v, l !! k = Some v ∧ np.getitem2 X p.1 p.2 = Ok v.
Proof.
  intros HX. exists (cell_at X <$> kept_positions X O), (kept_positions X O).
  split; [by apply copy_without_outlier_spec|]. split_and!.
  - intros p. rewrite elem_of_kept_positions.
    destruct O as [ps|ps|ps]; simpl; [tauto|tauto|].
    rewrite Exists_exists. split.
    + intros [Hc Hp]. split; [done|]. intros q Hq.
      split; intros Heq; apply Hc; exists q; tauto.
    + intros [Hp Hc]. split; [|done]. intros (q & Hq & Heq).
      destruct (Hc q Hq). tauto.
  - apply StronglySorted_filter, all_positions_sorted.
  - by rewrite length_fmap.
  - intros k p Hk. exists (cell_at X p). split.
    + rewrite list_lookup_fmap. unfold position in *. by rewrite Hk.
    + apply (getitem2_inside _ _ X p (grid_of_wf X HX)).
      by apply (elem_of_kept_positions X O), list_elem_of_lookup_2 with k.
Qed.

Lemma copy_without_outlier_positions_witness :
  ∃ l Xp, copy_without_outlier ex_labels (NdArray [(0, 1)%nat]) = Ok (l, Xp) ∧
    ((1, 1)%nat ∈ Xp ↔ inside 2 3 (1, 1)%nat ∧
       ∀ q, q ∈ [(0, 1)%nat] → q.1 ≠ 1%nat ∧ q.2 ≠ 1%nat) ∧
    StronglySorted pos_lt Xp ∧ length l = length Xp.
Proof.
  destruct (copy_without_outlier_positions ex_labels (NdArray [(0, 1)%nat]))
    as (l & Xp & Hrun & Hin & Hsorted & Hlen & _).
  - reflexivity.
  - exists l, Xp. split_and!; [exact Hrun|exact (Hin (1, 1)%nat)|exact Hsorted|exact Hlen].
Defined.

(** X7. [copy_without_outlier] returns two 1-D results of one length.
    With a list of lists that names positions of the grid without
    repetition it is [rows * columns - len(outlier_pos)]; with a list of
    tuples it is [rows * columns]; with an [ndarray] it is the number of
    rows without an outlier times the number of columns without one. *)
Theorem copy_without_outlier_count (X : np.ndarray2) (O : positions) :
  np.wf X →
  ∃ l Xp, copy_without_outlier X O = Ok (l, Xp) ∧
    length Xp = length l ∧
    match O with
    | ListOfLists ps =>
        NoDup ps → Forall (inside (np.shape0 X) (np.shape1 X)) ps →
        length l = (np.shape0 X * np.shape1 X - length ps)%nat
    | ListOfTuples _ => length l = (np.shape0 X * np.shape1 X)%nat
    | NdArray ps =>
        length l
        = (length (filter (λ i, i ∉ ps.*1) (range (np.shape0 X)))
           * length (filter (λ j, j ∉ ps.*2) (range (np.shape1 X))))%nat
    end.
Proof.
  intros HX. exists (cell_at X <$> kept_positions X O), (kept_positions X O).
  split; [by apply copy_without_outlier_spec|]. rewrite length_fmap. split; [done|].
  unfold kept_positions. destruct O as [ps|ps|ps].
  - intros HO Hin.
    pose proof (filter_app_complement (λ p, ¬ contains (ListOfLists ps) p)
                  (all_positions (np.shape0 X) (np.shape1 X))) as Hsplit.
    apply Permutation_length in Hsplit.
    rewrite length_app, length_all_positions in Hsplit.
    assert (filter (λ p : position, ¬ ¬ contains (ListOfLists ps) p)
              (all_positions (np.shape0 X) (np.shape1 X)) ≡ₚ ps)
      as Hout.
    { apply NoDup_Permutation; [|done|].
      - apply NoDup_filter, (StronglySorted_NoDup pos_lt);
          [apply pos_lt_irrefl|apply all_positions_sorted].
      - intros p. rewrite list_elem_of_filter, elem_of_all_positions.
        rewrite Forall_forall in Hin. simpl. split.
        + intros [Hp _]. by destruct (decide (p ∈ ps)).
        + intros Hp. split; [tauto|by apply Hin]. }
    rewrite Hout in Hsplit. lia.
  - rewrite filter_all by (by intros p Hc). apply length_all_positions.
  - apply length_kept_NdArray.
Qed.

Lemma copy_without_outlier_count_witness :
  ∃ l Xp, copy_without_outlier ex_labels (NdArray [(0, 1)%nat]) = Ok (l, Xp) ∧
    length Xp = length l ∧ length l = 2%nat.
Proof.
  apply (copy_without_outlier_count ex_labels (NdArray [(0, 1)%nat])).
  reflexivity.
Defined.

(** ** More on [rebuild_data_with_outliers] *)

Lemma for_each_raise {S X} (P : exn → Prop) (body : S → X → result S)
    (xs : list X) (s : S) (e : exn) :
  (∀ s x e, body s x = Raise e → P e) →
  for_each body xs s = Raise e → P e.
Proof.
  intros Hbody. revert s. induction xs as [|x xs IH]; intros s Hrun; [done|].
  simpl in Hrun. destruct (body s x) as [s1|e1] eqn:Hb; simpl in Hrun.
  - by apply (IH s1).
  - injection Hrun as <-. by apply (Hbody s x).
Qed.

Lemma getitem_raise {A} (a : list A) (i : nat) (e : exn) :
  np.getitem a i = Raise e → e = IndexError.
Proof. unfold np.getitem. destruct (a !! i); congruence. Qed.

Lemma setitem2_raise (g : np.ndarray2) (i j : nat) (v : Z) (e : exn) :
  np.setitem2 g i j v = Raise e → e = IndexError.
Proof. unfold np.setitem2. destruct (decide _); congruence. Qed.

Lemma bind_raise {A B} (m : result A) (f : A → result B) (e : exn) :
  m ≫= f = Raise e → m = Raise e ∨ ∃ a, m = Ok a ∧ f a = Raise e.
Proof.
  destruct m as [a|e']; simpl; intros Hf; [right; by exists a|].
  injection Hf as ->. by left.
Qed.

(** The only exception of [rebuild_data_with_outliers]. *)
Lemma rebuild_raise (uninit : nat → Z) (sp : list Z) (Xp O : list position)
    (shape : nat * nat) (e : exn) :
  rebuild_data_with_outliers uninit sp Xp O shape = Raise e → e = IndexError.
Proof.
  unfold rebuild_data_with_outliers. intros Hrun.
  apply bind_raise in Hrun as [Hrun|(g1 & _ & Hrun)];
    (eapply (for_each_raise (λ e, e = IndexError)); [|exact Hrun]);
    intros g i e' Hbody.
  - apply bind_raise in Hbody as [Hbody|(pos & _ & Hbody)];
      [by apply getitem_raise in Hbody|].
    apply bind_raise in Hbody as [Hbody|(v & _ & Hbody)];
      [by apply getitem_raise in Hbody|by apply setitem2_raise in Hbody].
  - apply bind_raise in Hbody as [Hbody|(pos & _ & Hbody)];
      [by apply getitem_raise in Hbody|by apply setitem2_raise in Hbody].
Qed.

(** A sample without a position stops the loop over the samples. *)
Lemma sample_loop_inv (sp : list Z) (Xp : list position) (g g1 : np.ndarray2) :
  for_each (λ preds i,
      pos ← np.getitem Xp i; v ← np.getitem sp i;
      np.setitem2 preds pos.1 pos.2 (np.float64 v))
    (range (length sp)) g = Ok g1 →
  (length sp ≤ length Xp)%nat.
Proof.
  intros Hrun. destruct (decide (length sp ≤ length Xp)%nat) as [|Hlt]; [done|].
  exfalso. revert Hrun.
  replace (length sp) with (length Xp + S (length sp - S (length Xp)))%nat by lia.
  rewrite range_add, for_each_app.
  destruct (for_each _ (range (length Xp)) g) as [g2|e]; [|done].
  cbn [mbind result_bind seq for_each]. by rewrite (getitem_ge Xp) by lia.
Qed.

Lemma Forall_zip_fst {A B} (P : A → Prop) (l : list A) (k : list B) :
  Forall (λ w, P w.1) (zip l k) ↔ Forall P (take (length k) l).
Proof.
  rewrite <-(zip_with_take_l pair l k).
  rewrite <-(fst_zip (take (length k) l) k) at 2 by (rewrite length_take; lia).
  by rewrite Forall_fmap.
Qed.

Lemma Forall_writes_0 (P : position → Prop) (O : list position) :
  Forall (λ w : position * Z, P w.1) ((λ p, (p, 0)) <$> O) ↔ Forall P O.
Proof. by rewrite Forall_fmap. Qed.

(** A call that returns was given positions that fit. *)
Lemma rebuild_Ok_fits (uninit : nat → Z) (sp : list Z) (Xp O : list position)
    (shape : nat * nat) (g : np.ndarray2) :
  rebuild_data_with_outliers uninit sp Xp O shape = Ok g →
  rebuild_fits sp Xp O shape.
Proof.
  intros Hrun.
  assert (length sp ≤ length Xp)%nat as Hlen.
  { unfold rebuild_data_with_outliers in Hrun.
    apply bind_Ok in Hrun as (g1 & Hg1 & _). by eapply sample_loop_inv. }
  rewrite rebuild_as_writes in Hrun by done.
  apply bind_Ok in Hrun as (g1 & Hg1 & Hg).
  pose proof (write_loop_inv _ _ _ _ _
                (grid_of_empty2 uninit shape.1 shape.2) Hg1) as HXp.
  assert (grid_of shape.1 shape.2 g1) as Hgrid1.
  { destruct (write_loop_Ok _ _ _ _
                (grid_of_empty2 uninit shape.1 shape.2) HXp)
      as (g1' & Hg1' & Hgrid). congruence. }
  pose proof (write_loop_inv _ _ _ _ _ Hgrid1 Hg) as HO.
  apply Forall_zip_fst in HXp. rewrite length_fmap in HXp.
  split_and!; [done|done|by apply Forall_writes_0 in HO].
Qed.

(** X8. [rebuild_data_with_outliers] returns exactly when every sample has
    a position, the positions of the samples are inside the target shape
    and so are the outlier positions; in every other case it raises
    [IndexError]. Positions of [X_positions] past the last sample are not
    looked at. *)
Theorem rebuild_returns_iff (uninit : nat → Z) (salinas_preds : list Z)
    (X_positions outlier_pos : list position) (target_shape : nat * nat) :
  (rebuild_fits salinas_preds X_positions outlier_pos target_shape →
   is_Ok (rebuild_data_with_outliers uninit salinas_preds X_positions
            outlier_pos target_shape)) ∧
  (¬ rebuild_fits salinas_preds X_positions outlier_pos target_shape →
   rebuild_data_with_outliers uninit salinas_preds X_positions
     outlier_pos target_shape = Raise IndexError).
Proof.
  split.
  - intros (Hlen & HXp & HO). rewrite rebuild_as_writes by done.
    destruct (write_loop_Ok target_shape.1 target_shape.2
                (zip X_positions (np.float64 <$> salinas_preds))
                (np.empty2 uninit target_shape.1 target_shape.2))
      as (g1 & Hg1 & Hgrid1);
      [apply grid_of_empty2|apply Forall_zip_fst; by rewrite length_fmap|].
    rewrite Hg1. cbn [mbind result_bind].
    destruct (write_loop_Ok target_shape.1 target_shape.2
                ((λ p, (p, 0)) <$> outlier_pos) g1)
      as (g & Hg & _); [done|by apply Forall_writes_0|].
    by exists g.
  - intros Hfits.
    destruct (rebuild_data_with_outliers uninit salinas_preds X_positions
                outlier_pos target_shape) as [g|e] eqn:Hrun.
    + exfalso. by apply Hfits, (rebuild_Ok_fits uninit _ _ _ _ g).
    + f_equal. by eapply rebuild_raise.
Qed.

Lemma rebuild_returns_iff_witness :
  is_Ok (rebuild_data_with_outliers Z.of_nat [5; 6] [(0, 0); (1, 1); (7, 7)]%nat
           [(0, 1)%nat] (2, 2)%nat) ∧
  rebuild_data_with_outliers Z.of_nat [5; 6] [(0, 0); (2, 1)]%nat
    [(0, 1)%nat] (2, 2)%nat = Raise IndexError.
Proof.
  split.
  - apply (proj1 (rebuild_returns_iff Z.of_nat [5; 6] [(0, 0); (1, 1); (7, 7)]%nat
                    [(0, 1)%nat] (2, 2)%nat)).
    unfold rebuild_fits, inside. simpl. split_and!; [lia|..];
      repeat constructor; simpl; lia.
  - apply (proj2 (rebuild_returns_iff Z.of_nat [5; 6] [(0, 0); (2, 1)]%nat
                    [(0, 1)%nat] (2, 2)%nat)).
    unfold rebuild_fits, inside. simpl. intros (_ & HXp & _).
    apply Forall_cons in HXp as [_ HXp]. apply Forall_cons in HXp as [[HXp _] _].
    simpl in HXp. lia.
Defined.

(** A loop of writes leaves in every cell the last value written
    there. *)
Lemma write_loop_written (r c : nat) (ws : list (position * Z))
    (g g' : np.ndarray2) :
  grid_of r c g → for_each write_cell ws g = Ok g' →
  grid_of r c g' ∧
  ∀ p, inside r c p → cell_at g' p = written ws p (cell_at g p).
Proof.
  revert g. induction ws as [|w ws IH]; intros g Hg Hrun; simpl in Hrun.
  - injection Hrun as <-. by split.
  - destruct (write_cell g w) as [g1|e] eqn:Hw; [simpl in Hrun|done].
    pose proof (write_cell_inv r c g g1 w Hg Hw) as Hin.
    destruct (write_cell_Ok r c g w Hg Hin) as (g1' & Hg1 & Hgrid1 & Hcell1).
    assert (g1' = g1) as -> by congruence.
    destruct (IH g1 Hgrid1 Hrun) as [Hgrid' Hcell']. split; [done|].
    intros p Hp. simpl. by rewrite (Hcell' p Hp), (Hcell1 p Hp).
Qed.

Lemma written_app (ws1 ws2 : list (position * Z)) (p : position) (d : Z) :
  written (ws1 ++ ws2) p d = written ws2 p (written ws1 p d).
Proof. revert d. induction ws1 as [|w ws1 IH]; intros d; [done|]. simpl. apply IH. Qed.

Lemma written_not_in (ws : list (position * Z)) (p : position) (d : Z) :
  p ∉ ws.*1 → written ws p d = d.
Proof.
  revert d. induction ws as [|w ws IH]; intros d Hp; [done|].
  rewrite fmap_cons, not_elem_of_cons in Hp. destruct Hp as [Hne Hp].
  simpl. rewrite decide_False by done. by apply IH.
Qed.

Lemma written_last (ws : list (position * Z)) (k : nat) (p : position) (v d : Z) :
  ws !! k = Some (p, v) →
  (∀ k' w, (k < k')%nat → ws !! k' = Some w → w.1 ≠ p) →
  written ws p d = v.
Proof.
  intros Hk Hlast. rewrite <-(take_drop_middle ws k (p, v) Hk), written_app.
  simpl. rewrite decide_True by done. apply written_not_in.
  intros Hin. apply list_elem_of_fmap in Hin as (w & Hw & Hin).
  apply list_elem_of_lookup in Hin as (i & Hi). rewrite lookup_drop in Hi.
  apply (Hlast (S k + i)%nat w); [lia|done|done].
Qed.

(** What a returned grid holds outside the outlier positions. *)
Lemma rebuild_cell (uninit : nat → Z) (sp : list Z) (Xp O : list position)
    (shape : nat * nat) (g : np.ndarray2) (p : position) :
  rebuild_data_with_outliers uninit sp Xp O shape = Ok g →
  inside shape.1 shape.2 p → p ∉ O →
  np.getitem2 g p.1 p.2
  = Ok (written (zip Xp (np.float64 <$> sp)) p
          (uninit (p.1 * shape.2 + p.2)%nat)).
Proof.
  intros Hrun Hp HO.
  assert (length sp ≤ length Xp)%nat as Hlen.
  { unfold rebuild_data_with_outliers in Hrun.
    apply bind_Ok in Hrun as (g1 & Hg1 & _). by eapply sample_loop_inv. }
  rewrite rebuild_as_writes in Hrun by done.
  apply bind_Ok in Hrun as (g1 & Hg1 & Hg).
  destruct (write_loop_written _ _ _ _ _
              (grid_of_empty2 uninit shape.1 shape.2) Hg1) as [Hgrid1 Hcell1].
  destruct (write_loop_written _ _ _ _ _ Hgrid1 Hg) as [Hgrid Hcell].
  rewrite (getitem2_inside _ _ g p Hgrid Hp). f_equal.
  rewrite (Hcell p Hp), written_not_in.
  - by rewrite (Hcell1 p Hp), cell_at_empty2.
  - rewrite <-list_fmap_compose. intros Hin.
    apply list_elem_of_fmap in Hin as (q & -> & Hq). by apply HO.
Qed.

(** X9. [rebuild_data_with_outliers] fills in no default value: in a grid
    it returns, a cell that is neither the position of a sample nor an
    outlier position holds what [np.empty] left there. *)
Theorem rebuild_leaves_uncovered_cells (uninit : nat → Z) (salinas_preds : list Z)
    (X_positions outlier_pos : list position) (target_shape : nat * nat)
    (g : np.ndarray2) (p : position) :
  rebuild_data_with_outliers uninit salinas_preds X_positions outlier_pos
    target_shape = Ok g →
  inside target_shape.1 target_shape.2 p →
  p ∉ outlier_pos → p ∉ take (length salinas_preds) X_positions →
  np.getitem2 g p.1 p.2 = Ok (uninit (p.1 * target_shape.2 + p.2)%nat).
Proof.
  intros Hrun Hp HO HXp. rewrite (rebuild_cell _ _ _ _ _ _ _ Hrun Hp HO).
  f_equal. apply written_not_in.
  rewrite <-(zip_with_take_l pair X_positions (np.float64 <$> salinas_preds)).
  rewrite fst_zip by (rewrite length_take, !length_fmap; lia).
  by rewrite length_fmap.
Qed.

Lemma rebuild_leaves_uncovered_cells_witness :
  ∃ g, rebuild_data_with_outliers (λ k, 40 + Z.of_nat k) [5; 6]
         [(0, 0); (1, 1); (1, 0)]%nat [(0, 1)%nat] (2, 2)%nat = Ok g ∧
       np.getitem2 g 1 0 = Ok 42.
Proof.
  eexists. split; [reflexivity|].
  apply (rebuild_leaves_uncovered_cells (λ k, 40 + Z.of_nat k) [5; 6]
           [(0, 0); (1, 1); (1, 0)]%nat [(0, 1)%nat] (2, 2)%nat _ (1, 0)%nat).
  - reflexivity.
  - split; simpl; lia.
  - intros Hin. apply list_elem_of_singleton in Hin. discriminate.
  - simpl. intros Hin. apply elem_of_cons in Hin as [Hin|Hin]; [discriminate|].
    apply list_elem_of_singleton in Hin. discriminate.
Defined.

(** X10. When [X_positions] lists a position more than once, the last
    sample written there is the one that stays: in a grid that
    [rebuild_data_with_outliers] returns, a position that is not an outlier
    holds sample [k], as a [float64], when [k] is the last index of a
    sample at that position; a sample of at most 53 bits is held as it
    is. *)
Theorem rebuild_last_sample_wins (uninit : nat → Z) (salinas_preds : list Z)
    (X_positions outlier_pos : list position) (target_shape : nat * nat)
    (g : np.ndarray2) (k : nat) (p : position) (v : Z) :
  rebuild_data_with_outliers uninit salinas_preds X_positions outlier_pos
    target_shape = Ok g →
  X_positions !! k = Some p → salinas_preds !! k = Some v →
  (∀ k', (k < k' < length salinas_preds)%nat → X_positions !! k' ≠ Some p) →
  p ∉ outlier_pos →
  np.getitem2 g p.1 p.2 = Ok (np.float64 v) ∧
  (Z.abs v ≤ 2 ^ 53 → np.getitem2 g p.1 p.2 = Ok v).
Proof.
  intros Hrun Hk Hv Hlast HO.
  cut (np.getitem2 g p.1 p.2 = Ok (np.float64 v)).
  { intros ->. split; [done|]. intros Hbits. by rewrite float64_exact. }
  assert (inside target_shape.1 target_shape.2 p) as Hp.
  { destruct (rebuild_Ok_fits _ _ _ _ _ _ Hrun) as (_ & HXp & _).
    rewrite Forall_forall in HXp. apply HXp, elem_of_take.
    exists k. split; [done|]. by apply lookup_lt_Some in Hv. }
  rewrite (rebuild_cell _ _ _ _ _ _ _ Hrun Hp HO). f_equal.
  apply (written_last _ k).
  - apply lookup_zip_with_Some. exists p, (np.float64 v).
    split_and!; [done..|]. by rewrite list_lookup_fmap, Hv.
  - intros k' [q w] Hk' Hw.
    apply lookup_zip_with_Some in Hw as (q' & w' & [= <- <-] & Hq & Hw).
    simpl. intros ->. apply (Hlast k'); [|done].
    apply lookup_lt_Some in Hw. rewrite length_fmap in Hw. lia.
Qed.

Lemma rebuild_last_sample_wins_witness :
  ∃ g, rebuild_data_with_outliers Z.of_nat [5; 6; 7]
         [(0, 0); (1, 1); (0, 0)]%nat [(0, 1)%nat] (2, 2)%nat = Ok g ∧
       np.getitem2 g 0 0 = Ok 7.
Proof.
  eexists. split; [reflexivity|].
  refine (proj1 (rebuild_last_sample_wins Z.of_nat [5; 6; 7]
                   [(0, 0); (1, 1); (0, 0)]%nat [(0, 1)%nat] (2, 2)%nat
                   _ 2 (0, 0)%nat 7 _ _ _ _ _)).
  - reflexivity.
  - reflexivity.
  - reflexivity.
  - simpl. lia.
  - intros Hin. apply list_elem_of_singleton in Hin. discriminate.
Defined.

(** ** More on [compute_labels_correspondence] *)

Lemma canon_ranked (argsort : list nat → list nat) (a : list Z) (base : Z)
    (p : nat) (x : Z) :
  np.is_argsort argsort →
  a !! p = Some x →
  ∃ k, ranked_classes argsort a !! k = Some x ∧
       canon (ranked_classes argsort a) base x = Z.of_nat k + base + 1.
Proof.
  intros Hsort Hp.
  assert (x ∈ ranked_classes argsort a) as Hin.
  { apply elem_of_ranked_classes; [done|]. by apply list_elem_of_lookup_2 in Hp. }
  apply list_elem_of_lookup_1 in Hin as [k Hk]. exists k. split; [done|].
  apply canon_found; [by apply NoDup_ranked_classes|done].
Qed.

(** X11. With [n_cluster] the number of distinct label values, the
    renumbering of the labels is one to one, whatever order [argsort]
    gives to equal counts: the call returns, every cell
    of [res_labels] holds an id between 1 and [n_cluster], and two cells
    hold the same id exactly when they held the same raw label. *)
Theorem full_renumbering_keeps_classes_apart (argsort : list nat → list nat)
    (labels preds : np.ndarray2) :
  np.is_argsort argsort →
  same_shape labels preds →
  ∃ rl rp,
    compute_labels_correspondence argsort labels preds (n_distinct labels)
    = Ok (rl, rp) ∧
    (∀ p v, np.flatten rl !! p = Some v → 1 ≤ v ≤ Z.of_nat (n_distinct labels)) ∧
    (∀ p q a b, np.flatten rl !! p = Some a → np.flatten rl !! q = Some b →
       (a = b ↔ np.flatten labels !! p = np.flatten labels !! q)).
Proof.
  intros Hsort Hshape. eexists _, _.
  split; [by apply same_shape_spec|].
  unfold n_distinct, np.flatten, resolver_state. cbn [np.data res_labels].
  rewrite take_ge by (by rewrite length_ranked_classes).
  split.
  - intros p v Hv. rewrite list_lookup_fmap in Hv.
    destruct (np.data labels !! p) as [x|] eqn:Hx; [|done].
    injection Hv as <-.
    destruct (canon_ranked argsort _ 0 _ _ Hsort Hx) as (k & Hk & ->).
    apply lookup_lt_Some in Hk. rewrite length_ranked_classes in Hk by done. lia.
  - intros p q a b Ha Hb. rewrite list_lookup_fmap in Ha, Hb.
    destruct (np.data labels !! p) as [x|] eqn:Hx; [|done].
    destruct (np.data labels !! q) as [y|] eqn:Hy; [|done].
    injection Ha as <-. injection Hb as <-.
    destruct (canon_ranked argsort _ 0 _ _ Hsort Hx) as (k & Hk & ->).
    destruct (canon_ranked argsort _ 0 _ _ Hsort Hy) as (m & Hm & ->).
    split.
    + intros Hkm. assert (k = m) as -> by lia. congruence.
    + intros [= ->].
      by rewrite (NoDup_lookup _ _ _ _
                    (NoDup_ranked_classes argsort Hsort _) Hk Hm).
Qed.

Lemma full_renumbering_keeps_classes_apart_witness :
  ∃ rl rp,
    compute_labels_correspondence np.argsort_stable ex_labels ex_preds 3
    = Ok (rl, rp) ∧
    Forall (λ v, 1 ≤ v ≤ 3) (np.flatten rl).
Proof.
  destruct (full_renumbering_keeps_classes_apart np.argsort_stable
              ex_labels ex_preds argsort_stable_ok)
    as (rl & rp & Hrun & Hrange & _).
  - repeat split; reflexivity.
  - exists rl, rp. split; [exact Hrun|].
    apply Forall_lookup. intros p v Hv. exact (Hrange p v Hv).
Defined.

(** X12. The predictions are renumbered by the rank that [argsort] gives
    to their class, not by their value: [m] being the number of
    [0 .. n_cluster - 1] that occur in [preds], in what a call on two grids
    of one shape returns, a cell that is labelled and whose prediction is
    [l[c[k]]], the class that [argsort] ranks [k], holds [k + offset + 1]
    when [k < m] and its raw prediction otherwise, with
    [offset = len(l2) - len(l)]. A class of smaller rank is not more
    populated; which of two equally populated classes has the smaller rank
    is up to [argsort]. *)
Theorem predictions_follow_ranks (argsort : list nat → list nat)
    (labels preds rl rp : np.ndarray2) (n_cluster : nat) (k p : nat) (v : Z) :
  np.is_argsort argsort →
  same_shape labels preds →
  compute_labels_correspondence argsort labels preds n_cluster = Ok (rl, rp) →
  ranked_classes argsort (np.flatten preds) !! k = Some v →
  np.flatten preds !! p = Some v →
  np.flatten labels !! p ≠ Some 0 →
  np.flatten rp !! p
  = Some (if decide (k < matched (np.unique (np.flatten preds)).1 n_cluster)%nat
          then Z.of_nat k
               + resolver_offset (np.flatten labels) (np.flatten preds) + 1
          else v) ∧
  ∀ k' w, (k < k')%nat →
    ranked_classes argsort (np.flatten preds) !! k' = Some w →
    (np.count (np.flatten preds) v ≤ np.count (np.flatten preds) w)%nat.
Proof.
  intros Hsort Hshape Hr Hk Hp Hl.
  split; [|intros k' w Hkk' Hw; by apply (ranked_classes_sorted argsort Hsort _ k k')].
  pose proof (returns_n_le argsort Hsort _ _ _ _ Hr) as Hn.
  rewrite (same_shape_spec argsort Hsort _ _ _ Hshape Hn) in Hr.
  injection Hr as <- <-.
  destruct Hshape as (Hwl & Hwp & H0 & H1). unfold np.wf in Hwl, Hwp.
  unfold np.flatten in *. cbn [np.data]. unfold resolver_state. cbn [res_preds].
  change (np.unique (np.data preds)).1 with (np.unique_values (np.data preds)).
  set (m := matched (np.unique_values (np.data preds)) n_cluster).
  destruct (np.data labels !! p) as [s|] eqn:Hs.
  2:{ apply lookup_ge_None in Hs. apply lookup_lt_Some in Hp.
      rewrite Hwl in Hs. rewrite Hwp in Hp. rewrite H0, H1 in Hs. lia. }
  erewrite lookup_assign_where; [|done|by rewrite list_lookup_fmap, Hp].
  rewrite decide_False by congruence. f_equal.
  destruct (decide (k < m)%nat) as [Hlt|Hge].
  - apply canon_found.
    + eapply sublist_NoDup; [by apply NoDup_ranked_classes|apply sublist_take].
    + by rewrite lookup_take_lt.
  - apply canon_not_found. intros Hin.
    apply list_elem_of_lookup_1 in Hin as [i Hi].
    pose proof (lookup_lt_Some _ _ _ Hi) as Hlt. rewrite length_take in Hlt.
    rewrite lookup_take_lt in Hi by lia.
    pose proof (NoDup_lookup _ _ _ _
                  (NoDup_ranked_classes argsort Hsort _) Hk Hi). lia.
Qed.

Lemma predictions_follow_ranks_witness :
  compute_labels_correspondence np.argsort_last_first
    (np.of_rows [[1; 1; 2]; [2; 2; 2]]) (np.of_rows [[0; 0; 0]; [1; 1; 7]]) 2
  = Ok (np.of_rows [[1; 1; 2]; [2; 2; 2]], np.of_rows [[0; 0; 0]; [1; 1; 0]]) ∧
  np.flatten (np.of_rows [[0; 0; 0]; [1; 1; 0]]) !! 5%nat = Some 0.
Proof.
  split; [reflexivity|].
  pose proof (proj1 (predictions_follow_ranks np.argsort_last_first
                (np.of_rows [[1; 1; 2]; [2; 2; 2]])
                (np.of_rows [[0; 0; 0]; [1; 1; 7]])
                (np.of_rows [[1; 1; 2]; [2; 2; 2]])
                (np.of_rows [[0; 0; 0]; [1; 1; 0]]) 2 0 5 7
                argsort_last_first_ok
                (conj eq_refl (conj eq_refl (conj eq_refl eq_refl)))
                eq_refl eq_refl eq_refl
                ltac:(discriminate))) as Hcell.
  vm_compute in Hcell. exact Hcell.
Defined.

(** ** More on [remove_unclassified] *)

(** X13. For predictions that are not negative and below the largest
    value of their element type, the grid that [remove_unclassified]
    returns holds 0 exactly at the positions where [labels] is 0: every
    other prediction has been moved to 1 or more. *)
Theorem remove_unclassified_zero_iff (h : gmap mem.loc (list Z))
    (preds labels : mem.array) (r c : nat) (P L : list Z) :
  mem.shape preds = [r; c] → mem.shape labels = [r; c] →
  h !! mem.buf preds = Some P → h !! mem.buf labels = Some L →
  length P = (r * c)%nat → length L = (r * c)%nat →
  Forall (λ x, 0 ≤ x < np.dtype_max (mem.dtype preds)) P →
  ∃ out h',
    remove_unclassified preds labels h = Ok (out, h') ∧
    ∀ i j, (i < r)%nat → (j < c)%nat →
      (mem.cell h' out i j = Some 0 ↔ mem.cell h labels i j = Some 0).
Proof.
  intros HsP HsL HP HL HlenP HlenL Hpos.
  destruct (remove_unclassified_cells h preds labels r c P L)
    as (out & h' & Hrun & _ & _ & _ & _ & Hcells); [done..|].
  exists out, h'. split; [done|].
  intros i j Hi Hj. destruct (Hcells i j Hi Hj) as (s & x & Hs & Hx & Hout).
  rewrite Hout, Hs.
  assert (0 ≤ x < np.dtype_max (mem.dtype preds)) as Hx0.
  { rewrite Forall_forall in Hpos. apply Hpos.
    unfold mem.cell, mem.cells in Hx. rewrite HsP, HP in Hx.
    destruct (decide _) in Hx; [|done].
    by apply list_elem_of_lookup_2 in Hx. }
  destruct (decide (s = 0)) as [->|Hne]; [done|].
  rewrite wrap_in_range.
  - split; intros [= Heq]; [lia|done].
  - split; [|lia]. unfold np.dtype_min. destruct (np.dtype_signed _); [|lia].
    pose proof (Z.pow_nonneg 2 (np.dtype_bits (mem.dtype preds) - 1)). lia.
Qed.

Lemma remove_unclassified_zero_iff_witness :
  ∃ out h',
    remove_unclassified (mem.Array 1%positive [2; 3]%nat np.uint8)
      (mem.Array 2%positive [2; 3]%nat np.int64) ex_heap = Ok (out, h') ∧
    Forall (λ ij : nat * nat,
              mem.cell h' out ij.1 ij.2 = Some 0
              ↔ mem.cell ex_heap (mem.Array 2%positive [2; 3]%nat np.int64)
                  ij.1 ij.2 = Some 0)
      [(0, 0); (0, 2); (1, 2)]%nat.
Proof.
  destruct (remove_unclassified_zero_iff ex_heap
              (mem.Array 1%positive [2; 3]%nat np.uint8)
              (mem.Array 2%positive [2; 3]%nat np.int64) 2 3
              [2; 2; 0; 0; 1; 1] [0; 1; 1; 2; 2; 2]
              eq_refl eq_refl eq_refl eq_refl eq_refl eq_refl)
    as (out & h' & Hrun & Hcells).
  - repeat constructor; vm_compute; (discriminate || reflexivity).
  - exists out, h'. split; [exact Hrun|].
    repeat constructor; apply Hcells; simpl; lia.
Defined.

(** X14. [remove_unclassified] returns a new array: its buffer is none of
    the buffers that existed before the call, and every buffer that
    existed holds after the call what it held before. *)
Theorem remove_unclassified_result_is_fresh (h : gmap mem.loc (list Z))
    (preds labels : mem.array) (r c : nat) (P L : list Z) :
  mem.shape preds = [r; c] →
  h !! mem.buf preds = Some P → h !! mem.buf labels = Some L →
  length P = (r * c)%nat → length L = (r * c)%nat →
  ∃ out h',
    remove_unclassified preds labels h = Ok (out, h') ∧
    (mem.buf out ∉ dom h) ∧
    ∀ b, b ∈ dom h → h' !! b = h !! b.
Proof.
  intros HsP HP HL HlenP HlenL.
  destruct (remove_unclassified_run h preds labels r c P L)
    as (b & h' & Hrun & Hfresh & Hold & _); [done..|].
  by exists (mem.Array b [r; c] (mem.dtype preds)), h'.
Qed.

Lemma remove_unclassified_result_is_fresh_witness :
  ∃ out h',
    remove_unclassified (mem.Array 1%positive [2; 3]%nat np.int64)
      (mem.Array 2%positive [2; 3]%nat np.int64) ex_heap = Ok (out, h') ∧
    (mem.buf out ∉ dom ex_heap).
Proof.
  destruct (remove_unclassified_result_is_fresh ex_heap
              (mem.Array 1%positive [2; 3]%nat np.int64)
              (mem.Array 2%positive [2; 3]%nat np.int64) 2 3
              [2; 2; 0; 0; 1; 1] [0; 1; 1; 2; 2; 2]
              eq_refl eq_refl eq_refl eq_refl eq_refl)
    as (out & h' & Hrun & Hfresh & _).
  exists out, h'. split; [exact Hrun|exact Hfresh].
Defined.

(** ** More on [split_x_train_test] *)

Lemma Permutation_app_middle {A} (a b c d : list A) :
  (a ++ b) ++ (c ++ d) ≡ₚ (a ++ c) ++ (b ++ d).
Proof.
  rewrite <-!app_assoc. f_equiv. rewrite !app_assoc. f_equiv.
  apply Permutation_app_comm.
Qed.

(** Train and test take the blocks of the classes apart, entry by
    entry. *)
Lemma train_test_indices_Permutation (count A : list nat) (ts : float)
    (labels : list nat) (s : nat) :
  train_indices count A ts labels s ++ test_indices count A ts labels s
  ≡ₚ take (total_count count labels) (drop s A).
Proof.
  revert s. induction labels as [|cl labels IH]; intros s; [done|].
  cbn [train_indices test_indices]. unfold total_count. cbn [sum_list_with].
  fold (total_count count labels).
  rewrite Permutation_app_middle, take_drop, IH.
  unfold class_block. by rewrite <-take_take_drop, drop_drop.
Qed.

(** X15. When the counts of the classes sum to the length of
    [labels_argsort], the split uses every entry of [labels_argsort]
    once: the rows stacked into [x_train] and those stacked into [x_test]
    are, together, the rows that [labels_argsort] names; when no row is
    named twice, no row is in both. *)
Theorem split_uses_each_row_once (uninit : nat → Z) (X_shuffle : np.ndarray2)
    (count labels labels_argsort : list nat) (size : np.size_arg)
    (train_split : float) :
  split_inputs X_shuffle count labels labels_argsort size train_split →
  total_count count labels = length labels_argsort →
  ∃ tr te ytr yte,
    split_x_train_test uninit X_shuffle count labels labels_argsort size train_split
    = Ok (stacked X_shuffle (np.empty uninit size) labels tr,
          stacked X_shuffle (np.empty uninit size) labels te, ytr, yte) ∧
    tr ++ te ≡ₚ labels_argsort ∧
    (NoDup labels_argsort → ∀ i, i ∈ tr → i ∉ te).
Proof.
  intros Hin Hsum. eexists _, _, _, _.
  split; [by apply split_x_train_test_spec|].
  assert (train_indices count labels_argsort train_split labels 0
          ++ test_indices count labels_argsort train_split labels 0
          ≡ₚ labels_argsort) as Hperm.
  { rewrite train_test_indices_Permutation, Hsum. simpl. by rewrite take_ge. }
  split; [done|].
  intros Hnd. rewrite <-Hperm in Hnd. by apply NoDup_app in Hnd as (_ & Hnd & _).
Qed.

Lemma split_uses_each_row_once_witness :
  ∃ tr te ytr yte,
    split_x_train_test (λ _, 7) ex_X [2; 2]%nat [0; 1]%nat [2; 0; 3; 1]%nat
      (np.SizeShape 0 2) default_train_split
    = Ok (stacked ex_X (np.empty (λ _, 7) (np.SizeShape 0 2)) [0; 1]%nat tr,
          stacked ex_X (np.empty (λ _, 7) (np.SizeShape 0 2)) [0; 1]%nat te,
          ytr, yte) ∧
    tr ++ te ≡ₚ [2; 0; 3; 1]%nat.
Proof.
  destruct (split_uses_each_row_once (λ _, 7) ex_X [2; 2]%nat [0; 1]%nat
              [2; 0; 3; 1]%nat (np.SizeShape 0 2) default_train_split)
    as (tr & te & ytr & yte & Hrun & Hperm & _).
  - apply (bool_decide_unpack _). vm_compute. exact I.
  - reflexivity.
  - exists tr, te, ytr, yte. split; [exact Hrun|exact Hperm].
Defined.

Lemma class_ids_aligned (y count A : list nat) (ts : float) (labels : list nat)
    (s : nat) :
  Forall (λ cluster, fraction_fits (count !!! cluster) ts) labels →
  (s + total_count count labels ≤ length A)%nat →
  grouped y count A labels s →
  Forall2 (λ i cl, y !! i = Some cl)
    (train_indices count A ts labels s)
    (labels ≫= λ cl, replicate (train_count (count !!! cl) ts) cl) ∧
  Forall2 (λ i cl, y !! i = Some cl)
    (test_indices count A ts labels s)
    (labels ≫= λ cl, replicate (count !!! cl - train_count (count !!! cl) ts) cl).
Proof.
  intros Hfits. revert s.
  induction Hfits as [|cl labels Hfit Hfits IH]; intros s Hs Hg.
  - split; constructor.
  - unfold total_count in Hs. cbn [sum_list_with] in Hs.
    fold (total_count count labels) in Hs. destruct Hg as [Hblock Hg].
    destruct (IH (s + count !!! cl)%nat) as [IHtr IHte]; [lia|done|].
    destruct (class_block_complete A ts s (count !!! cl) Hfit)
      as (_ & Htr & Hte); [lia|].
    cbn [train_indices test_indices]. rewrite !bind_cons.
    split; (apply Forall2_app; [|done]); apply Forall2_replicate_r; try done.
    + by apply Forall_take.
    + by apply Forall_drop.
Qed.

(** X16. The class ids follow the rows. With [y] the class of each row
    of [X_shuffle], when the counts fit in [labels_argsort] and the block
    of every class holds rows of that class only, [y_train] and [y_test]
    hold, entry by entry, the class of the row stacked at the same place
    into [x_train] and [x_test]. *)
Theorem split_class_ids_match_rows (uninit : nat → Z) (X_shuffle : np.ndarray2)
    (y count labels labels_argsort : list nat) (size : np.size_arg)
    (train_split : float) :
  split_inputs X_shuffle count labels labels_argsort size train_split →
  (total_count count labels ≤ length labels_argsort)%nat →
  grouped y count labels_argsort labels 0 →
  ∃ tr te ytr yte,
    split_x_train_test uninit X_shuffle count labels labels_argsort size train_split
    = Ok (stacked X_shuffle (np.empty uninit size) labels tr,
          stacked X_shuffle (np.empty uninit size) labels te, ytr, yte) ∧
    Forall2 (λ i cl, y !! i = Some cl) tr ytr ∧
    Forall2 (λ i cl, y !! i = Some cl) te yte.
Proof.
  intros Hin Hsum Hg. pose proof Hin as (_ & _ & _ & Hfits).
  eexists _, _, _, _. split; [by apply split_x_train_test_spec|].
  by apply class_ids_aligned.
Qed.

Lemma split_class_ids_match_rows_witness :
  ∃ tr te ytr yte,
    split_x_train_test (λ _, 7) ex_X [2; 2]%nat [0; 1]%nat [2; 0; 3; 1]%nat
      (np.SizeShape 0 2) default_train_split
    = Ok (stacked ex_X (np.empty (λ _, 7) (np.SizeShape 0 2)) [0; 1]%nat tr,
          stacked ex_X (np.empty (λ _, 7) (np.SizeShape 0 2)) [0; 1]%nat te,
          ytr, yte) ∧
    Forall2 (λ i cl, [0; 1; 0; 1]%nat !! i = Some cl) tr ytr ∧
    Forall2 (λ i cl, [0; 1; 0; 1]%nat !! i = Some cl) te yte.
Proof.
  apply (split_class_ids_match_rows (λ _, 7) ex_X [0; 1; 0; 1]%nat [2; 2]%nat
           [0; 1]%nat [2; 0; 3; 1]%nat (np.SizeShape 0 2) default_train_split).
  - apply (bool_decide_unpack _). vm_compute. exact I.
  - simpl. lia.
  - simpl. split_and!; [repeat constructor..|done].
Defined.

Lemma Forall_slice {A} (P : A → Prop) (a : list A) (lo hi : Z) :
  Forall P a → Forall P (np.slice a lo hi).
Proof. intros Ha. unfold np.slice. by apply Forall_take, Forall_drop. Qed.

(** X17. A class id that has no entry in [count] makes the split raise
    [IndexError], when the classes before it could be split. *)
Theorem split_unknown_class_raises (uninit : nat → Z) (X_shuffle : np.ndarray2)
    (count pre post labels_argsort : list nat) (cluster : nat)
    (size : np.size_arg) (train_split : float) :
  split_inputs X_shuffle count pre labels_argsort size train_split →
  (length count ≤ cluster)%nat →
  split_x_train_test uninit X_shuffle count (pre ++ cluster :: post)
    labels_argsort size train_split
  = Raise IndexError.
Proof.
  intros (Hcl & HA & Hw & Hfits) Hcluster. unfold split_x_train_test.
  rewrite for_each_app, split_loop; [|done|by apply split_ready_seed|done|done].
  cbn [mbind result_bind for_each]. unfold split_body.
  by rewrite (getitem_ge count cluster) by done.
Qed.

Lemma split_unknown_class_raises_witness :
  split_x_train_test (λ _, 7) ex_X [2; 2]%nat ([0] ++ 5 :: [1])%nat
    [2; 0; 3; 1]%nat (np.SizeShape 0 2) default_train_split
  = Raise IndexError.
Proof.
  apply split_unknown_class_raises.
  - apply (bool_decide_unpack _). vm_compute. exact I.
  - simpl. lia.
Defined.

Lemma int_of_product_raise (cnt : nat) (ts : float) (e : exn) :
  int_of_product cnt ts = Raise e → e = ValueError ∨ e = OverflowError.
Proof.
  unfold int_of_product, np.int_of_float.
  destruct (Prim2SF _); intros [= <-]; auto.
Qed.

(** X18. A train fraction that makes [int(count * train_split)] negative
    or larger than the count of the first class (a fraction below 0 or
    above 1) makes the split raise [ValueError]: one of the two
    [np.full] is asked for a negative number of entries. *)
Theorem split_bad_fraction_raises (uninit : nat → Z) (X_shuffle : np.ndarray2)
    (count post labels_argsort : list nat) (cluster cnt : nat) (idx : Z)
    (size : np.size_arg) (train_split : float) :
  count !! cluster = Some cnt →
  Forall (λ i, i < np.shape0 X_shuffle)%nat labels_argsort →
  size_width size = np.shape1 X_shuffle →
  int_of_product cnt train_split = Ok idx →
  idx < 0 ∨ Z.of_nat cnt < idx →
  split_x_train_test uninit X_shuffle count (cluster :: post)
    labels_argsort size train_split
  = Raise ValueError.
Proof.
  intros Hcnt HA Hw Hprod Hidx. unfold split_x_train_test.
  destruct (split_ready_seed uninit X_shuffle size Hw) as (_ & Hwtr & Hwte).
  cbn [x_train x_test] in Hwtr, Hwte.
  cbn [for_each]. unfold split_body. cbn [sum_ x_train x_test y_train y_test].
  rewrite (proj2 (getitem_Ok count cluster cnt) Hcnt). cbn [mbind result_bind].
  rewrite Hprod. cbn [mbind result_bind].
  rewrite take_rows_Ok by (by apply Forall_slice). cbn [mbind result_bind].
  rewrite vstack_Ok by done. cbn [mbind result_bind].
  rewrite take_rows_Ok by (by apply Forall_slice). cbn [mbind result_bind].
  rewrite vstack_Ok by done. cbn [mbind result_bind].
  unfold np.full.
  destruct (idx <? 0) eqn:Hneg; [done|].
  apply Z.ltb_ge in Hneg. cbn [mbind result_bind].
  destruct (Z.of_nat cnt - idx <? 0) eqn:Hneg2; [done|].
  apply Z.ltb_ge in Hneg2. lia.
Qed.

Lemma split_bad_fraction_raises_witness :
  split_x_train_test (λ _, 7) ex_X [2; 2]%nat [0; 1]%nat
    [2; 0; 3; 1]%nat (np.SizeShape 0 2) 75%float
  = Raise ValueError.
Proof.
  apply (split_bad_fraction_raises (λ _, 7) ex_X [2; 2]%nat [1]%nat
           [2; 0; 3; 1]%nat 0 2 150 (np.SizeShape 0 2) 75%float).
  - reflexivity.
  - repeat constructor; simpl; lia.
  - reflexivity.
  - vm_compute. reflexivity.
  - right. lia.
Defined.

Lemma vstack_raise (a : np.ndarray) (b : np.ndarray2) :
  np.shape1 (np.atleast_2d a) ≠ np.shape1 b → np.vstack a b = Raise ValueError.
Proof. intros Hw. unfold np.vstack. by rewrite decide_False. Qed.

(** X19. When [np.empty(size)] has not the width of [X_shuffle], the
    split raises [ValueError] at the first class: the rows cannot be
    stacked on the seed. ([int] of the product has raised before only for
    an infinite product, and then [OverflowError].) *)
Theorem split_width_mismatch_raises (uninit : nat → Z) (X_shuffle : np.ndarray2)
    (count post labels_argsort : list nat) (cluster cnt : nat)
    (size : np.size_arg) (train_split : float) :
  count !! cluster = Some cnt →
  Forall (λ i, i < np.shape0 X_shuffle)%nat labels_argsort →
  size_width size ≠ np.shape1 X_shuffle →
  int_of_product cnt train_split ≠ Raise OverflowError →
  split_x_train_test uninit X_shuffle count (cluster :: post)
    labels_argsort size train_split
  = Raise ValueError.
Proof.
  intros Hcnt HA Hw Hfinite. unfold split_x_train_test.
  cbn [for_each]. unfold split_body. cbn [sum_ x_train x_test y_train y_test].
  rewrite (proj2 (getitem_Ok count cluster cnt) Hcnt). cbn [mbind result_bind].
  destruct (int_of_product cnt train_split) as [idx|e] eqn:Hprod.
  2:{ apply int_of_product_raise in Hprod as [->| ->]; [done|].
      by destruct Hfinite. }
  cbn [mbind result_bind].
  rewrite (take_rows_Ok X_shuffle (np.slice labels_argsort 0 (0 + idx)))
    by (by apply Forall_slice).
  cbn [mbind result_bind]. rewrite (vstack_raise (np.empty uninit size)); [done|].
  cbn [np.shape1].
  destruct size; cbn [np.empty np.atleast_2d np.shape1 np.empty2 size_width] in *;
    by rewrite ?length_fmap, ?length_seq.
Qed.

Lemma split_width_mismatch_raises_witness :
  split_x_train_test (λ _, 7) ex_X [2; 2]%nat [0; 1]%nat
    [2; 0; 3; 1]%nat (np.SizeInt 4) default_train_split
  = Raise ValueError.
Proof.
  apply (split_width_mismatch_raises (λ _, 7) ex_X [2; 2]%nat [1]%nat
           [2; 0; 3; 1]%nat 0 2 (np.SizeInt 4) default_train_split).
  - reflexivity.
  - repeat constructor; simpl; lia.
  - simpl. lia.
  - vm_compute. discriminate.
Defined.

(** ** More on [calculate_mean_score] *)

Lemma take_rows_raise (a : np.ndarray2) (idx : list nat) (e : exn) :
  np.take_rows a idx = Raise e → e = IndexError.
Proof.
  unfold np.take_rows. intros Hrun.
  apply bind_raise in Hrun as [Hrun|(rows & _ & Hrun)]; [|done].
  eapply (for_each_raise (λ e, e = IndexError)); [|exact Hrun].
  intros acc i e' Hbody. cbv beta in Hbody.
  destruct (decide (i < np.shape0 a)%nat); congruence.
Qed.

Lemma take_rows_inv (a r : np.ndarray2) (idx : list nat) :
  np.take_rows a idx = Ok r → Forall (λ i, i < np.shape0 a)%nat idx.
Proof.
  unfold np.take_rows. intros Hrun. apply bind_Ok in Hrun as (rows & Hrun & _).
  assert (∀ acc, for_each (λ acc i,
                     if decide (i < np.shape0 a)%nat then Ok (acc ++ [np.row a i])
                     else Raise IndexError) idx acc = Ok rows →
                 Forall (λ i, i < np.shape0 a)%nat idx) as Hloop;
    [|by apply (Hloop [])].
  clear Hrun. induction idx as [|i idx IH]; intros acc Hrun; [done|].
  cbn [for_each] in Hrun.
  destruct (decide (i < np.shape0 a)%nat) as [Hi|]; [|done].
  constructor; [done|]. by apply (IH (acc ++ [np.row a i])).
Qed.

Section mean_score_errors.
Context `{Scorer Model}.
Variables (x_labels : np.ndarray2) (y_labels : list Z) (model : Model).

Lemma mean_score_body_raise (acc : Q) (cluster : Z) (e : exn) :
  (let idxs := np.argwhere_eq y_labels cluster in
   xs ← np.take_rows x_labels idxs;
   ys ← np.take_idx y_labels idxs;
   Ok (acc + score model xs ys)%Q) = Raise e →
  e = IndexError.
Proof.
  cbv zeta. intros Hbody.
  apply bind_raise in Hbody as [Hbody|(xs & _ & Hbody)];
    [by apply take_rows_raise in Hbody|].
  rewrite take_idx_Ok in Hbody by apply argwhere_eq_lt. done.
Qed.

(** A class with a member that has no row in [x_labels] stops the
    loop. *)
Lemma mean_score_loop_raise (labels : list Z) (acc : Q) :
  Exists (λ cluster, ∃ i, y_labels !! i = Some cluster ∧
                          (np.shape0 x_labels ≤ i)%nat) labels →
  for_each (λ mean_score cluster,
      let idxs := np.argwhere_eq y_labels cluster in
      xs ← np.take_rows x_labels idxs;
      ys ← np.take_idx y_labels idxs;
      Ok (mean_score + score model xs ys)%Q)
    labels acc
  = Raise IndexError.
Proof.
  revert acc. induction labels as [|cl labels IH]; intros acc Hex;
    [by apply Exists_nil in Hex|].
  cbn [for_each]. cbv zeta.
  destruct (np.take_rows x_labels (np.argwhere_eq y_labels cl)) as [xs|e] eqn:Hxs.
  - cbn [mbind result_bind].
    rewrite take_idx_Ok by apply argwhere_eq_lt. cbn [mbind result_bind].
    apply IH. apply Exists_cons in Hex as [(i & Hi & Hge)|Hex]; [|done].
    apply take_rows_inv in Hxs. rewrite Forall_forall in Hxs.
    apply elem_of_argwhere_eq, Hxs in Hi. lia.
  - cbn [mbind result_bind]. f_equal. by apply take_rows_raise in Hxs.
Qed.
End mean_score_errors.

(** X20. [calculate_mean_score] needs a row of [x_labels] for every
    sample of the classes it scores: when a class of [labels] has a member
    in [y_labels] whose index is past the last row of [x_labels], the call
    raises [IndexError]. *)
Theorem mean_score_missing_row_raises `{Scorer Model} (labels : list Z)
    (x_labels : np.ndarray2) (y_labels : list Z) (model : Model) :
  Exists (λ cluster, ∃ i, y_labels !! i = Some cluster ∧
                          (np.shape0 x_labels ≤ i)%nat) labels →
  calculate_mean_score labels x_labels y_labels model = Raise IndexError.
Proof.
  intros Hex. unfold calculate_mean_score.
  by rewrite mean_score_loop_raise.
Qed.

Lemma mean_score_missing_row_raises_witness :
  calculate_mean_score (H := sample_count_scorer) [1; 2]
    (np.of_rows [[10]; [11]; [12]]) [1; 1; 1; 2] () = Raise IndexError.
Proof.
  apply (mean_score_missing_row_raises (H := sample_count_scorer)).
  apply Exists_cons_tl, Exists_cons_hd. exists 3%nat. split; [reflexivity|].
  simpl. lia.
Defined.

(** X21. [calculate_mean_score] divides by the number of classes without
    a check: it raises [ZeroDivisionError] exactly when [labels] is
    empty. *)
Theorem mean_score_zero_division_iff `{Scorer Model} (labels : list Z)
    (x_labels : np.ndarray2) (y_labels : list Z) (model : Model) :
  calculate_mean_score labels x_labels y_labels model = Raise ZeroDivisionError
  ↔ labels = [].
Proof.
  split; [|by intros ->].
  unfold calculate_mean_score. intros Hrun.
  apply bind_raise in Hrun as [Hrun|(q & _ & Hrun)].
  - eapply (for_each_raise (λ e, e = IndexError)) in Hrun; [done|].
    intros acc cluster e. apply mean_score_body_raise.
  - destruct (decide (length labels = 0%nat)) as [Hlen|]; [|done].
    by destruct labels.
Qed.
